(** * saus-imagetools: cache keys, the image cache and the response logic

    A shallow embedding of [src/plugin.ts] (the dev-server middleware),
    of [src/runtime.ts] (the [serveImages] endpoint), of the on-disk
    image cache that [src/runtime.ts] imports from [./utils/cache] and of
    [src/utils/readImage.ts], with the properties of the specification
    that concern them and further properties of the code.

    Strings are byte strings (the UTF-8 encoding of the JavaScript string;
    where JavaScript looks at code units, they are computed from the
    bytes), a Buffer is a list of bytes, and a plain JavaScript object used
    as a dictionary is a [gmap] of its own keys, with the names it inherits
    from [Object.prototype] beside them. *)

From Stdlib Require Import ZArith Ascii Permutation.
From stdpp Require Import base option list sorting strings gmap.

Abbreviation bytes := (list Byte.byte).

(* ===================================================================== *)
(** ** JavaScript strings *)
(* ===================================================================== *)

Module JsString.

(** [s.slice(n)] for [0 <= n]. *)
Definition slice_from (n : nat) (s : string) : string :=
  String.substring n (String.length s - n) s.

(** [s.slice(0, n)]. *)
Definition slice_to (n : nat) (s : string) : string :=
  String.substring 0 (Nat.min n (String.length s)) s.

(** String concatenation with a value that may be [null]: [x + null]
    appends the text [null]. *)
Definition or_null (o : option string) : string :=
  match o with Some s => s | None => "null" end.

(** Interpolation [`${v}`] of a value that may be [undefined]. *)
Definition or_undefined (o : option string) : string :=
  match o with Some s => s | None => "undefined" end.

(** The line terminators, which [.] does not match in a regular
    expression: LF, CR, and U+2028 and U+2029 in their UTF-8 encoding. *)
Definition LF : ascii := ascii_of_nat 10.
Definition CR : ascii := ascii_of_nat 13.
Definition LS : string :=
  String (ascii_of_nat 226) (String (ascii_of_nat 128)
    (String (ascii_of_nat 168) EmptyString)).
Definition PS : string :=
  String (ascii_of_nat 226) (String (ascii_of_nat 128)
    (String (ascii_of_nat 169) EmptyString)).

Fixpoint has_line_terminator (s : string) : bool :=
  match s with
  | EmptyString => false
  | String c s' =>
      Ascii.eqb c LF || Ascii.eqb c CR
      || String.prefix LS s || String.prefix PS s
      || has_line_terminator s'
  end.

(** [const [uri, query] = url.split(/\?(.+)$/)]: the split is at the
    first question mark that is followed, up to the end of the string,
    by one or more characters other than line terminators; [query] is
    [undefined] when there is none. *)
Fixpoint split_query (url : string) : string * option string :=
  match url with
  | EmptyString => (EmptyString, None)
  | String c rest =>
      if Ascii.eqb c "?" && negb (String.eqb rest EmptyString)
         && negb (has_line_terminator rest)
      then (EmptyString, Some rest)
      else let '(uri, query) := split_query rest in (String c uri, query)
  end.

(** The UTF-16 code units of a string, from its UTF-8 bytes: a sequence
    of one to three bytes is one code unit, a sequence of four bytes (a
    supplementary character) is a surrogate pair. A byte that is part of
    no sequence stands for itself. *)
Definition continuation (c : ascii) : option N :=
  let b := N_of_ascii c in
  if ((128 <=? b) && (b <? 192))%N then Some (b - 128)%N else None.

Definition units_of_code_point (cp : N) : list N :=
  if (cp <? 65536)%N then [cp]
  else [ (55296 + (cp - 65536) / 1024)%N; (56320 + (cp - 65536) mod 1024)%N ].

Fixpoint code_units (s : string) : list N :=
  match s with
  | EmptyString => []
  | String c s1 =>
      let b := N_of_ascii c in
      let alone := b :: code_units s1 in
      if (b <? 192)%N then alone
      else
        match s1 with
        | EmptyString => alone
        | String c1 s2 =>
            match continuation c1 with
            | None => alone
            | Some x1 =>
                if (b <? 224)%N
                then units_of_code_point ((b - 192) * 64 + x1)%N
                       ++ code_units s2
                else
                  match s2 with
                  | EmptyString => alone
                  | String c2 s3 =>
                      match continuation c2 with
                      | None => alone
                      | Some x2 =>
                          if (b <? 240)%N
                          then units_of_code_point
                                 ((b - 224) * 4096 + x1 * 64 + x2)%N
                                 ++ code_units s3
                          else
                            match s3 with
                            | EmptyString => alone
                            | String c3 s4 =>
                                match continuation c3 with
                                | None => alone
                                | Some x3 =>
                                    let cp := ((b - 240) * 262144 + x1 * 4096
                                               + x2 * 64 + x3)%N in
                                    if (cp <? 1114112)%N
                                    then units_of_code_point cp
                                           ++ code_units s4
                                    else alone
                                end
                            end
                      end
                  end
            end
        end
  end.

(** The order of [Array.prototype.sort] without a comparator, and of
    [URLSearchParams.prototype.sort]: code unit by code unit, a proper
    prefix first. *)
Fixpoint compare_units (a b : list N) : comparison :=
  match a, b with
  | [], [] => Eq
  | [], _ :: _ => Lt
  | _ :: _, [] => Gt
  | x :: a', y :: b' =>
      match (x ?= y)%N with
      | Eq => compare_units a' b'
      | c => c
      end
  end.

(** [a] is not after [b]. Two JavaScript strings with the same code
    units are the same string; two byte strings that are not well-formed
    UTF-8 may have the same code units here, and are then taken in the
    order of their bytes. *)
Definition precedes (a b : string) : bool :=
  match compare_units (code_units a) (code_units b) with
  | Lt => true
  | Gt => false
  | Eq => String.leb a b
  end.

End JsString.

(* ===================================================================== *)
(** ** URLSearchParams *)
(* ===================================================================== *)

(** The object is an ordered list of name-value pairs; names may repeat.
    Only the methods the sources call are modelled. Parsing a query string
    and serialising the list are the platform's (see [Platform] below). *)

Module URLSearchParams.

Definition t := list (string * string).

Definition name_is (k : string) (e : string * string) : bool :=
  String.eqb (fst e) k.

(** [params.has(name)] *)
Definition has (k : string) (p : t) : bool := existsb (name_is k) p.

(** [params.get(name)]: the first value of that name, or [null]. *)
Definition get (k : string) (p : t) : option string :=
  match List.filter (name_is k) p with
  | [] => None
  | e :: _ => Some (snd e)
  end.

(** [params.set(name, value)]: the first pair of that name takes the
    value and the others of that name are removed; a pair is appended
    when there is none. *)
Fixpoint set_first (k v : string) (p : t) : t :=
  match p with
  | [] => []
  | e :: p' =>
      if name_is k e
      then (k, v) :: List.filter (fun e' => negb (name_is k e')) p'
      else e :: set_first k v p'
  end.

Definition set (k v : string) (p : t) : t :=
  if has k p then set_first k v p else p ++ [(k, v)].

(** [params.entries()] iterates the pairs in list order. *)
Definition entries (p : t) : list (string * string) := p.

(** [params.sort()]: the pairs are sorted by name, comparing code units,
    and the sort is stable: pairs of equal name keep their relative
    order. A stable sort determines its result, so the insertion sort
    below stands for whichever algorithm the platform runs. *)
Fixpoint insert (e : string * string) (p : t) : t :=
  match p with
  | [] => [e]
  | e' :: p' =>
      if JsString.precedes (fst e) (fst e') then e :: e' :: p'
      else e' :: insert e p'
  end.

Fixpoint sort (p : t) : t :=
  match p with
  | [] => []
  | e :: p' => insert e (sort p')
  end.

(** The order [sort] leaves two pairs in. *)
Definition in_order (a b : string * string) : Prop :=
  JsString.precedes (fst a) (fst b) = true.

End URLSearchParams.

(* ===================================================================== *)
(** ** MD5 *)
(* ===================================================================== *)

(** Modelled from the spec: [md5Hex] of [saus/core] is imported by both
    sources and is not part of them. The specification calls it a
    cryptographic digest rendered in hexadecimal; its name says which.
    This is RFC 1321 over the bytes of the string, in lower-case hex.
    The handlers below take the digest from the [Platform]; this
    implementation instantiates it. *)

Module MD5.
Local Open Scope Z_scope.

Definition mask32 : Z := 4294967295.
Definition wrap (x : Z) : Z := Z.land x mask32.
Definition add32 (x y : Z) : Z := wrap (x + y).
Definition not32 (x : Z) : Z := Z.lxor x mask32.
Definition rotl32 (x : Z) (c : Z) : Z :=
  wrap (Z.lor (Z.shiftl x c) (Z.shiftr x (32 - c))).

Definition K : list Z :=
  [ 3614090360; 3905402710; 606105819; 3250441966;
    4118548399; 1200080426; 2821735955; 4249261313;
    1770035416; 2336552879; 4294925233; 2304563134;
    1804603682; 4254626195; 2792965006; 1236535329;
    4129170786; 3225465664; 643717713; 3921069994;
    3593408605; 38016083; 3634488961; 3889429448;
    568446438; 3275163606; 4107603335; 1163531501;
    2850285829; 4243563512; 1735328473; 2368359562;
    4294588738; 2272392833; 1839030562; 4259657740;
    2763975236; 1272893353; 4139469664; 3200236656;
    681279174; 3936430074; 3572445317; 76029189;
    3654602809; 3873151461; 530742520; 3299628645;
    4096336452; 1126891415; 2878612391; 4237533241;
    1700485571; 2399980690; 4293915773; 2240044497;
    1873313359; 4264355552; 2734768916; 1309151649;
    4149444226; 3174756917; 718787259; 3951481745 ].

Definition shifts : list Z :=
  [ 7; 12; 17; 22; 7; 12; 17; 22; 7; 12; 17; 22; 7; 12; 17; 22;
    5; 9; 14; 20; 5; 9; 14; 20; 5; 9; 14; 20; 5; 9; 14; 20;
    4; 11; 16; 23; 4; 11; 16; 23; 4; 11; 16; 23; 4; 11; 16; 23;
    6; 10; 15; 21; 6; 10; 15; 21; 6; 10; 15; 21; 6; 10; 15; 21 ].

Record state := { sa : Z; sb : Z; sc : Z; sd : Z }.

Definition init : state :=
  {| sa := 1732584193; sb := 4023233417; sc := 2562383102; sd := 271733878 |}.

(** Round [i] on the working state, with the block's sixteen words [m]. *)
Definition round (m : list Z) (st : state) (i : nat) : state :=
  let '(Build_state a b c d) := st in
  let iz := Z.of_nat i in
  let '(f, g) :=
    if iz <? 16 then (Z.lor (Z.land b c) (Z.land (not32 b) d), iz)
    else if iz <? 32 then
      (Z.lor (Z.land d b) (Z.land (not32 d) c), (5 * iz + 1) mod 16)
    else if iz <? 48 then (Z.lxor b (Z.lxor c d), (3 * iz + 5) mod 16)
    else (Z.lxor c (Z.lor b (not32 d)), (7 * iz) mod 16) in
  let f' := add32 (add32 (add32 f a) (nth i K 0)) (nth (Z.to_nat g) m 0) in
  {| sa := d; sb := add32 b (rotl32 f' (nth i shifts 0)); sc := b; sd := c |}.

Definition block (h : state) (m : list Z) : state :=
  let st := fold_left (round m) (seq 0 64) h in
  {| sa := add32 (sa h) (sa st); sb := add32 (sb h) (sb st);
     sc := add32 (sc h) (sc st); sd := add32 (sd h) (sd st) |}.

(** Little-endian words of a byte list whose length is a multiple of 4. *)
Fixpoint words (bs : list Z) : list Z :=
  match bs with
  | b0 :: b1 :: b2 :: b3 :: bs' =>
      (b0 + 256 * b1 + 65536 * b2 + 16777216 * b3) :: words bs'
  | _ => []
  end.

Fixpoint chunks (fuel : nat) (ws : list Z) : list (list Z) :=
  match fuel, ws with
  | O, _ | _, [] => []
  | S fuel', _ => firstn 16 ws :: chunks fuel' (skipn 16 ws)
  end.

Definition le_bytes (n : nat) (x : Z) : list Z :=
  map (fun i => Z.land (Z.shiftr x (8 * Z.of_nat i)) 255) (seq 0 n).

Definition pad (msg : list Z) : list Z :=
  let len := Z.of_nat (List.length msg) in
  let zeros := Z.to_nat ((55 - len) mod 64) in
  msg ++ [128] ++ repeat 0 zeros ++ le_bytes 8 (8 * len).

Definition digest (msg : list Z) : list Z :=
  let ws := words (pad msg) in
  let h := fold_left block (chunks (List.length ws) ws) init in
  le_bytes 4 (sa h) ++ le_bytes 4 (sb h) ++ le_bytes 4 (sc h)
    ++ le_bytes 4 (sd h).

Definition hex_digit (x : Z) : ascii :=
  nth (Z.to_nat x)
    (String.list_ascii_of_string "0123456789abcdef") "0"%char.

Fixpoint hex (bs : list Z) : string :=
  match bs with
  | [] => EmptyString
  | b :: bs' =>
      String (hex_digit (b / 16)) (String (hex_digit (b mod 16)) (hex bs'))
  end.

Definition bytes_of (s : string) : list Z :=
  map (fun c => Z.of_N (N_of_ascii c)) (String.list_ascii_of_string s).

Definition md5Hex (s : string) : string := hex (digest (bytes_of s)).

End MD5.


(* ===================================================================== *)
(** ** The platform and the image engine *)
(* ===================================================================== *)

(** A call either returns or throws; a promise, once awaited, either
    resolves or rejects. *)
Inductive result (A : Type) : Type :=
| Ok (a : A)
| Throw.
Arguments Ok {A} a.
Arguments Throw {A}.

(** What the sources import from Node, [is-image], [etag] and [saus/core].
    None of it is in the repository: the handlers are parametric in it. *)
Class Platform := {
  (** [isImage(path)] of the [is-image] package *)
  isImage : string -> bool;
  (** [path.extname(p)] *)
  extname : string -> string;
  (** [path.basename(p, ext)] *)
  basename : string -> string -> string;
  (** [path.join(a, b)] and [path.resolve(a, b)] *)
  path_join : string -> string -> string;
  path_resolve : string -> string -> string;
  (** [md5Hex(s)] of [saus/core] *)
  md5Hex : string -> string;
  (** [new URLSearchParams(query)] and [params.toString()] *)
  parse_query : string -> URLSearchParams.t;
  params_toString : URLSearchParams.t -> string;
  (** [etag(buffer, { weak: true })] *)
  etag : bytes -> string;
}.

(** What the sources import from [imagetools-core] and [sharp]. A [Sharp]
    handle is mutable; [applyTransforms] attaches the metadata to the
    handle it is given and returns the handle of the result, so the model
    threads the returned handle where the source keeps using the object.
    The third argument of [applyTransforms] is optional in the source. *)
Class ImageEngine := {
  Sharp : Type;
  ImageConfig : Type;
  TransformFactory : Type;
  ImageTransformation : Type;
  (** [builtins], imported as [builtinTransforms] *)
  builtinTransforms : list TransformFactory;
  (** the first element of
      [resolveConfigs(extractEntries(params), builtinOutputFormats)] *)
  resolveConfigs : URLSearchParams.t -> option ImageConfig;
  (** the [transforms] field of [generateTransforms(config, factories)] *)
  generateTransforms :
    ImageConfig -> list TransformFactory -> list ImageTransformation;
  (** [sharp(buffer)] *)
  sharp : bytes -> result Sharp;
  (** the [image] field of [await applyTransforms(transforms, image, flag)] *)
  applyTransforms :
    list ImageTransformation -> Sharp -> option bool -> result Sharp;
  (** [await image.toBuffer()] *)
  toBuffer : Sharp -> result bytes;
  (** [getMetadata(image, key)] *)
  getMetadata : Sharp -> string -> option string;
}.

(* ===================================================================== *)
(** ** The file system *)
(* ===================================================================== *)

(** Files by path. [readFileSync] throws on a missing file.
    [writeFileSync] opens the file with the flag [w], which creates or
    truncates it, writes the bytes and closes it; it throws when the
    medium refuses. [writable] says whether writes go through. When they
    do not, [torn] says where they stop: [None] when the file cannot even
    be opened, so that nothing changes; [Some n] when it is opened, and so
    truncated, and the write fails after [n] bytes at most. *)
Record FileSystem := {
  files : gmap string bytes;
  writable : bool;
  torn : option nat;
}.

Definition fs_read (p : string) (fs : FileSystem) : result bytes :=
  match files fs !! p with
  | Some data => Ok data
  | None => Throw
  end.

Definition fs_write (p : string) (data : bytes) (fs : FileSystem)
  : result unit * FileSystem :=
  if writable fs
  then (Ok tt, {| files := <[p := data]> (files fs); writable := true;
                  torn := torn fs |})
  else
    match torn fs with
    | None => (Throw, fs)
    | Some n =>
        (Throw, {| files := <[p := take n data]> (files fs);
                   writable := false; torn := torn fs |})
    end.

(* ===================================================================== *)
(** ** Handlers as computations over the world *)
(* ===================================================================== *)

Section Model.
Context `{PF : Platform} `{IE : ImageEngine}.

(** The operations a handler suspends on: loading the source, the cache,
    the transformations, the encoding, and the hooks it awaits
    ([removeExifData], [headers], [devHeaders]). The allow hook is not one
    of them: it is called and what it returns is tested as it is. *)
Inductive Operation : Type :=
| OpLoad
| OpCacheRead (imageId : string)
| OpCacheWrite (imageId : string)
| OpApplyTransforms (transforms : list ImageTransformation)
| OpToBuffer
| OpHook.

(** What a handler does, in program order. [Await op]: the handler
    awaited [op] and went on only after it had settled. [Detached op]:
    the handler called [op] and dropped the promise; nothing orders the
    settling of [op] with what the handler does next. *)
Inductive Event : Type :=
| Await (op : Operation)
| Detached (op : Operation)
| FsRead (p : string)
| FsWrite (p : string)
| WriteHead (status : nat)
| Pipe
| RespondWith (status : nat).

Record World := {
  fs : FileSystem;
  log : list Event;
}.

Definition M (A : Type) : Type := World -> result A * World.

Definition ret {A} (a : A) : M A := fun w => (Ok a, w).

Definition bind {A B} (m : M A) (k : A -> M B) : M B :=
  fun w =>
    match m w with
    | (Ok a, w') => k a w'
    | (Throw, w') => (Throw, w')
    end.

Definition lift {A} (r : result A) : M A := fun w => (r, w).

Definition emit (e : Event) : M unit :=
  fun w => (Ok tt, {| fs := fs w; log := log w ++ [e] |}).

(** [await m]: run [m] until it settles, then go on or rethrow. The log
    is the caller's: what the callee did on the way is not recorded in
    it. *)
Definition await {A} (op : Operation) (m : M A) : M A :=
  fun w =>
    let '(r, w') := m w in
    (r, {| fs := fs w'; log := log w ++ [Await op] |}).

(** A call whose promise is dropped: a rejection reaches nobody. The
    world afterwards holds what the call does to the file system once it
    has settled; nothing the handlers do after such a call reads it. *)
Definition detach {A} (op : Operation) (m : M A) : M unit :=
  fun w =>
    let '(_, w') := m w in
    (Ok tt, {| fs := fs w'; log := log w ++ [Detached op] |}).

(** [try { m } catch {}]: [None] when [m] threw. *)
Definition catch {A} (m : M A) : M (option A) :=
  fun w =>
    match m w with
    | (Ok a, w') => (Ok (Some a), w')
    | (Throw, w') => (Ok None, w')
    end.

Definition readFileSync (p : string) : M bytes :=
  fun w => (fs_read p (fs w), {| fs := fs w; log := log w ++ [FsRead p] |}).

Definition writeFileSync (p : string) (data : bytes) : M unit :=
  fun w =>
    let '(r, fs') := fs_write p data (fs w) in
    (r, {| fs := fs'; log := log w ++ [FsWrite p] |}).

End Model.

Declare Scope handler_scope.
Delimit Scope handler_scope with handler.
Notation "x <- m ;; k" := (bind m (fun x => k))
  (at level 100, m at next level, right associativity) : handler_scope.
Notation "m ;;; k" := (bind m (fun _ => k))
  (at level 100, right associativity) : handler_scope.

Local Open Scope handler_scope.

(* ===================================================================== *)
(** ** The image cache ([./utils/cache]) *)
(* ===================================================================== *)

Module Cache.
Section Cache.
Context `{PF : Platform} `{IE : ImageEngine}.

(** [interface ImageCache] *)
Record ImageCache := {
  read : string -> M (option Sharp);
  write : string -> Sharp -> M unit;
}.

(** [read] of [makeLocalImageCache]. The variable [image] is assigned
    inside the [try] block, before the metadata pass is awaited: what the
    block leaves in it depends on where the block threw. *)
Definition local_read (cacheDir imageId : string) : M (option Sharp) :=
  (* image = sharp(fs.readFileSync(path.join(cacheDir, imageId))) *)
  assigned <- catch (imageData <- readFileSync (path_join cacheDir imageId) ;;
                     lift (sharp imageData)) ;;
  match assigned with
  | None => ret None
  | Some image =>
      (* await applyTransforms([], image) *)
      attached <- catch (await (OpApplyTransforms [])
                           (lift (applyTransforms [] image None))) ;;
      match attached with
      | Some image' => ret (Some image')
      | None => ret (Some image)
      end
  end.

(** [write] of [makeLocalImageCache] *)
Definition local_write (cacheDir imageId : string) (image : Sharp) : M unit :=
  imageData <- await OpToBuffer (lift (toBuffer image)) ;;
  writeFileSync (path_join cacheDir imageId) imageData.

(** [makeLocalImageCache(root, cacheDir = 'node_modules/.images')].
    Directories are not part of the file system model, so the
    [mkdirSync] of the source leaves no trace here. *)
Definition makeLocalImageCache (root : string) (cacheDir : option string)
  : ImageCache :=
  let cacheDir := path_resolve root (default "node_modules/.images" cacheDir) in
  {| read := local_read cacheDir; write := local_write cacheDir |}.

End Cache.
End Cache.

(* ===================================================================== *)
(** ** src/runtime.ts *)
(* ===================================================================== *)

(** [Endpoint.Request] of [saus/core], as far as [serveImages] uses it. *)
Module Endpoint.

Record Request := {
  path : string;
  searchParams : URLSearchParams.t;
  headers : gmap string string;
}.

(** The request object is mutable: [set] and [sort] change its
    [searchParams] in place, for every later reader of [req]. *)
Definition with_searchParams (req : Request) (p : URLSearchParams.t)
  : Request :=
  {| path := path req; searchParams := p; headers := headers req |}.

End Endpoint.

Module Runtime.

(** [Awaitable<T> = T | PromiseLike<T>]: a plain value, or a promise,
    which resolves to a value or rejects. *)
Inductive Awaitable (A : Type) : Type :=
| Plain (a : A)
| PromiseLike (settled : result A).
Arguments Plain {A} a.
Arguments PromiseLike {A} settled.

(** The truth value of an [Awaitable<boolean>] that has not been awaited:
    every object is truthy. *)
Definition truthy (v : Awaitable bool) : bool :=
  match v with
  | Plain b => b
  | PromiseLike _ => true
  end.

Section Runtime.
Context `{PF : Platform} `{IE : ImageEngine}.
Import Endpoint.

(** Modelled from the spec: [req.toString()] is a method of
    [Endpoint.Request], which [saus/core] defines and the repository does
    not. The specification gives the digest's input as the path, a
    question mark and the query string. *)
Definition Request_toString (req : Request) : string :=
  path req +:+ "?" +:+ params_toString (searchParams req).

(** [options.allow] *)
Inductive AllowOption : Type :=
| AllowedParams (allowedParams : gmap string (list (option string)))
| AllowRequestHook (hook : Request -> result (Awaitable bool)).

(** [options.removeExifData] *)
Inductive RemoveExifData : Type :=
| ExifFlag (b : bool)
| ExifHook (hook : Request -> result bool).

(** [interface ServeOptions]; [headers] is [hook_headers] here, the field
    name being taken by the request. The hooks read the request they are
    given and do not change it. *)
Record ServeOptions := {
  load : Request -> result (option bytes);
  cache : option Cache.ImageCache;
  allow : option AllowOption;
  hook_headers : option (Request -> result (gmap string string));
  transforms : option (list TransformFactory);
  removeExifData : option RemoveExifData;
}.

Definition with_allow (options : ServeOptions) (a : option AllowOption)
  : ServeOptions :=
  {| load := load options; cache := cache options; allow := a;
     hook_headers := hook_headers options; transforms := transforms options;
     removeExifData := removeExifData options |}.

Definition with_cache (options : ServeOptions) (c : option Cache.ImageCache)
  : ServeOptions :=
  {| load := load options; cache := c; allow := allow options;
     hook_headers := hook_headers options; transforms := transforms options;
     removeExifData := removeExifData options |}.

(** [array.includes(x)] *)
Definition includes (x : option string) (l : list (option string)) : bool :=
  bool_decide (x ∈ l).

(** [allowedParams[name]] finds the object's own properties and those it
    inherits. The allow-list is a plain object (an object literal, or
    what [JSON.parse] returns), whose prototype is [Object.prototype]:
    under these names it finds a function, or under [__proto__] the
    prototype itself, when the object has no property of that name of its
    own. *)
Definition object_prototype_names : list string :=
  [ "constructor"; "__defineGetter__"; "__defineSetter__"; "hasOwnProperty";
    "__lookupGetter__"; "__lookupSetter__"; "isPrototypeOf";
    "propertyIsEnumerable"; "toString"; "valueOf"; "__proto__";
    "toLocaleString" ].

Inductive Property : Type :=
| Own (values : list (option string))
| Inherited
| Undefined.

Definition property (allowedParams : gmap string (list (option string)))
    (name : string) : Property :=
  match allowedParams !! name with
  | Some values => Own values
  | None =>
      if bool_decide (name ∈ object_prototype_names) then Inherited
      else Undefined
  end.

(** The first loop of the allow-list check (lines 51-55). An inherited
    property is truthy and has no [includes]: calling it throws a
    [TypeError]. *)
Fixpoint entries_allowed (allowedParams : gmap string (list (option string)))
    (entries : list (string * string)) : result bool :=
  match entries with
  | [] => Ok true
  | (name, value) :: entries' =>
      match property allowedParams name with
      | Undefined => Ok false
      | Inherited => Throw
      | Own values =>
          if negb (includes (Some value) values) then Ok false
          else entries_allowed allowedParams entries'
      end
  end.

(** The second loop (lines 56-63). [for ... in] visits the enumerable
    properties, which those of [Object.prototype] are not; the order in
    which it visits the names does not change what it returns. *)
Definition names_present (allowedParams : gmap string (list (option string)))
    (p : URLSearchParams.t) : bool :=
  forallb
    (fun '(name, values) =>
       negb (negb (includes None values) && negb (URLSearchParams.has name p)))
    (map_to_list allowedParams).

(** The function an allow-list object is replaced by (lines 48-66). *)
Definition allow_list (allowedParams : gmap string (list (option string)))
    (req : Request) : result bool :=
  match
    entries_allowed allowedParams (URLSearchParams.entries (searchParams req))
  with
  | Ok true => Ok (names_present allowedParams (searchParams req))
  | refused => refused
  end.

(** The value tested by [!(allow as AllowRequestHook<Params>)(req)]. *)
Definition call_allow (a : AllowOption) (req : Request) : result bool :=
  match a with
  | AllowedParams allowedParams => allow_list allowedParams req
  | AllowRequestHook hook =>
      match hook req with
      | Ok v => Ok (truthy v)
      | Throw => Throw
      end
  end.

Inductive PassReason : Type :=
| NotAnImage
| Disallowed
| NoSource.

Record Response := {
  status : nat;
  response_headers : gmap string string;
  body : option bytes;
}.

(** How the returned promise settles when it resolves: without a
    response (the request is left to the next handler), or after
    [req.respondWith]. *)
Inductive Outcome : Type :=
| PassThrough (why : PassReason)
| Responded (r : Response).

(** Line 45 *)
Definition factories (options : ServeOptions) : list TransformFactory :=
  builtinTransforms ++ default [] (transforms options).

(** Lines 72-75: the [format] parameter defaults to the extension. *)
Definition default_format (req : Request) : Request :=
  let reqExtension := extname (path req) in
  if URLSearchParams.has "format" (searchParams req) then req
  else with_searchParams req
         (URLSearchParams.set "format" (JsString.slice_from 1 reqExtension)
            (searchParams req)).

(** Line 81 *)
Definition sort_params (req : Request) : Request :=
  with_searchParams req (URLSearchParams.sort (searchParams req)).

(** Lines 88-93 *)
Definition imageId (req : Request) : string :=
  let reqExtension := extname (path req) in
  basename (path req) reqExtension
  +:+ "."
  +:+ JsString.slice_to 8 (md5Hex (Request_toString req))
  +:+ "."
  +:+ JsString.or_null (URLSearchParams.get "format" (searchParams req)).

(** Lines 101-119: the image is loaded and transformed, and the cache
    write is started. The promise of [cache.write] is dropped. *)
Definition fresh_image (options : ServeOptions) (req : Request)
    (imageConfig : option ImageConfig) (imageId : string)
  : M (Outcome + Sharp) :=
  imageData <- await OpLoad (lift (load options req)) ;;
  match imageData with
  | None => ret (inl (PassThrough NoSource))
  | Some imageData =>
      image <- lift (sharp imageData) ;;
      image <-
        match imageConfig with
        | Some imageConfig =>
            removeExif <-
              match removeExifData options with
              | Some (ExifHook hook) => await OpHook (lift (hook req))
              | Some (ExifFlag b) => ret b
              | None => ret false
              end ;;
            let transforms := generateTransforms imageConfig (factories options) in
            await (OpApplyTransforms transforms)
              (lift (applyTransforms transforms image (Some removeExif)))
        | None =>
            (* Ensure metadata is attached. *)
            await (OpApplyTransforms [])
              (lift (applyTransforms [] image None))
        end ;;
      match cache options with
      | Some c => detach (OpCacheWrite imageId) (Cache.write c imageId image)
      | None => ret tt
      end ;;;
      ret (inr image)
  end.

(** Lines 122-138 *)
Definition respond (options : ServeOptions) (req : Request) (image : Sharp)
  : M Outcome :=
  imageBuffer <- await OpToBuffer (lift (toBuffer image)) ;;
  let etagHeader := etag imageBuffer in
  if bool_decide (headers req !! "if-none-match" = Some etagHeader)
  then
    emit (RespondWith 304) ;;;
    ret (Responded {| status := 304; response_headers := ∅; body := None |})
  else
    let headers : gmap string string :=
      {[ "Content-Type" :=
           "image/" +:+ JsString.or_undefined (getMetadata image "format");
         "Cache-Control" := "max-age=360000";
         "ETag" := etagHeader ]} in
    headers <-
      match hook_headers options with
      | Some hook =>
          assigned <- await OpHook (lift (hook req)) ;;
          (* Object.assign(headers, assigned) *)
          ret (assigned ∪ headers)
      | None => ret headers
      end ;;
    emit (RespondWith 200) ;;;
    ret (Responded {| status := 200; response_headers := headers;
                      body := Some imageBuffer |}).

(** The function [serveImages(options)] returns (lines 68-139). *)
Definition serveImages (options : ServeOptions) (req : Request) : M Outcome :=
  if negb (isImage (path req)) then ret (PassThrough NotAnImage)
  else
    let req := default_format req in
    allowed <-
      match allow options with
      | Some a => lift (call_allow a req)
      | None => ret true
      end ;;
    if negb allowed then ret (PassThrough Disallowed)
    else
      (* Sort the search params to ensure a stable hash. *)
      let req := sort_params req in
      let imageConfig := resolveConfigs (searchParams req) in
      let imageId := imageId req in
      cachedImage <-
        match cache options with
        | Some c => await (OpCacheRead imageId) (Cache.read c imageId)
        | None => ret None
        end ;;
      obtained <-
        match cachedImage with
        | Some image => ret (inr image)
        | None => fresh_image options req imageConfig imageId
        end ;;
      match obtained with
      | inl outcome => ret outcome
      | inr image => respond options req image
      end.

End Runtime.
End Runtime.

(* ===================================================================== *)
(** ** src/plugin.ts *)
(* ===================================================================== *)

Module Plugin.
Section Plugin.
Context `{PF : Platform} `{IE : ImageEngine}.

(** The request and the server configuration, as far as the middleware
    reads them. *)
Record IncomingMessage := {
  url : string;
  headers : gmap string string;
}.

Record ResolvedConfig := {
  root : string;
  publicDir : string;
}.

(** [options.cacheDir]: a directory, or [false]. *)
Inductive CacheDirOption : Type :=
| CacheDirFalse
| CacheDirPath (dir : string).

(** [options.removeExifData] *)
Inductive RemoveExifData : Type :=
| ExifFlag (b : bool)
| ExifHook (hook : string -> URLSearchParams.t -> result bool).

(** [options.devHeaders] *)
Inductive DevHeaders : Type :=
| StaticHeaders (h : gmap string string)
| HeadersHook (hook : string -> URLSearchParams.t -> result (gmap string string)).

(** [interface Options] *)
Record Options := {
  load : option (string -> URLSearchParams.t -> result (option bytes));
  cacheDir : option CacheDirOption;
  removeExifData : option RemoveExifData;
  devHeaders : option DevHeaders;
}.

(** What is piped into the response is the image handle. *)
Record Response := {
  status : nat;
  response_headers : gmap string string;
  piped : Sharp;
}.

Inductive Outcome : Type :=
| Next
| Responded (r : Response).

(** Lines 67-72: the cache directory [configureServer] resolves;
    [None] stands for [false]. A resolved path is not the empty string,
    so [if (cacheDir)] asks whether there is one. *)
Definition resolved_cacheDir (options : Options) (config : ResolvedConfig)
  : option string :=
  match cacheDir options with
  | Some CacheDirFalse => None
  | Some (CacheDirPath dir) =>
      Some (path_resolve (root config)
              (if String.eqb dir "" then "node_modules/.images" else dir))
  | None => Some (path_resolve (root config) "node_modules/.images")
  end.

(** [readImage(config, uri)] (lines 175-188) *)
Definition readImage (config : ResolvedConfig) (uri : string)
  : M (option bytes) :=
  fromPublic <-
    (if negb (String.eqb (publicDir config) "")
     then
       let publicDir := path_resolve (root config) (publicDir config) in
       let publicFile := path_join publicDir uri in
       catch (readFileSync publicFile)
     else ret None) ;;
  match fromPublic with
  | Some data => ret (Some data)
  | None =>
      let srcFile := path_join (root config) uri in
      catch (readFileSync srcFile)
  end.

(** Lines 84-91 *)
Definition normalize (uri query : string) : URLSearchParams.t :=
  let uriExtension := extname uri in
  let params := parse_query query in
  let params :=
    if URLSearchParams.has "format" params then params
    else URLSearchParams.set "format" (JsString.slice_from 1 uriExtension)
           params in
  (* Sort the search params to keep the URI hash stable. *)
  URLSearchParams.sort params.

(** Lines 101-106 *)
Definition imageId (uri : string) (params : URLSearchParams.t) : string :=
  let uriExtension := extname uri in
  basename uri uriExtension
  +:+ "."
  +:+ JsString.slice_to 8 (md5Hex (uri +:+ "?" +:+ params_toString params))
  +:+ "."
  +:+ JsString.or_null (URLSearchParams.get "format" params).

(** Lines 108-114: the cached image, read inside [try { } catch {}] *)
Definition cached_image (cacheDir imageId : string) : M (option Sharp) :=
  assigned <- catch (imageData <- readFileSync (path_join cacheDir imageId) ;;
                     lift (sharp imageData)) ;;
  match assigned with
  | None => ret None
  | Some image =>
      (* Ensure metadata is attached. *)
      attached <- catch (await (OpApplyTransforms [])
                           (lift (applyTransforms [] image None))) ;;
      match attached with
      | Some image' => ret (Some image')
      | None => ret (Some image)
      end
  end.

(** Lines 116-156 *)
Definition fresh_image (options : Options) (config : ResolvedConfig)
    (cacheDir : option string) (uri : string) (params : URLSearchParams.t)
    (imageConfig : ImageConfig) (imageId : string) : M (Outcome + Sharp) :=
  (* loadImage = options.load || noop *)
  imageData <-
    await OpLoad
      (lift (match load options with
             | Some loadImage => loadImage uri params
             | None => Ok None
             end)) ;;
  imageData <-
    match imageData with
    | Some data => ret (Some data)
    | None => readImage config uri
    end ;;
  match imageData with
  | None => ret (inl Next)
  | Some imageData =>
      image <- lift (sharp imageData) ;;
      removeExif <-
        match removeExifData options with
        | Some (ExifHook hook) => await OpHook (lift (hook uri params))
        | Some (ExifFlag b) => ret b
        | None => ret false
        end ;;
      let transforms := generateTransforms imageConfig builtinTransforms in
      image <- await (OpApplyTransforms transforms)
                 (lift (applyTransforms transforms image (Some removeExif))) ;;
      match cacheDir with
      | Some cacheDir =>
          imageData <- await OpToBuffer (lift (toBuffer image)) ;;
          writeFileSync (path_join cacheDir imageId) imageData
      | None => ret tt
      end ;;;
      ret (inr image)
  end.

(** Lines 158-169 *)
Definition respond (options : Options) (uri : string)
    (params : URLSearchParams.t) (image : Sharp) : M Outcome :=
  headers <-
    match devHeaders options with
    | Some (HeadersHook hook) => await OpHook (lift (hook uri params))
    | Some (StaticHeaders h) => ret h
    | None => ret ∅
    end ;;
  emit (WriteHead 200) ;;;
  emit Pipe ;;;
  ret (Responded
         {| status := 200;
            response_headers :=
              headers ∪
              {[ "Content-Type" :=
                   "image/" +:+ JsString.or_undefined (getMetadata image "format");
                 "Cache-Control" := "max-age=360000" ]};
            piped := image |}).

(** The middleware [configureServer] installs (lines 78-170). *)
Definition middleware (options : Options) (config : ResolvedConfig)
    (req : IncomingMessage) : M Outcome :=
  let cacheDir := resolved_cacheDir options config in
  let '(uri, query) := JsString.split_query (url req) in
  if negb (isImage uri) then ret Next
  else
    match query with
    | None => ret Next
    | Some query =>
        let params := normalize uri query in
        match resolveConfigs params with
        | None => ret Next
        | Some imageConfig =>
            let imageId := imageId uri params in
            image <-
              match cacheDir with
              | Some cacheDir => cached_image cacheDir imageId
              | None => ret None
              end ;;
            obtained <-
              match image with
              | Some image => ret (inr image)
              | None =>
                  fresh_image options config cacheDir uri params
                    imageConfig imageId
              end ;;
            match obtained with
            | inl outcome => ret outcome
            | inr image => respond options uri params image
            end
        end
    end.

End Plugin.
End Plugin.

(* ===================================================================== *)
(** ** src/utils/readImage.ts *)
(* ===================================================================== *)

Module Utils.
Section Utils.
Context `{PF : Platform} `{IE : ImageEngine}.

(** [readImage(uri, rootDir, publicDir?)]. [path.resolve] takes its
    segments from left to right, so the call with three segments is the
    call with two on the result of the first two. *)
Definition readImage (uri rootDir : string) (publicDir : option string)
  : M (option bytes) :=
  fromPublic <-
    (match publicDir with
     | Some publicDir =>
         if negb (String.eqb publicDir "")
         then
           let publicFile := path_resolve (path_resolve rootDir publicDir) uri in
           catch (readFileSync publicFile)
         else ret None
     | None => ret None
     end) ;;
  match fromPublic with
  | Some data => ret (Some data)
  | None =>
      let srcFile := path_join rootDir uri in
      catch (readFileSync srcFile)
  end.

End Utils.
End Utils.

(* ===================================================================== *)
(** ** A reference platform and a small image engine *)
(* ===================================================================== *)

(** Instances of [Platform] and [ImageEngine] on which the handlers can be
    run. The path functions follow Node's POSIX ones ([path_resolve] on
    an absolute first or second segment; the extension given to
    [basename] is [extname] of the same path); the query string functions
    follow the URL standard's [application/x-www-form-urlencoded] parser
    and serialiser on bytes. *)

Module Reference.

Definition chars (s : string) : list ascii := String.list_ascii_of_string s.
Definition str (l : list ascii) : string := String.string_of_list_ascii l.

Definition slash : ascii := "/".
Definition dot : ascii := ".".
Definition is_slash (c : ascii) : bool := Ascii.eqb c slash.
Definition not_slash (c : ascii) : bool := negb (Ascii.eqb c slash).
Definition not_dot (c : ascii) : bool := negb (Ascii.eqb c dot).

Fixpoint drop_while {A} (f : A -> bool) (l : list A) : list A :=
  match l with
  | [] => []
  | x :: l' => if f x then drop_while f l' else l
  end.

Fixpoint take_while {A} (f : A -> bool) (l : list A) : list A :=
  match l with
  | [] => []
  | x :: l' => if f x then x :: take_while f l' else []
  end.

(** The last component of a path, trailing slashes apart, reversed. *)
Definition last_component_rev (p : string) : list ascii :=
  take_while not_slash (drop_while is_slash (rev (chars p))).

Definition extname (p : string) : string :=
  let b := last_component_rev p in
  let suffix := take_while not_dot b in
  if length suffix =? length b then ""              (* no dot *)
  else if S (length suffix) =? length b then ""     (* only a leading dot *)
  else if String.eqb (str (rev b)) ".." then ""
  else str (dot :: rev suffix).

Definition ends_with (b ext : string) : bool :=
  let n := String.length b - String.length ext in
  (String.length ext <=? String.length b)
  && String.eqb (String.substring n (String.length ext) b) ext.

Definition basename (p ext : string) : string :=
  let b := str (rev (last_component_rev p)) in
  if String.eqb ext "" then b
  else if String.eqb ext p then ""
  else if String.eqb ext b then b
  else if ends_with b ext
       then String.substring 0 (String.length b - String.length ext) b
       else b.

Fixpoint split_on (sep : ascii) (s : string) : list string :=
  match s with
  | EmptyString => [EmptyString]
  | String c s' =>
      let pieces := split_on sep s' in
      if Ascii.eqb c sep then EmptyString :: pieces
      else match pieces with
           | piece :: pieces' => String c piece :: pieces'
           | [] => [String c EmptyString]
           end
  end.

(** [normalizeString]: empty segments and [.] are dropped, and [..]
    takes the segment before it away; above the start of a relative path
    it stays, above the root it is dropped. [kept] holds the segments
    kept so far, the last one first. *)
Fixpoint normalize_segments (allowAboveRoot : bool) (segments kept : list string)
  : list string :=
  match segments with
  | [] => rev kept
  | segment :: segments' =>
      if String.eqb segment "" || String.eqb segment "."
      then normalize_segments allowAboveRoot segments' kept
      else if String.eqb segment ".."
      then
        match kept with
        | last :: kept' =>
            if String.eqb last ".."
            then normalize_segments allowAboveRoot segments' (".." :: kept)
            else normalize_segments allowAboveRoot segments' kept'
        | [] =>
            normalize_segments allowAboveRoot segments'
              (if allowAboveRoot then [".."] else [])
        end
      else normalize_segments allowAboveRoot segments' (segment :: kept)
  end.

Definition is_absolute (p : string) : bool := String.prefix "/" p.

Definition has_trailing_slash (p : string) : bool :=
  match rev (chars p) with
  | c :: _ => is_slash c
  | [] => false
  end.

Definition normalize_string (allowAboveRoot : bool) (p : string) : string :=
  String.concat "/" (normalize_segments allowAboveRoot (split_on slash p) []).

(** [path.normalize(p)] *)
Definition path_normalize (p : string) : string :=
  if String.eqb p "" then "."
  else
    let normalized := normalize_string (negb (is_absolute p)) p in
    if String.eqb normalized ""
    then (if is_absolute p then "/"
          else if has_trailing_slash p then "./" else ".")
    else
      (if is_absolute p then "/" else "")
      +:+ normalized
      +:+ (if has_trailing_slash p then "/" else "").

(** [path.join(a, b)]: the segments that are not empty, joined by a
    slash and normalised. *)
Definition path_join (a b : string) : string :=
  if String.eqb a "" then path_normalize b
  else if String.eqb b "" then path_normalize a
  else path_normalize (a +:+ "/" +:+ b).

(** [path.resolve(a, b)]: [b] when it is absolute, else [b] under [a],
    normalised and without a trailing slash. When neither is absolute
    Node resolves against the working directory, which the model does not
    have: the path stays relative. *)
Definition path_resolve (a b : string) : string :=
  let p := if is_absolute b then b
           else if String.eqb b "" then a
           else a +:+ "/" +:+ b in
  let normalized := normalize_string (negb (is_absolute p)) p in
  if is_absolute p then "/" +:+ normalized
  else if String.eqb normalized "" then "." else normalized.

Definition lower (c : ascii) : ascii :=
  let n := nat_of_ascii c in
  if (65 <=? n) && (n <=? 90) then ascii_of_nat (n + 32) else c.

(** Some of the extensions [is-image] knows. *)
Definition image_extensions : list string :=
  [ "png"; "jpg"; "jpeg"; "gif"; "webp"; "svg"; "bmp"; "ico"; "tiff";
    "tif"; "heic"; "heif" ].

Definition isImage (p : string) : bool :=
  bool_decide
    (str (map lower (chars (JsString.slice_from 1 (extname p))))
       ∈ image_extensions).

(** *** The query string *)

Fixpoint split_first (sep : ascii) (s : string) : string * string :=
  match s with
  | EmptyString => (EmptyString, EmptyString)
  | String c s' =>
      if Ascii.eqb c sep then (EmptyString, s')
      else let '(a, b) := split_first sep s' in (String c a, b)
  end.

Definition hex_value (c : ascii) : option nat :=
  let n := nat_of_ascii c in
  if (48 <=? n) && (n <=? 57) then Some (n - 48)
  else if (65 <=? n) && (n <=? 70) then Some (n - 55)
  else if (97 <=? n) && (n <=? 102) then Some (n - 87)
  else None.

(** Percent-decoding, after [+] has become a space. *)
Fixpoint percent_decode (l : list ascii) : list ascii :=
  match l with
  | [] => []
  | c :: l' =>
      let plain :=
        (if Ascii.eqb c "+" then " "%char else c) :: percent_decode l' in
      match l' with
      | h :: lo :: rest =>
          if Ascii.eqb c "%" then
            match hex_value h, hex_value lo with
            | Some x, Some y => ascii_of_nat (16 * x + y) :: percent_decode rest
            | _, _ => plain
            end
          else plain
      | _ => plain
      end
  end.

Definition decode (s : string) : string := str (percent_decode (chars s)).

Definition parse_query (query : string) : URLSearchParams.t :=
  let query :=
    if String.prefix "?" query then JsString.slice_from 1 query else query in
  map (fun piece => let '(name, value) := split_first "=" piece in
                    (decode name, decode value))
    (List.filter (fun piece => negb (String.eqb piece "")) (split_on "&" query)).

Definition upper_hex_digit (n : nat) : ascii :=
  nth n (chars "0123456789ABCDEF") "0"%char.

Definition unreserved (c : ascii) : bool :=
  let n := nat_of_ascii c in
  (48 <=? n) && (n <=? 57) || (65 <=? n) && (n <=? 90)
  || (97 <=? n) && (n <=? 122)
  || Ascii.eqb c "*" || Ascii.eqb c "-" || Ascii.eqb c "." || Ascii.eqb c "_".

Definition encode_char (c : ascii) : list ascii :=
  if unreserved c then [c]
  else if Ascii.eqb c " " then ["+"%char]
  else let n := nat_of_ascii c in
       ["%"%char; upper_hex_digit (n / 16); upper_hex_digit (n mod 16)].

Definition encode (s : string) : string :=
  str (concat (map encode_char (chars s))).

Fixpoint params_toString (p : URLSearchParams.t) : string :=
  match p with
  | [] => ""
  | [(name, value)] => encode name +:+ "=" +:+ encode value
  | (name, value) :: p' =>
      encode name +:+ "=" +:+ encode value +:+ "&" +:+ params_toString p'
  end.

(** A stand-in for the [etag] package, which hashes with SHA-1: a weak
    validator made of the length and a digest of the bytes. *)
Definition quote : string := String (ascii_of_nat 34) EmptyString.

Definition etag (buffer : bytes) : string :=
  "W/" +:+ quote
  +:+ MD5.hex [(Z.of_nat (length buffer) mod 256)%Z]
  +:+ "-" +:+ MD5.md5Hex (String.string_of_list_byte buffer)
  +:+ quote.

#[export] Instance platform : Platform :=
  Build_Platform isImage extname basename path_join path_resolve
    MD5.md5Hex parse_query params_toString etag.

(** *** The image engine

    An image file is a format tag, a width, a height and the pixels. It
    decodes when the tag is known and the three bytes are there. The
    only transformation re-encodes into another format. As in
    [imagetools-core], the [format] directive accepts [jpg] beside
    [jpeg] and records the name it was given in the metadata, while the
    decoder reports [jpeg] for the bytes either name produces. *)

Definition format_of_tag (tag : Byte.byte) : option string :=
  match tag with
  | Byte.x50 => Some "png"
  | Byte.x57 => Some "webp"
  | Byte.x4a => Some "jpeg"
  | Byte.x47 => Some "gif"
  | _ => None
  end.

Definition tag_of_format (format : string) : option Byte.byte :=
  if String.eqb format "png" then Some Byte.x50
  else if String.eqb format "webp" then Some Byte.x57
  else if String.eqb format "jpeg" then Some Byte.x4a
  else if String.eqb format "jpg" then Some Byte.x4a
  else if String.eqb format "gif" then Some Byte.x47
  else None.

Record Metadata := {
  format : string;
  width : Byte.byte;
  height : Byte.byte;
}.

Record Handle := {
  input : bytes;
  toFormat : option string;
  attached : option Metadata;
}.

Inductive Transformation : Type :=
| Reencode (format : string).

(** [image.metadata()] *)
Definition metadata (image : Handle) : result Metadata :=
  match input image with
  | tag :: w :: h :: _ =>
      match format_of_tag tag with
      | Some f => Ok {| format := f; width := w; height := h |}
      | None => Throw
      end
  | _ => Throw
  end.

(** [sharp(buffer)] throws on an empty buffer and decodes nothing yet. *)
Definition sharp (buffer : bytes) : result Handle :=
  match buffer with
  | [] => Throw
  | _ => Ok {| input := buffer; toFormat := None; attached := None |}
  end.

Definition transform (image : Handle) (t : Transformation) : Handle :=
  match t, attached image with
  | Reencode f, Some m =>
      {| input := input image; toFormat := Some f;
         attached := Some {| format := f; width := width m; height := height m |} |}
  | Reencode f, None =>
      {| input := input image; toFormat := Some f; attached := None |}
  end.

Definition applyTransforms (transforms : list Transformation)
    (image : Handle) (removeMetadata : option bool) : result Handle :=
  match metadata image with
  | Throw => Throw
  | Ok m =>
      Ok (fold_left transform transforms
            {| input := input image; toFormat := toFormat image;
               attached := Some m |})
  end.

Definition toBuffer (image : Handle) : result bytes :=
  match metadata image with
  | Throw => Throw
  | Ok m =>
      match tag_of_format (default (format m) (toFormat image)) with
      | Some tag => Ok (tag :: drop 1 (input image))
      | None => Throw
      end
  end.

Definition byte_string (b : Byte.byte) : string :=
  String (ascii_of_byte b) EmptyString.

Definition getMetadata (image : Handle) (key : string) : option string :=
  match attached image with
  | None => None
  | Some m =>
      if String.eqb key "format" then Some (format m)
      else if String.eqb key "width" then Some (byte_string (width m))
      else if String.eqb key "height" then Some (byte_string (height m))
      else None
  end.

(** A configuration is the object [Object.fromEntries] makes of the
    entries: of two entries with one name the later one counts. As in
    [imagetools-core], [resolveConfigs] returns a configuration for every
    list of entries, whether it recognises a directive in it or not (a
    value is taken whole here: one parameter does not list several
    values). *)
Definition Config : Type := list (string * string).

Definition config_get (key : string) (config : Config) : option string :=
  URLSearchParams.get key (rev config).

Definition resolveConfigs (params : URLSearchParams.t) : option Config :=
  Some params.

(** A transform factory looks at the configuration and returns a
    transformation, or nothing when its directive is not there or has a
    value it does not recognise. *)
Definition Factory : Type := Config -> option Transformation.

(** The formats the [format] directive accepts, of those this engine
    writes. *)
Definition format_values : list string := [ "jpg"; "jpeg"; "png"; "webp" ].

Definition format_factory : Factory :=
  fun config =>
    match config_get "format" config with
    | Some f =>
        if bool_decide (f ∈ format_values) then Some (Reencode f) else None
    | None => None
    end.

Definition generateTransforms (config : Config) (factories : list Factory)
  : list Transformation :=
  omap (fun factory => factory config) factories.

#[export] Instance engine : ImageEngine :=
  Build_ImageEngine Handle Config Factory Transformation [format_factory]
    resolveConfigs generateTransforms sharp applyTransforms toBuffer
    getMetadata.

End Reference.


(* ===================================================================== *)
(** ** The specification's words *)
(* ===================================================================== *)

(** Definitions that follow the specification, to compare the handlers
    with. *)

Module Spec.
Section Spec.
Context `{PF : Platform} `{IE : ImageEngine}.
Import URLSearchParams.

(** Sorted by key: JavaScript orders strings code unit by code unit, and
    a string before those it is a proper prefix of. *)
Inductive units_le : list N -> list N -> Prop :=
| units_le_nil b : units_le [] b
| units_le_lt x a y b : (x < y)%N -> units_le (x :: a) (y :: b)
| units_le_eq x a b : units_le a b -> units_le (x :: a) (x :: b).

Definition by_name (a b : string * string) : Prop :=
  units_le (JsString.code_units (fst a)) (JsString.code_units (fst b)).

(** "Equal parameter sets modulo ordering", read so that the values of a
    repeated key keep their order: under every name the two lists hold
    the same pairs in the same order. *)
Definition same_values_per_name (p1 p2 : t) : Prop :=
  ∀ k, List.filter (name_is k) p1 = List.filter (name_is k) p2.

(** 4.1: "If no explicit format parameter is present, defaults it to the
    source file's extension (without the leading dot)." *)
Definition resolved_format (path : string) (params : t) : string :=
  match get "format" params with
  | Some format => format
  | None => JsString.slice_from 1 (extname path)
  end.

(** 4.1: the parameters with the default in place, sorted. *)
Definition canonical_params (path : string) (params : t) : t :=
  sort (if has "format" params then params
        else params ++ [("format", JsString.slice_from 1 (extname path))]).

Definition canonical_query (path : string) (params : t) : string :=
  params_toString (canonical_params path params).

(** 3: "basename(path without extension) + . + first 8 hex characters of
    a cryptographic digest of (path + ? + canonical query string) + . +
    resolved output format" *)
Definition cache_entry_identifier (path : string) (params : t) : string :=
  basename path (extname path)
  +:+ "."
  +:+ JsString.slice_to 8 (md5Hex (path +:+ "?" +:+ canonical_query path params))
  +:+ "."
  +:+ resolved_format path params.

(** 3 and 4.1 once more, as relations that say what the words ask of
    the result, without saying how it is computed. *)

(** "the first [n] characters of [s]" *)
Definition first_characters (n : nat) (h s : string) : Prop :=
  String.length h = Nat.min n (String.length s) ∧ ∃ rest, s = h +:+ rest.

(** "without the leading dot": without its first character, if any. *)
Definition without_first_character (s s' : string) : Prop :=
  (s = "" ∧ s' = "") ∨ ∃ c, s = String c s'.

(** No parameter has this name; [v] is the value of the first that
    has. *)
Definition absent (name : string) (params : t) : Prop :=
  ∀ v, (name, v) ∉ params.

Definition first_value (name : string) (params : t) (v : string) : Prop :=
  ∃ before after,
    params = before ++ (name, v) :: after ∧ absent name before.

(** The explicit format parameter, or the extension without its dot. *)
Definition is_resolved_format (path : string) (params : t) (format : string)
  : Prop :=
  first_value "format" params format
  ∨ (absent "format" params ∧ without_first_character (extname path) format).

(** The parameters with the default in place, sorted by key, the values
    of a repeated key in their order. *)
Definition is_canonical (path : string) (params q : t) : Prop :=
  ∃ defaulted,
    ((¬ absent "format" params ∧ defaulted = params)
     ∨ (absent "format" params
        ∧ ∃ format, without_first_character (extname path) format
                    ∧ defaulted = params ++ [("format", format)]))
    ∧ StronglySorted by_name q
    ∧ q ≡ₚ defaulted
    ∧ same_values_per_name q defaulted.

Definition is_cache_entry_identifier (path : string) (params : t)
    (id : string) : Prop :=
  ∃ q digest8 format,
    is_canonical path params q
    ∧ first_characters 8 digest8
        (md5Hex (path +:+ "?" +:+ params_toString q))
    ∧ is_resolved_format path params format
    ∧ id = basename path (extname path) +:+ "." +:+ digest8 +:+ "."
           +:+ format.

(** 8: the metadata the cache-aside property compares. *)
Definition same_metadata (a b : Sharp) : Prop :=
  getMetadata a "format" = getMetadata b "format"
  ∧ getMetadata a "width" = getMetadata b "width"
  ∧ getMetadata a "height" = getMetadata b "height".

(** A check of [same_values_per_name] that computes: only the names
    that occur need looking at. *)
Definition same_values_per_name_b (p1 p2 : t) : bool :=
  forallb
    (λ k, bool_decide (List.filter (name_is k) p1 = List.filter (name_is k) p2))
    (map fst (p1 ++ p2)).

(** 4.6: the headers the endpoint computes, and those [options.headers]
    assigns over them ("caller overrides win on key collision"). *)
Definition computed_headers (image : Sharp) (imageBuffer : bytes)
  : gmap string string :=
  {[ "Content-Type" :=
       "image/" +:+ JsString.or_undefined (getMetadata image "format");
     "Cache-Control" := "max-age=360000";
     "ETag" := etag imageBuffer ]}.

Definition assigned_headers (options : Runtime.ServeOptions)
    (req : Endpoint.Request) : result (gmap string string) :=
  match Runtime.hook_headers options with
  | Some hook => hook (Runtime.sort_params (Runtime.default_format req))
  | None => Ok ∅
  end.

(** The request is not turned away by [options.allow]. *)
Definition passes_allow (options : Runtime.ServeOptions)
    (req : Endpoint.Request) : Prop :=
  match Runtime.allow options with
  | Some a => Runtime.call_allow a (Runtime.default_format req) = Ok true
  | None => True
  end.

(** 4.4 to 4.6: the image a request is answered with, in world [w]: the
    image the cache returns under the request's identifier, or, when
    there is no cache or it returns none, the image the transformations
    of the request's configuration make of the loaded source. *)
Definition remove_exif (options : Runtime.ServeOptions)
    (req : Endpoint.Request) : result bool :=
  match Runtime.removeExifData options with
  | Some (Runtime.ExifHook hook) => hook req
  | Some (Runtime.ExifFlag b) => Ok b
  | None => Ok false
  end.

Definition transformed_source (options : Runtime.ServeOptions)
    (req : Endpoint.Request) (image : Sharp) : Prop :=
  ∃ imageData source,
    Runtime.load options req = Ok (Some imageData)
    ∧ sharp imageData = Ok source
    ∧ match resolveConfigs (Endpoint.searchParams req) with
      | Some imageConfig =>
          ∃ removeExif,
            remove_exif options req = Ok removeExif
            ∧ applyTransforms
                (generateTransforms imageConfig
                   (builtinTransforms ++ default [] (Runtime.transforms options)))
                source (Some removeExif) = Ok image
      | None => applyTransforms [] source None = Ok image
      end.

Definition served_image (options : Runtime.ServeOptions)
    (req : Endpoint.Request) (w : World) (image : Sharp) : Prop :=
  let id := cache_entry_identifier (Endpoint.path req)
              (Endpoint.searchParams req) in
  match Runtime.cache options with
  | Some c =>
      fst (Cache.read c id w) = Ok (Some image)
      ∨ (fst (Cache.read c id w) = Ok None
         ∧ transformed_source options
             (Runtime.sort_params (Runtime.default_format req)) image)
  | None =>
      transformed_source options
        (Runtime.sort_params (Runtime.default_format req)) image
  end.

(** What a handler logs when it starts in a world with an empty log. *)
Definition trace_of {A} (m : M A) (f : FileSystem) : list Event :=
  log (snd (m {| fs := f; log := [] |})).

Definition outcome_of {A} (m : M A) (f : FileSystem) : result A :=
  fst (m {| fs := f; log := [] |}).

Definition disk_after {A} (m : M A) (f : FileSystem) : FileSystem :=
  fs (snd (m {| fs := f; log := [] |})).

Definition files_after {A} (m : M A) (f : FileSystem) : gmap string bytes :=
  files (disk_after m f).

End Spec.
End Spec.

(* ===================================================================== *)
(** ** Requests, options and disks *)
(* ===================================================================== *)

(** Concrete inputs on the reference platform and engine. *)

Module Scenario.
#[local] Existing Instance Reference.platform.
#[local] Existing Instance Reference.engine.

(** A 2 by 3 PNG with one pixel byte, and its WebP encoding. *)
Definition photo_png : bytes := [Byte.x50; Byte.x02; Byte.x03; Byte.x2a].
Definition photo_webp : bytes := [Byte.x57; Byte.x02; Byte.x03; Byte.x2a].
Definition photo_gif : bytes := [Byte.x47; Byte.x02; Byte.x03; Byte.x2a].

(** Bytes that are no image. *)
Definition garbage : bytes := [Byte.x00].

Definition empty_disk : FileSystem := {| files := ∅; writable := true; torn := None |}.
Definition full_disk : FileSystem :=
  {| files := ∅; writable := false; torn := None |}.


Definition cache_root : string := "/srv".
Definition local_cache : Cache.ImageCache :=
  Cache.makeLocalImageCache cache_root None.

(** [serveImages] *)
Definition serve_options (c : option Cache.ImageCache)
    (hook : option (Endpoint.Request → result (gmap string string)))
  : Runtime.ServeOptions :=
  {| Runtime.load := λ req,
       Ok (if String.eqb (Endpoint.path req) "/anim.gif" then Some photo_gif
           else Some photo_png);
     Runtime.cache := c;
     Runtime.allow := None;
     Runtime.hook_headers := hook;
     Runtime.transforms := None;
     Runtime.removeExifData := None |}.

Definition request (path : string) (params : URLSearchParams.t)
    (headers : gmap string string) : Endpoint.Request :=
  {| Endpoint.path := path; Endpoint.searchParams := params;
     Endpoint.headers := headers |}.

Definition photo_request : Endpoint.Request :=
  request "/photo.png" [("w", "200"); ("format", "webp")] ∅.

Definition custom_etag (req : Endpoint.Request)
  : result (gmap string string) :=
  Ok {[ "ETag" := "custom" ]}.

(** The dev-server middleware *)
Definition dev_config : Plugin.ResolvedConfig :=
  {| Plugin.root := "/srv"; Plugin.publicDir := "public" |}.

Definition dev_options (dir : option Plugin.CacheDirOption) : Plugin.Options :=
  {| Plugin.load := Some (λ uri params,
       Ok (if String.eqb uri "/anim.gif" then Some photo_gif
           else Some photo_png));
     Plugin.cacheDir := dir;
     Plugin.removeExifData := None;
     Plugin.devHeaders := None |}.

Definition dev_request (url : string) (headers : gmap string string)
  : Plugin.IncomingMessage :=
  {| Plugin.url := url; Plugin.headers := headers |}.

(** The cache entry of [photo_request], and a disk on which it holds
    bytes that do not decode. *)
Definition photo_entry : string :=
  "/srv/node_modules/.images/photo.e2e83ba6.webp".

(** A disk that holds the cache entry of [photo_request]. *)
Definition cached_disk : FileSystem :=
  {| files := {[ photo_entry := photo_webp ]}; writable := true; torn := None |}.

(** The same disk when it cannot be written: no file can be opened for
    writing. *)
Definition read_only (disk : FileSystem) : FileSystem :=
  {| files := files disk; writable := false; torn := None |}.

(** A disk that holds that entry, on which a file can be opened for
    writing and nothing can be written to it. *)
Definition failing_disk : FileSystem :=
  {| files := {[ photo_entry := photo_webp ]}; writable := false;
     torn := Some 0 |}.

Definition corrupt_disk : FileSystem :=
  {| files := {[ photo_entry := garbage ]}; writable := true; torn := None |}.

Definition garbage_handle : Sharp :=
  {| Reference.input := garbage; Reference.toFormat := None;
     Reference.attached := None |}.

(** The image [serveImages] computes for [photo_request]. *)
Definition photo_as_webp : Sharp :=
  {| Reference.input := photo_png; Reference.toFormat := Some "webp";
     Reference.attached :=
       Some {| Reference.format := "webp"; Reference.width := Byte.x02;
               Reference.height := Byte.x03 |} |}.

(** The image the handlers compute for [/photo.png?format=jpg]. *)
Definition photo_as_jpg : Sharp :=
  {| Reference.input := photo_png; Reference.toFormat := Some "jpg";
     Reference.attached :=
       Some {| Reference.format := "jpg"; Reference.width := Byte.x02;
               Reference.height := Byte.x03 |} |}.

(** The source of [/anim.gif], before and after the metadata pass. *)
Definition anim_handle : Sharp :=
  {| Reference.input := photo_gif; Reference.toFormat := None;
     Reference.attached := None |}.

Definition anim_with_metadata : Sharp :=
  {| Reference.input := photo_gif; Reference.toFormat := None;
     Reference.attached :=
       Some {| Reference.format := "gif"; Reference.width := Byte.x02;
               Reference.height := Byte.x03 |} |}.

(** An allow-list that names the width only. *)
Definition width_only : gmap string (list (option string)) :=
  {[ "w" := [Some "100"] ]}.

End Scenario.

(** ** More inputs to run the handlers on *)

Module Fixtures.
Import Scenario.
#[local] Existing Instance Reference.platform.
#[local] Existing Instance Reference.engine.

(** The response of a run that gave one. *)
Definition response_of (outcome : result Runtime.Outcome) : Runtime.Response :=
  match outcome with
  | Ok (Runtime.Responded r) => r
  | _ => {| Runtime.status := 0; Runtime.response_headers := ∅;
            Runtime.body := None |}
  end.

Definition dev_response_of (outcome : result Plugin.Outcome)
  : option Plugin.Response :=
  match outcome with
  | Ok (Plugin.Responded r) => Some r
  | _ => None
  end.

(** That entry as [sharp] returns it, and with its metadata attached. *)
Definition entry_handle : Sharp :=
  {| Reference.input := photo_webp; Reference.toFormat := None;
     Reference.attached := None |}.

Definition entry_with_metadata : Sharp :=
  {| Reference.input := photo_webp; Reference.toFormat := None;
     Reference.attached :=
       Some {| Reference.format := "webp"; Reference.width := Byte.x02;
               Reference.height := Byte.x03 |} |}.


(** The loader of [dev_options]. *)
Definition dev_loader (uri : string) (params : URLSearchParams.t)
  : result (option bytes) :=
  Ok (if String.eqb uri "/anim.gif" then Some photo_gif else Some photo_png).

(** The middleware without a loader of its own. *)
Definition plain_options : Plugin.Options :=
  {| Plugin.load := None; Plugin.cacheDir := None;
     Plugin.removeExifData := None; Plugin.devHeaders := None |}.

(** A disk with the source in the public directory. *)
Definition public_disk : FileSystem :=
  {| files := {[ "/srv/public/photo.png" := photo_png ]}; writable := true; torn := None |}.

End Fixtures.

(* ===================================================================== *)
(** * Properties *)
(* ===================================================================== *)

(** ** The digest, on known values *)

Example md5_empty : MD5.md5Hex "" = "d41d8cd98f00b204e9800998ecf8427e".
Proof. vm_compute. reflexivity. Qed.

Example md5_abc : MD5.md5Hex "abc" = "900150983cd24fb0d6963f7d28e17f72".
Proof. vm_compute. reflexivity. Qed.

Example md5_two_blocks :
  MD5.md5Hex
    "xxxxxxxxxxxxxxxxxxxxxxxxxxxxxxxxxxxxxxxxxxxxxxxxxxxxxxxx"
  = "668a72d5ba17f08e62dabcafad6db14b".
Proof. vm_compute. reflexivity. Qed.

Example md5_query :
  MD5.md5Hex "/photo.png?format=webp&w=200"
  = "e2e83ba6f4f4e9dc3056a9da2c4b0495".
Proof. vm_compute. reflexivity. Qed.

(** ** Sorting the search parameters *)

Section SortFacts.
Import URLSearchParams Spec.

Lemma name_is_true k e : name_is k e = true ↔ fst e = k.
Proof. unfold name_is. apply String.eqb_eq. Qed.

Lemma name_is_false k e : name_is k e = false ↔ fst e ≠ k.
Proof. unfold name_is. apply String.eqb_neq. Qed.

(** The comparison of code units is a total order. *)
Lemma compare_units_refl a : JsString.compare_units a a = Eq.
Proof.
  induction a as [| x a IH]; [done |]. cbn. by rewrite N.compare_refl.
Qed.

Lemma compare_units_eq a b : JsString.compare_units a b = Eq → a = b.
Proof.
  revert b. induction a as [| x a IH]; intros [| y b]; cbn; try done.
  destruct (x ?= y)%N eqn:Hxy; try done.
  apply N.compare_eq_iff in Hxy as ->. by intros ->%IH.
Qed.

Lemma compare_units_antisym a b :
  JsString.compare_units b a = CompOpp (JsString.compare_units a b).
Proof.
  revert b. induction a as [| x a IH]; intros [| y b]; cbn; try done.
  rewrite (N.compare_antisym x y).
  destruct (x ?= y)%N; cbn; [apply IH | done | done].
Qed.

Lemma compare_units_lt_trans a b c :
  JsString.compare_units a b = Lt → JsString.compare_units b c = Lt →
  JsString.compare_units a c = Lt.
Proof.
  revert b c.
  induction a as [| x a IH]; intros [| y b] [| z c]; cbn; try done.
  destruct (x ?= y)%N eqn:Hxy; try done.
  - apply N.compare_eq_iff in Hxy as ->.
    destruct (y ?= z)%N; try done. apply IH.
  - intros _. destruct (y ?= z)%N eqn:Hyz; try done.
    + apply N.compare_eq_iff in Hyz as <-. by rewrite Hxy.
    + intros _. apply N.compare_lt_iff in Hxy, Hyz.
      assert ((x ?= z)%N = Lt) as ->; [| done].
      apply N.compare_lt_iff. by etrans.
Qed.

Lemma compare_units_le a b :
  JsString.compare_units a b ≠ Gt → units_le a b.
Proof.
  revert b. induction a as [| x a IH]; intros [| y b]; cbn; try done.
  - constructor.
  - constructor.
  - destruct (x ?= y)%N eqn:Hxy; try done.
    + apply N.compare_eq_iff in Hxy as ->. intros H. apply units_le_eq. by apply IH.
    + intros _. apply units_le_lt. by apply N.compare_lt_iff.
Qed.

Lemma precedes_refl a : JsString.precedes a a = true.
Proof.
  unfold JsString.precedes. rewrite compare_units_refl.
  assert (String.le a a) as H by reflexivity.
  unfold String.le in H. by destruct (String.leb a a).
Qed.

Lemma precedes_total a b :
  JsString.precedes a b = false → JsString.precedes b a = true.
Proof.
  unfold JsString.precedes.
  rewrite (compare_units_antisym (JsString.code_units a) (JsString.code_units b)).
  destruct (JsString.compare_units _ _); cbn; try done.
  intros H. destruct (String.leb_total a b) as [H' | H']; congruence.
Qed.

Lemma precedes_antisym a b :
  JsString.precedes a b = true → JsString.precedes b a = true → a = b.
Proof.
  unfold JsString.precedes.
  rewrite (compare_units_antisym (JsString.code_units a) (JsString.code_units b)).
  destruct (JsString.compare_units _ _); cbn; try done.
  intros H1 H2. apply (anti_symm String.le); unfold String.le.
  - by rewrite H1.
  - by rewrite H2.
Qed.

Lemma precedes_trans a b c :
  JsString.precedes a b = true → JsString.precedes b c = true →
  JsString.precedes a c = true.
Proof.
  unfold JsString.precedes.
  destruct (JsString.compare_units (JsString.code_units a)
              (JsString.code_units b)) eqn:Hab; try done;
    destruct (JsString.compare_units (JsString.code_units b)
                (JsString.code_units c)) eqn:Hbc; try done.
  - apply compare_units_eq in Hab, Hbc. rewrite Hab, Hbc, compare_units_refl.
    intros H1 H2.
    assert (String.le a c) as H.
    { trans b; unfold String.le; [by rewrite H1 | by rewrite H2]. }
    unfold String.le in H. by destruct (String.leb a c).
  - apply compare_units_eq in Hab. rewrite Hab, Hbc. done.
  - apply compare_units_eq in Hbc. rewrite <- Hbc, Hab. done.
  - by rewrite (compare_units_lt_trans _ _ _ Hab Hbc).
Qed.

Lemma precedes_false_ne a b : JsString.precedes a b = false → a ≠ b.
Proof. intros H ->. by rewrite precedes_refl in H. Qed.

(** What [sort] puts in order is sorted by key. *)
Lemma in_order_by_name a b : in_order a b → by_name a b.
Proof.
  unfold in_order, by_name, JsString.precedes. intros H.
  apply compare_units_le. by destruct (JsString.compare_units _ _).
Qed.

Lemma sorted_by_name l : StronglySorted in_order l → StronglySorted by_name l.
Proof.
  induction 1 as [| e l Hsorted IH Hall]; constructor; [done |].
  eapply Forall_impl; [exact Hall |]. intros x. apply in_order_by_name.
Qed.

(** Stability: inserting [e] puts it before every pair of its name. *)
Lemma filter_insert k e p :
  List.filter (name_is k) (insert e p) = List.filter (name_is k) (e :: p).
Proof.
  induction p as [| e' p IH]; [reflexivity |].
  cbn [insert]. destruct (JsString.precedes (fst e) (fst e')) eqn:Hleb; [reflexivity |].
  cbn [List.filter] in *. rewrite IH.
  destruct (name_is k e) eqn:Hke, (name_is k e') eqn:Hke'; try reflexivity.
  apply name_is_true in Hke, Hke'.
  apply precedes_false_ne in Hleb. congruence.
Qed.

Lemma filter_sort k p :
  List.filter (name_is k) (sort p) = List.filter (name_is k) p.
Proof.
  induction p as [| e p IH]; [reflexivity |].
  cbn [sort]. rewrite filter_insert. cbn [List.filter]. by rewrite IH.
Qed.

Lemma insert_elem_of x e p : x ∈ insert e p → x = e ∨ x ∈ p.
Proof.
  induction p as [| e' p IH]; cbn [insert].
  - intros ->%list_elem_of_singleton. by left.
  - destruct (JsString.precedes (fst e) (fst e')).
    + intros [-> | H]%elem_of_cons; [by left | by right].
    + intros [-> | H]%elem_of_cons; [right; left |].
      destruct (IH H) as [-> | ?]; [by left | right; by right].
Qed.

Lemma insert_in_order e p :
  StronglySorted in_order p → StronglySorted in_order (insert e p).
Proof.
  induction 1 as [| e' p Hsorted IH Hall]; cbn [insert].
  - repeat constructor.
  - destruct (JsString.precedes (fst e) (fst e')) eqn:Hleb.
    + constructor; [by constructor |].
      constructor; [done |].
      eapply Forall_impl; [exact Hall |].
      intros x Hx. unfold in_order in *. by eapply precedes_trans.
    + constructor; [done |].
      apply Forall_forall. intros x [-> | Hx]%insert_elem_of.
      * by apply precedes_total.
      * by eapply Forall_forall in Hall.
Qed.

Lemma sort_in_order p : StronglySorted in_order (sort p).
Proof.
  induction p as [| e p IH]; cbn [sort]; [constructor | by apply insert_in_order].
Qed.

Lemma sort_sorted p : StronglySorted by_name (sort p).
Proof. apply sorted_by_name, sort_in_order. Qed.

Lemma filter_nil_all (l : t) :
  (∀ k, List.filter (name_is k) l = []) → l = [].
Proof.
  destruct l as [| e l]; [done |]. intros H. specialize (H (fst e)).
  cbn [List.filter] in H.
  assert (name_is (fst e) e = true) as Hn by by apply name_is_true.
  rewrite Hn in H. discriminate.
Qed.

Lemma filter_head_in k (e : string * string) l l' :
  List.filter (name_is k) l = e :: l' → e ∈ l ∧ fst e = k.
Proof.
  intros H.
  assert (In e (List.filter (name_is k) l)) as Hin by (rewrite H; by left).
  apply filter_In in Hin as [Hin Hk].
  split; [by apply list_elem_of_In | by apply name_is_true].
Qed.

(** The head of a sorted list is below the head of any other sorted list
    with the same pairs under each name. *)
Lemma sorted_head_le a l1 b l2 :
  StronglySorted in_order (b :: l2) →
  (∀ k, List.filter (name_is k) (a :: l1) = List.filter (name_is k) (b :: l2)) →
  in_order b a.
Proof.
  intros Hs H. specialize (H (fst a)).
  assert (name_is (fst a) a = true) as Hn by by apply name_is_true.
  assert (List.filter (name_is (fst a)) (a :: l1)
          = a :: List.filter (name_is (fst a)) l1) as Hl.
  { cbn [List.filter]. by rewrite Hn. }
  rewrite Hl in H. symmetry in H.
  apply filter_head_in in H as [Hin _].
  apply elem_of_cons in Hin as [-> | Hin]; [apply precedes_refl |].
  apply StronglySorted_inv in Hs as [_ Hall].
  by eapply Forall_forall in Hall.
Qed.

(** A stable sort has one result: two sorted lists that hold the same
    pairs in the same order under every name are equal. *)
Lemma sorted_unique l1 l2 :
  StronglySorted in_order l1 → StronglySorted in_order l2 →
  (∀ k, List.filter (name_is k) l1 = List.filter (name_is k) l2) →
  l1 = l2.
Proof.
  revert l2. induction l1 as [| a l1 IH]; intros l2 Hs1 Hs2 H.
  - symmetry. apply filter_nil_all. intros k. by rewrite <- H.
  - destruct l2 as [| b l2].
    { apply filter_nil_all. intros k. by rewrite H. }
    assert (fst a = fst b) as Hname.
    { apply precedes_antisym.
      - eapply (sorted_head_le b l2 a l1); [done |]. intros k. by rewrite H.
      - by eapply (sorted_head_le a l1 b l2). }
    assert (a = b) as ->.
    { specialize (H (fst a)). cbn [List.filter] in H.
      assert (name_is (fst a) a = true) as Ha by by apply name_is_true.
      assert (name_is (fst a) b = true) as Hb by by apply name_is_true.
      rewrite Ha, Hb in H. congruence. }
    f_equal. apply StronglySorted_inv in Hs1 as [Hs1 _].
    apply StronglySorted_inv in Hs2 as [Hs2 _].
    apply IH; [done | done |].
    intros k. specialize (H k). cbn [List.filter] in H.
    destruct (name_is k b); congruence.
Qed.

Lemma sort_stable_eq p1 p2 :
  (∀ k, List.filter (name_is k) p1 = List.filter (name_is k) p2) →
  sort p1 = sort p2.
Proof.
  intros H. apply sorted_unique; try apply sort_in_order.
  intros k. by rewrite !filter_sort.
Qed.

(** [sort] is the stable sort by name: any list in order that keeps,
    under every name, the pairs of [p] in their order is [sort p]. *)
Lemma sort_is_the_stable_sort p l :
  StronglySorted in_order l → same_values_per_name l p → l = sort p.
Proof.
  intros Hsorted Hsame. apply sorted_unique; [done | apply sort_in_order |].
  intros k. rewrite filter_sort. apply Hsame.
Qed.

Lemma insert_perm e p : insert e p ≡ₚ e :: p.
Proof.
  induction p as [| e' p IH]; cbn [insert]; [done |].
  destruct (JsString.precedes (fst e) (fst e')); [done |].
  rewrite IH. apply Permutation_swap.
Qed.

Lemma sort_perm p : sort p ≡ₚ p.
Proof.
  induction p as [| e p IH]; cbn [sort]; [done |].
  by rewrite insert_perm, IH.
Qed.

Lemma get_sort k p : get k (sort p) = get k p.
Proof. unfold get. by rewrite filter_sort. Qed.

Lemma has_filter k p : has k p = false ↔ List.filter (name_is k) p = [].
Proof.
  unfold has. induction p as [| e p IH]; cbn; [done |].
  destruct (name_is k e); cbn; [split; discriminate | exact IH].
Qed.

Lemma set_absent k v p : has k p = false → set k v p = p ++ [(k, v)].
Proof. unfold set. by intros ->. Qed.

Lemma get_app_absent k v p :
  has k p = false → get k (p ++ [(k, v)]) = Some v.
Proof.
  intros H%has_filter. unfold get. rewrite List.filter_app, H.
  cbn [List.filter app].
  assert (name_is k (k, v) = true) as -> by by apply name_is_true.
  done.
Qed.

Lemma get_present k p : has k p = true → ∃ v, get k p = Some v.
Proof.
  unfold get. intros H. destruct (List.filter (name_is k) p) eqn:Hf.
  - apply has_filter in Hf. congruence.
  - eauto.
Qed.

End SortFacts.

(** ** The cache entry identifier *)

Section Identifier.
Context `{PF : Platform} `{IE : ImageEngine}.
Import URLSearchParams Spec.

Lemma get_absent k p : has k p = false → get k p = None.
Proof. intros H%has_filter. unfold get. by rewrite H. Qed.

Lemma normalized_params path p :
  sort (if has "format" p then p
        else set "format" (JsString.slice_from 1 (extname path)) p)
  = canonical_params path p.
Proof.
  unfold canonical_params. destruct (has "format" p) eqn:Hhas; [done |].
  by rewrite set_absent.
Qed.

Lemma normalized_format path p :
  JsString.or_null (get "format" (canonical_params path p))
  = resolved_format path p.
Proof.
  unfold canonical_params, resolved_format. rewrite get_sort.
  destruct (has "format" p) eqn:Hhas.
  - destruct (get_present _ _ Hhas) as [v ->]. done.
  - rewrite get_app_absent, get_absent by done. done.
Qed.

Lemma runtime_normalized_params req :
  Endpoint.searchParams (Runtime.sort_params (Runtime.default_format req))
  = canonical_params (Endpoint.path req) (Endpoint.searchParams req).
Proof.
  unfold Runtime.sort_params, Runtime.default_format.
  rewrite <- normalized_params.
  by destruct (has "format" (Endpoint.searchParams req)).
Qed.

Lemma runtime_normalized_path req :
  Endpoint.path (Runtime.sort_params (Runtime.default_format req))
  = Endpoint.path req.
Proof.
  unfold Runtime.sort_params, Runtime.default_format.
  by destruct (has "format" (Endpoint.searchParams req)).
Qed.

Lemma runtime_imageId req :
  Runtime.imageId (Runtime.sort_params (Runtime.default_format req))
  = cache_entry_identifier (Endpoint.path req) (Endpoint.searchParams req).
Proof.
  unfold Runtime.imageId, Runtime.Request_toString, cache_entry_identifier,
    canonical_query.
  rewrite runtime_normalized_params, runtime_normalized_path.
  by rewrite normalized_format.
Qed.

Lemma plugin_imageId uri query :
  Plugin.imageId uri (Plugin.normalize uri query)
  = cache_entry_identifier uri (parse_query query).
Proof.
  unfold Plugin.imageId, Plugin.normalize, cache_entry_identifier,
    canonical_query.
  rewrite normalized_params. by rewrite normalized_format.
Qed.

Lemma canonical_params_stable path p1 p2 :
  same_values_per_name p1 p2 →
  canonical_params path p1 = canonical_params path p2.
Proof.
  intros Hsame. unfold canonical_params.
  assert (has "format" p1 = has "format" p2) as Hhas.
  { destruct (has "format" p1) eqn:H1, (has "format" p2) eqn:H2; try done.
    - apply has_filter in H2. rewrite <- Hsame in H2.
      apply has_filter in H2. congruence.
    - apply has_filter in H1. rewrite Hsame in H1.
      apply has_filter in H1. congruence. }
  rewrite Hhas. apply sort_stable_eq. intros k.
  destruct (has "format" p2); [apply Hsame |].
  rewrite !List.filter_app. by rewrite Hsame.
Qed.

Lemma resolved_format_stable path p1 p2 :
  same_values_per_name p1 p2 →
  resolved_format path p1 = resolved_format path p2.
Proof.
  intros Hsame. unfold resolved_format, get. by rewrite Hsame.
Qed.

Lemma cache_entry_identifier_stable path p1 p2 :
  same_values_per_name p1 p2 →
  cache_entry_identifier path p1 = cache_entry_identifier path p2.
Proof.
  intros Hsame. unfold cache_entry_identifier, canonical_query.
  rewrite (canonical_params_stable path p1 p2) by done.
  by rewrite (resolved_format_stable path p1 p2).
Qed.

(** The handlers' computations meet the relations of the
    specification. *)
Lemma slice_to_first_characters n s :
  first_characters n (JsString.slice_to n s) s.
Proof.
  unfold first_characters, JsString.slice_to.
  revert n. induction s as [| c s IH]; intros [| n]; cbn.
  - split; [done | by exists ""].
  - split; [done | by exists ""].
  - split; [done | by exists (String c s)].
  - destruct (IH n) as [Hlen [rest Hrest]].
    split; [by rewrite Hlen |]. exists rest.
    exact (f_equal (String c) Hrest).
Qed.

Lemma substring_all s : String.substring 0 (String.length s) s = s.
Proof. induction s as [| c s IH]; cbn; [done | by rewrite IH]. Qed.

Lemma slice_from_1 s : without_first_character s (JsString.slice_from 1 s).
Proof.
  unfold without_first_character, JsString.slice_from.
  destruct s as [| c s]; [by left |]. right. exists c. cbn.
  by rewrite Nat.sub_0_r, substring_all.
Qed.

Lemma has_false_absent k p : has k p = false → absent k p.
Proof.
  unfold has, absent. intros H v Hin.
  assert (existsb (name_is k) p = true) as Hex; [| congruence].
  apply existsb_exists. exists (k, v).
  split; [by apply list_elem_of_In | by apply name_is_true].
Qed.

Lemma has_true_present k p : has k p = true → ¬ absent k p.
Proof.
  unfold has, absent. intros H Habsent.
  apply existsb_exists in H as ([n v] & Hin & Hname).
  apply name_is_true in Hname. cbn in Hname. subst n.
  by apply (Habsent v), list_elem_of_In.
Qed.

Lemma get_first_value k p v : get k p = Some v → first_value k p v.
Proof.
  unfold get, first_value. induction p as [| [n v'] p IH]; cbn [List.filter].
  - done.
  - destruct (name_is k (n, v')) eqn:Hname.
    + apply name_is_true in Hname. cbn in Hname. subst n.
      intros [= ->]. exists [], p. split; [done |].
      intros v'' Hin. by apply elem_of_nil in Hin.
    + intros H. destruct (IH H) as (before & after & -> & Habsent).
      exists ((n, v') :: before), after. split; [done |].
      intros v'' [Heq | Hin]%elem_of_cons.
      * apply name_is_false in Hname. cbn in Hname. congruence.
      * by apply (Habsent v'').
Qed.

Lemma resolved_format_is_resolved path p :
  is_resolved_format path p (resolved_format path p).
Proof.
  unfold is_resolved_format, resolved_format.
  destruct (get "format" p) as [v |] eqn:Hget.
  - left. by apply get_first_value.
  - right. split; [| apply slice_from_1].
    apply has_false_absent. destruct (has "format" p) eqn:Hhas; [| done].
    destruct (get_present _ _ Hhas) as [v Hv]. congruence.
Qed.

Lemma canonical_params_is_canonical path p :
  is_canonical path p (canonical_params path p).
Proof.
  unfold is_canonical, canonical_params.
  exists (if has "format" p then p
          else p ++ [("format", JsString.slice_from 1 (extname path))]).
  split; [| split; [apply sort_sorted | split; [apply sort_perm |]]].
  - destruct (has "format" p) eqn:Hhas.
    + left. split; [by apply has_true_present | done].
    + right. split; [by apply has_false_absent |].
      eexists. split; [apply slice_from_1 | done].
  - intros k. apply filter_sort.
Qed.

Lemma cache_entry_identifier_is_composed path p :
  is_cache_entry_identifier path p (cache_entry_identifier path p).
Proof.
  unfold is_cache_entry_identifier, cache_entry_identifier, canonical_query.
  eexists _, _, _.
  split; [apply canonical_params_is_canonical |].
  split; [apply slice_to_first_characters |].
  split; [apply resolved_format_is_resolved | done].
Qed.

Lemma filter_none k (p : t) :
  k ∉ map fst p → List.filter (name_is k) p = [].
Proof.
  induction p as [| e p IH]; [done |]. cbn [map List.filter].
  intros Hnotin. apply not_elem_of_cons in Hnotin as [Hne Hnotin].
  assert (name_is k e = false) as -> by (apply name_is_false; congruence).
  by apply IH.
Qed.

Lemma same_values_per_name_b_true p1 p2 :
  same_values_per_name_b p1 p2 = true → same_values_per_name p1 p2.
Proof.
  unfold same_values_per_name_b. rewrite forallb_forall. intros Hall k.
  destruct (decide (k ∈ map fst (p1 ++ p2))) as [Hin | Hnotin].
  - apply list_elem_of_In in Hin. apply Hall in Hin.
    by apply bool_decide_eq_true in Hin.
  - rewrite map_app in Hnotin. apply not_elem_of_app in Hnotin as [H1 H2].
    by rewrite !filter_none.
Qed.

End Identifier.

(** ** The image cache *)

Section CacheFacts.
Context `{PF : Platform} `{IE : ImageEngine}.
Import Spec Cache.

Lemma local_read_missing cacheDir imageId w :
  files (fs w) !! path_join cacheDir imageId = None →
  local_read cacheDir imageId w
  = (Ok None, {| fs := fs w;
                 log := log w ++ [FsRead (path_join cacheDir imageId)] |}).
Proof.
  intros Hmiss. unfold local_read, bind, catch, readFileSync, fs_read.
  by rewrite Hmiss.
Qed.

(** [read] settles without throwing, whatever is on disk. *)
Lemma local_read_never_throws cacheDir imageId w :
  ∃ image, fst (local_read cacheDir imageId w) = Ok image.
Proof.
  unfold local_read, bind, catch, ret, lift, await, readFileSync.
  repeat (case_match; simplify_eq/=); eauto.
Qed.

Lemma local_write_files cacheDir imageId image w imageBuffer :
  toBuffer image = Ok imageBuffer →
  writable (fs w) = true →
  files (fs (snd (local_write cacheDir imageId image w)))
    !! path_join cacheDir imageId = Some imageBuffer.
Proof.
  intros Hbuf Hwritable.
  unfold local_write, bind, lift, await, writeFileSync, fs_write.
  cbn [fst snd fs log]. rewrite Hbuf. cbn [fst snd fs log].
  rewrite Hwritable. cbn [snd fs files]. apply lookup_insert_eq.
Qed.

(** [write] does not catch what [writeFileSync] throws. *)
Lemma local_write_rejects cacheDir imageId image w imageBuffer :
  toBuffer image = Ok imageBuffer →
  writable (fs w) = false →
  fst (local_write cacheDir imageId image w) = Throw.
Proof.
  intros Hbuf Hwritable.
  unfold local_write, bind, lift, await, writeFileSync, fs_write.
  cbn [fst snd fs log]. rewrite Hbuf. cbn [fst snd fs log].
  rewrite Hwritable. by destruct (torn (fs w)).
Qed.

(** C6: what the code does where the claim fails. When the file is there
    and [sharp] accepts its bytes but the metadata pass rejects them,
    [read] returns the handle it had already assigned, without metadata,
    and not [undefined]. *)
Theorem local_read_keeps_undecodable_image cacheDir imageId w data image :
  fs_read (path_join cacheDir imageId) (fs w) = Ok data →
  sharp data = Ok image →
  applyTransforms [] image None = Throw →
  fst (local_read cacheDir imageId w) = Ok (Some image).
Proof.
  intros Hfile Hsharp Hmeta.
  unfold local_read, bind, catch, ret, lift, await, readFileSync.
  cbn [fst snd fs]. rewrite Hfile, Hsharp. cbn [fst snd fs].
  by rewrite Hmeta.
Qed.

(** C8, amended. After a [write(id, X)] that succeeded, the file of that
    identifier holds the encoding of [X], and [read(id)] returns the
    image the decoder makes of those bytes: it reads that file, decodes
    it and awaits [applyTransforms] on the empty list, and nothing else.
    The transformations [X] came from are not run again and the disk
    stays as it is. The metadata of the image returned are those the
    decoder reports for the persisted bytes; nothing makes them those
    recorded in [X]. *)
Theorem local_cache_write_then_read root dir imageId X w w1 :
  let c := makeLocalImageCache root dir in
  let file := path_join (path_resolve root (default "node_modules/.images" dir))
                imageId in
  write c imageId X w = (Ok tt, w1) →
  ∃ imageData,
    toBuffer X = Ok imageData
    ∧ files (fs w1) !! file = Some imageData
    ∧ ∀ Y Y',
        sharp imageData = Ok Y →
        applyTransforms [] Y None = Ok Y' →
        read c imageId w1
        = (Ok (Some Y'),
           {| fs := fs w1;
              log := log w1 ++ [FsRead file; Await (OpApplyTransforms [])] |}).
Proof.
  intros c file Hwrite. subst c file.
  cbn [makeLocalImageCache write read] in *.
  set (cacheDir := path_resolve root (default "node_modules/.images" dir)) in *.
  unfold local_write, bind, lift, await, writeFileSync, fs_write in Hwrite.
  cbn [fst snd fs log] in Hwrite.
  destruct (toBuffer X) as [imageData |] eqn:Hbuf; [| done].
  cbn [fst snd fs log] in Hwrite.
  destruct (writable (fs w)) eqn:Hwritable;
    [| by destruct (torn (fs w))].
  injection Hwrite as <-.
  exists imageData. split; [done |]. split.
  { cbn [fs files]. apply lookup_insert_eq. }
  intros Y Y' Hsharp Hmeta.
  unfold local_read, bind, catch, ret, lift, await, readFileSync, fs_read.
  cbn [fst snd fs log files]. rewrite lookup_insert_eq, Hsharp.
  cbn [fst snd fs log]. rewrite Hmeta. cbn [fst snd fs log].
  by rewrite <- app_assoc.
Qed.

End CacheFacts.

(** ** The endpoint [serveImages] *)

Section ServeImages.
Context `{PF : Platform} `{IE : ImageEngine}.
Import URLSearchParams Spec Endpoint Runtime.

(** Every path through the handler, one goal each. *)
Ltac run_handler :=
  unfold trace_of, outcome_of, files_after, disk_after, serveImages,
    fresh_image, respond, factories, bind, ret, lift, await, detach, emit in *;
  cbn [fst snd log fs negb] in *;
  repeat (case_match; cbn [fst snd log fs app negb] in *; simplify_eq).

Ltac in_trace H :=
  repeat (apply elem_of_cons in H as [H | H]; [simplify_eq |]);
  try (by apply elem_of_nil in H).


(** Every event of a run is an awaited operation, the cache write that
    is started without being awaited, or the response. *)
Lemma serveImages_trace_shape options req f e :
  e ∈ trace_of (serveImages options req) f →
  (∃ op, e = Await op)
  ∨ e = Detached (OpCacheWrite
                    (cache_entry_identifier (path req) (searchParams req)))
  ∨ (∃ status, e = RespondWith status).
Proof.
  rewrite <- runtime_imageId.
  run_handler; intros Hin; in_trace Hin; eauto.
Qed.

Lemma serveImages_cache_read_id options req f id :
  Await (OpCacheRead id) ∈ trace_of (serveImages options req) f →
  id = cache_entry_identifier (path req) (searchParams req).
Proof.
  rewrite <- runtime_imageId.
  run_handler; intros Hin; in_trace Hin; congruence.
Qed.


Lemma serveImages_without_allow options req w :
  allow options = None →
  fst (serveImages options req w) ≠ Ok (PassThrough Disallowed).
Proof. intros Hallow. run_handler; cbn [fst]; congruence. Qed.

Lemma respond_never_passes options req image w why :
  fst (respond options req image w) ≠ Ok (PassThrough why).
Proof.
  unfold respond, bind, ret, lift, await, emit.
  repeat (case_match; cbn [fst snd] in *; simplify_eq); cbn [fst]; congruence.
Qed.

Lemma respond_keeps_files options req image w :
  fs (snd (respond options req image w)) = fs w.
Proof.
  unfold respond, bind, ret, lift, await, emit.
  repeat (case_match; cbn [fst snd fs] in *; simplify_eq); reflexivity.
Qed.

Lemma respond_extends_log options req image w :
  ∃ evs, log (snd (respond options req image w)) = log w ++ evs.
Proof.
  unfold respond, bind, ret, lift, await, emit.
  repeat (case_match; cbn [fst snd fs log] in *; simplify_eq);
    cbn [fst snd fs log]; rewrite <- ?app_assoc; eexists; reflexivity.
Qed.

(** An [ETag] that [options.headers] does not assign is the computed
    one. *)
Lemma computed_etag_unless_assigned assigned image imageBuffer :
  assigned !! "ETag" = None →
  (assigned ∪ computed_headers image imageBuffer) !! "ETag"
  = Some (etag imageBuffer).
Proof.
  intros Hnone. rewrite lookup_union_r by done.
  unfold computed_headers. by simplify_map_eq.
Qed.

(** C5, amended. In [serveImages] the promise of [cache.write] is
    dropped: whatever the write does, and whether or not it fails, the
    handler settles in the same way, the response being built from the
    image in memory. The failure itself is caught nowhere: [write] of the
    local cache rejects when the file cannot be written. *)
Theorem serveImages_cache_write_unobserved :
  (∀ options rd wr1 wr2 req w,
     fst (serveImages
            (with_cache options (Some {| Cache.read := rd; Cache.write := wr1 |}))
            req w)
     = fst (serveImages
              (with_cache options (Some {| Cache.read := rd; Cache.write := wr2 |}))
              req w))
  ∧ (∀ cacheDir imageId image w imageBuffer,
       toBuffer image = Ok imageBuffer →
       writable (fs w) = false →
       fst (Cache.local_write cacheDir imageId image w) = Throw).
Proof.
  split; [| apply local_write_rejects].
  intros options rd wr1 wr2 req w.
  unfold with_cache.
  unfold serveImages, fresh_image, respond, factories, bind, ret, lift, await,
    detach, emit.
  cbn [fst snd log fs load cache allow hook_headers transforms removeExifData
         Cache.read Cache.write].
  repeat (case_match; cbn [fst snd log fs] in *; simplify_eq); reflexivity.
Qed.

(** C9. The value an allow hook returns is tested as it is. A hook that
    returns a promise therefore refuses nothing, whatever the promise
    resolves to: the handler runs as it would without [allow], and never
    leaves the request to the next handler at the allow check. *)
Theorem allow_promise_never_rejects options (f : Request → result bool) req w :
  let hook := AllowRequestHook (λ r, Ok (PromiseLike (f r))) in
  serveImages (with_allow options (Some hook)) req w
  = serveImages (with_allow options None) req w
  ∧ fst (serveImages (with_allow options (Some hook)) req w)
    ≠ Ok (PassThrough Disallowed).
Proof.
  intros hook. subst hook.
  assert (serveImages
            (with_allow options
               (Some (AllowRequestHook (λ r, Ok (PromiseLike (f r)))))) req w
          = serveImages (with_allow options None) req w) as Heq.
  { unfold serveImages. cbn [with_allow allow call_allow truthy cache].
    destruct (negb (isImage (path req))); [done |].
    unfold bind at 1 3. unfold lift, ret. cbn [negb].
    reflexivity. }
  split; [exact Heq |].
  rewrite Heq. by apply serveImages_without_allow.
Qed.


End ServeImages.

(** ** The dev-server middleware *)

Section Middleware.
Context `{PF : Platform} `{IE : ImageEngine}.
Import URLSearchParams Spec Plugin.

Ltac run_middleware :=
  unfold trace_of, outcome_of, files_after, disk_after, middleware, cached_image,
    fresh_image, readImage, respond, bind, ret, lift, await, catch, emit,
    readFileSync, writeFileSync in *;
  cbn [fst snd log fs negb] in *;
  repeat (case_match; cbn [fst snd log fs app negb] in *; simplify_eq).

Ltac in_trace H :=
  repeat (apply elem_of_cons in H as [H | H]; [simplify_eq |]);
  try (by apply elem_of_nil in H).

(** The only file the middleware writes is the cache entry. *)
Lemma middleware_cache_file options config req f p :
  FsWrite p ∈ trace_of (middleware options config req) f →
  ∃ cacheDir uri query,
    resolved_cacheDir options config = Some cacheDir
    ∧ JsString.split_query (url req) = (uri, Some query)
    ∧ p = path_join cacheDir (cache_entry_identifier uri (parse_query query)).
Proof.
  run_middleware; intros Hin; in_trace Hin;
    eexists _, _, _; (split; [reflexivity |]); (split; [reflexivity |]);
    by rewrite <- plugin_imageId.
Qed.

(** The guard of lines 97-99: were there no configuration, the
    middleware would hand the request on and do nothing else. *)
Lemma middleware_without_configuration options config req w uri query :
  JsString.split_query (url req) = (uri, Some query) →
  resolveConfigs (normalize uri query) = None →
  middleware options config req w = (Ok Next, w).
Proof.
  intros Hsplit Hconfig. unfold middleware. rewrite Hsplit.
  destruct (negb (isImage uri)); [done |]. by rewrite Hconfig.
Qed.

(** The middleware answers 200 or not at all. *)
Lemma middleware_status options config req w r w' :
  middleware options config req w = (Ok (Responded r), w') →
  status r = 200 ∧
  ∃ headers,
    response_headers r
    = headers ∪ {[ "Content-Type" :=
                     "image/" +:+ JsString.or_undefined
                                    (getMetadata (piped r) "format");
                   "Cache-Control" := "max-age=360000" ]}.
Proof.
  intros Hrun. run_middleware; cbn [status response_headers piped]; eauto.
Qed.
End Middleware.

(** ** The identifier, for both handlers *)

Section Claims.
Context `{PF : Platform} `{IE : ImageEngine}.
Import URLSearchParams Spec.

(** C1. The identifier both handlers derive is composed as the
    specification says: the basename without the extension, a dot, the
    first eight characters of the digest of the path, a question mark and
    the canonical query string, a dot, and the resolved format. The
    canonical query string is that of the parameters with the default
    format in place, sorted by key, the values of a repeated key in
    their order; the resolved format is the first [format] parameter of
    the request, or else the extension without its dot. The endpoint
    reads and writes its cache under that identifier, and the middleware
    writes the file [path.join] makes of the cache directory and that
    identifier. *)
Theorem cache_entry_identifier_derivation req id :
  Runtime.imageId (Runtime.sort_params (Runtime.default_format req)) = id →
  is_cache_entry_identifier (Endpoint.path req) (Endpoint.searchParams req) id
  ∧ (∀ query,
       parse_query query = Endpoint.searchParams req →
       Plugin.imageId (Endpoint.path req)
         (Plugin.normalize (Endpoint.path req) query) = id)
  ∧ (∀ options f id',
       Await (OpCacheRead id') ∈ trace_of (Runtime.serveImages options req) f
       ∨ Detached (OpCacheWrite id')
           ∈ trace_of (Runtime.serveImages options req) f →
       id' = id)
  ∧ (∀ options config message f query p,
       JsString.split_query (Plugin.url message)
       = (Endpoint.path req, Some query) →
       parse_query query = Endpoint.searchParams req →
       FsWrite p ∈ trace_of (Plugin.middleware options config message) f →
       ∃ cacheDir,
         Plugin.resolved_cacheDir options config = Some cacheDir
         ∧ p = path_join cacheDir id).
Proof.
  rewrite runtime_imageId. intros <-.
  split; [apply cache_entry_identifier_is_composed |].
  split; [intros query <-; apply plugin_imageId |].
  split.
  - intros options f id' [Hread | Hwrite].
    + by eapply serveImages_cache_read_id.
    + apply serveImages_trace_shape in Hwrite
        as [[op Hop] | [Hid | [status Hstatus]]]; congruence.
  - intros options config message f query p Hsplit Hquery Hwrite.
    apply middleware_cache_file in Hwrite
      as (cacheDir & uri & query' & Hdir & Hsplit' & ->).
    rewrite Hsplit in Hsplit'. injection Hsplit' as <- <-.
    exists cacheDir. by rewrite Hquery.
Qed.

(** C2, amended. Two requests with the same path whose parameters differ
    only in the order of pairs of different names (under each name the
    values come in the same order) get the same identifier. *)
Theorem identifier_stable_under_reordering path p1 p2 :
  same_values_per_name p1 p2 →
  (∀ h1 h2,
     Runtime.imageId
       (Runtime.sort_params
          (Runtime.default_format
             {| Endpoint.path := path; Endpoint.searchParams := p1;
                Endpoint.headers := h1 |}))
     = Runtime.imageId
         (Runtime.sort_params
            (Runtime.default_format
               {| Endpoint.path := path; Endpoint.searchParams := p2;
                  Endpoint.headers := h2 |})))
  ∧ (∀ q1 q2,
       parse_query q1 = p1 → parse_query q2 = p2 →
       Plugin.imageId path (Plugin.normalize path q1)
       = Plugin.imageId path (Plugin.normalize path q2)).
Proof.
  intros Hsame. split.
  - intros h1 h2. rewrite !runtime_imageId. cbn [Endpoint.path Endpoint.searchParams].
    by apply cache_entry_identifier_stable.
  - intros q1 q2 <- <-. rewrite !plugin_imageId.
    by apply cache_entry_identifier_stable.
Qed.
End Claims.


(** ** Concrete runs *)

Section Runs.
Import Spec Scenario.
#[local] Existing Instance Reference.platform.
#[local] Existing Instance Reference.engine.

(** The scenario of the specification: [/photo.png?w=200&format=webp]. *)
Example photo_identifier :
  Runtime.imageId (Runtime.sort_params (Runtime.default_format photo_request))
  = "photo.e2e83ba6.webp".
Proof. vm_compute. reflexivity. Qed.

Lemma cache_entry_identifier_derivation_witness :
  Runtime.imageId (Runtime.sort_params (Runtime.default_format photo_request))
  = "photo.e2e83ba6.webp"
  ∧ (is_cache_entry_identifier (Endpoint.path photo_request)
       (Endpoint.searchParams photo_request) "photo.e2e83ba6.webp"
     ∧ (∀ query,
          parse_query query = Endpoint.searchParams photo_request →
          Plugin.imageId (Endpoint.path photo_request)
            (Plugin.normalize (Endpoint.path photo_request) query)
          = "photo.e2e83ba6.webp")
     ∧ (∀ options f id',
          Await (OpCacheRead id')
            ∈ trace_of (Runtime.serveImages options photo_request) f
          ∨ Detached (OpCacheWrite id')
              ∈ trace_of (Runtime.serveImages options photo_request) f →
          id' = "photo.e2e83ba6.webp")
     ∧ (∀ options config message f query p,
          JsString.split_query (Plugin.url message)
          = (Endpoint.path photo_request, Some query) →
          parse_query query = Endpoint.searchParams photo_request →
          FsWrite p ∈ trace_of (Plugin.middleware options config message) f →
          ∃ cacheDir,
            Plugin.resolved_cacheDir options config = Some cacheDir
            ∧ p = path_join cacheDir "photo.e2e83ba6.webp")).
Proof.
  assert (Runtime.imageId
            (Runtime.sort_params (Runtime.default_format photo_request))
          = "photo.e2e83ba6.webp") as Hid by (vm_compute; reflexivity).
  split; [exact Hid |].
  exact (cache_entry_identifier_derivation (PF := Reference.platform)
           (IE := Reference.engine) photo_request "photo.e2e83ba6.webp" Hid).
Defined.

(** The parts of that identifier: the canonical parameters, and the
    digest its eight characters are taken from. *)
Example photo_identifier_parts :
  canonical_params "/photo.png" [("w", "200"); ("format", "webp")]
  = [("format", "webp"); ("w", "200")]
  ∧ md5Hex ("/photo.png" +:+ "?"
            +:+ params_toString [("format", "webp"); ("w", "200")])
    = "e2e83ba6f4f4e9dc3056a9da2c4b0495"
  ∧ resolved_format "/photo.png" [("w", "200"); ("format", "webp")] = "webp".
Proof. repeat split; vm_compute; reflexivity. Qed.

Example photo_run :
  trace_of (Runtime.serveImages (serve_options (Some local_cache) None)
              photo_request) empty_disk
  = [Await (OpCacheRead "photo.e2e83ba6.webp"); Await OpLoad;
     Await (OpApplyTransforms [Reference.Reencode "webp"]);
     Detached (OpCacheWrite "photo.e2e83ba6.webp");
     Await OpToBuffer; RespondWith 200]
  ∧ files_after (Runtime.serveImages (serve_options (Some local_cache) None)
                   photo_request) empty_disk
    !! "/srv/node_modules/.images/photo.e2e83ba6.webp" = Some photo_webp.
Proof. split; vm_compute; reflexivity. Qed.

(** The second identical request is answered from the cache, with the
    same bytes. *)
Example second_request_hits_the_cache :
  let first := Runtime.serveImages (serve_options (Some local_cache) None)
                 photo_request in
  trace_of first (disk_after first empty_disk)
  = [Await (OpCacheRead "photo.e2e83ba6.webp"); Await OpToBuffer;
     RespondWith 200]
  ∧ outcome_of first (disk_after first empty_disk)
    = outcome_of first empty_disk.
Proof. cbv zeta. split; vm_compute; reflexivity. Qed.

(** C2, as stated, fails: the sort is by name only and keeps the order
    of the values of a repeated name, so two orders of the same pairs
    give two identifiers. *)
Lemma repeated_name_order_changes_identifier :
  let p1 := [("format", "webp"); ("format", "png")] in
  let p2 := [("format", "png"); ("format", "webp")] in
  let id1 := Runtime.imageId
               (Runtime.sort_params
                  (Runtime.default_format (request "/a.png" p1 ∅))) in
  let id2 := Runtime.imageId
               (Runtime.sort_params
                  (Runtime.default_format (request "/a.png" p2 ∅))) in
  Permutation p1 p2
  ∧ id1 = "a.c15a20ff.webp"
  ∧ id2 = "a.5dc29e6b.png"
  ∧ id1 ≠ id2
  ∧ Plugin.imageId "/a.png"
      (Plugin.normalize "/a.png" "format=webp&format=png")
    ≠ Plugin.imageId "/a.png"
        (Plugin.normalize "/a.png" "format=png&format=webp").
Proof.
  cbv zeta. split; [apply perm_swap |].
  repeat split; vm_compute; (reflexivity || discriminate).
Qed.

(** The same with a repeated width: only the digest tells the two
    orders apart. *)
Example repeated_width_order_changes_identifier :
  Runtime.imageId
    (Runtime.sort_params
       (Runtime.default_format
          (request "/a.png" [("w", "100"); ("w", "200")] ∅)))
  = "a.b6902b5c.png"
  ∧ Runtime.imageId
      (Runtime.sort_params
         (Runtime.default_format
            (request "/a.png" [("w", "200"); ("w", "100")] ∅)))
    = "a.f048049b.png".
Proof. split; vm_compute; reflexivity. Qed.

Lemma identifier_stable_under_reordering_witness :
  (∀ h1 h2,
     Runtime.imageId
       (Runtime.sort_params
          (Runtime.default_format
             (request "/a.png" [("w", "200"); ("format", "webp"); ("h", "100")] h1)))
     = Runtime.imageId
         (Runtime.sort_params
            (Runtime.default_format
               (request "/a.png" [("h", "100"); ("w", "200"); ("format", "webp")] h2))))
  ∧ (∀ q1 q2,
       parse_query q1 = [("w", "200"); ("format", "webp"); ("h", "100")] →
       parse_query q2 = [("h", "100"); ("w", "200"); ("format", "webp")] →
       Plugin.imageId "/a.png" (Plugin.normalize "/a.png" q1)
       = Plugin.imageId "/a.png" (Plugin.normalize "/a.png" q2)).
Proof.
  apply (identifier_stable_under_reordering "/a.png"
           [("w", "200"); ("format", "webp"); ("h", "100")]
           [("h", "100"); ("w", "200"); ("format", "webp")]).
  apply same_values_per_name_b_true. vm_compute. reflexivity.
Defined.

(** C3, as stated, fails twice over. The dev-server middleware never
    looks at [If-None-Match] and computes no ETag: a request whose
    header equals the validator of the very bytes it is sent gets 200.
    And in [serveImages] the headers of [options.headers] are assigned
    over the computed ones, [ETag] included. *)
Lemma conditional_response_counterexample :
  let req := dev_request "/photo.png?format=webp"
               {[ "if-none-match" := etag photo_webp ]} in
  (∃ r,
     outcome_of (Plugin.middleware (dev_options (Some Plugin.CacheDirFalse))
                   dev_config req) empty_disk
     = Ok (Plugin.Responded r)
     ∧ toBuffer (Plugin.piped r) = Ok photo_webp
     ∧ Plugin.headers req !! "if-none-match" = Some (etag photo_webp)
     ∧ Plugin.status r = 200
     ∧ Plugin.response_headers r !! "ETag" = None)
  ∧ (∃ r,
       outcome_of (Runtime.serveImages (serve_options None (Some custom_etag))
                     photo_request) empty_disk
       = Ok (Runtime.Responded r)
       ∧ Runtime.status r = 200
       ∧ Runtime.body r = Some photo_webp
       ∧ Runtime.response_headers r !! "ETag" = Some "custom"
       ∧ etag photo_webp ≠ "custom").
Proof.
  cbv zeta. split.
  - match goal with |- ∃ r, ?run = _ ∧ _ => set (o := run) end.
    vm_compute in o. subst o. eexists. split; [reflexivity |].
    repeat split; vm_compute; reflexivity.
  - match goal with |- ∃ r, ?run = _ ∧ _ => set (o := run) end.
    vm_compute in o. subst o. eexists. split; [reflexivity |].
    repeat split; vm_compute; (reflexivity || discriminate).
Qed.

(** C5, as stated, fails for the middleware: [writeFileSync] is called
    outside any [try], so a failing write ends the handler before a
    response is written. *)
Lemma middleware_cache_write_failure_propagates :
  let req := dev_request "/photo.png?format=webp" ∅ in
  outcome_of (Plugin.middleware (dev_options None) dev_config req) full_disk
  = Throw
  ∧ trace_of (Plugin.middleware (dev_options None) dev_config req) full_disk
    = [FsRead "/srv/node_modules/.images/photo.9e7aa782.webp"; Await OpLoad;
       Await (OpApplyTransforms [Reference.Reencode "webp"]);
       Await OpToBuffer;
       FsWrite "/srv/node_modules/.images/photo.9e7aa782.webp"]
  ∧ (∃ r, outcome_of (Plugin.middleware (dev_options None) dev_config req)
            empty_disk = Ok (Plugin.Responded r)).
Proof.
  cbv zeta. split; [vm_compute; reflexivity |].
  split; [vm_compute; reflexivity |].
  match goal with |- ∃ r, ?run = _ => set (o := run) end.
  vm_compute in o. subst o. eexists. reflexivity.
Qed.

(** On the endpoint the same disk changes nothing in the response. *)
Example serveImages_on_a_full_disk :
  outcome_of (Runtime.serveImages (serve_options (Some local_cache) None)
                photo_request) full_disk
  = outcome_of (Runtime.serveImages (serve_options (Some local_cache) None)
                  photo_request) empty_disk.
Proof. vm_compute. reflexivity. Qed.


Lemma local_read_keeps_undecodable_image_witness :
  fst (Cache.local_read "/srv/node_modules/.images" "photo.e2e83ba6.webp"
         {| fs := corrupt_disk; log := [] |})
  = Ok (Some garbage_handle).
Proof.
  apply (local_read_keeps_undecodable_image (PF := Reference.platform)
           (IE := Reference.engine) "/srv/node_modules/.images"
           "photo.e2e83ba6.webp" {| fs := corrupt_disk; log := [] |}
           garbage garbage_handle).
  - vm_compute. reflexivity.
  - vm_compute. reflexivity.
  - vm_compute. reflexivity.
Defined.

(** With the undecodable entry on disk the endpoint fails where, on a
    miss, it would have served the image. *)
Example undecodable_entry_fails_the_request :
  outcome_of (Runtime.serveImages (serve_options (Some local_cache) None)
                photo_request) corrupt_disk = Throw
  ∧ trace_of (Runtime.serveImages (serve_options (Some local_cache) None)
                photo_request) corrupt_disk
    = [Await (OpCacheRead "photo.e2e83ba6.webp"); Await OpToBuffer]
  ∧ ∃ r, outcome_of (Runtime.serveImages (serve_options (Some local_cache) None)
                       photo_request) empty_disk
         = Ok (Runtime.Responded r).
Proof.
  split; [vm_compute; reflexivity |]. split; [vm_compute; reflexivity |].
  match goal with |- ∃ r, ?run = _ => set (o := run) end.
  vm_compute in o. subst o. eexists. reflexivity.
Qed.

Lemma local_cache_write_then_read_witness :
  let c := Cache.makeLocalImageCache cache_root None in
  let file := path_join (path_resolve cache_root (default "node_modules/.images" None))
                "photo.e2e83ba6.webp" in
  let w := {| fs := empty_disk; log := [] |} in
  let w1 := {| fs := cached_disk;
               log := [Await OpToBuffer; FsWrite photo_entry] |} in
  Cache.write c "photo.e2e83ba6.webp" photo_as_webp w = (Ok tt, w1)
  ∧ ∃ imageData,
      toBuffer photo_as_webp = Ok imageData
      ∧ files (fs w1) !! file = Some imageData
      ∧ ∀ Y Y',
          sharp imageData = Ok Y →
          applyTransforms [] Y None = Ok Y' →
          Cache.read c "photo.e2e83ba6.webp" w1
          = (Ok (Some Y'),
             {| fs := fs w1;
                log := log w1 ++ [FsRead file; Await (OpApplyTransforms [])] |}).
Proof.
  cbv zeta.
  assert (Cache.write (Cache.makeLocalImageCache cache_root None)
            "photo.e2e83ba6.webp" photo_as_webp {| fs := empty_disk; log := [] |}
          = (Ok tt, {| fs := cached_disk;
                       log := [Await OpToBuffer; FsWrite photo_entry] |}))
    as Hwrite by (vm_compute; reflexivity).
  split; [exact Hwrite |].
  exact (local_cache_write_then_read (PF := Reference.platform)
           (IE := Reference.engine) cache_root None "photo.e2e83ba6.webp"
           photo_as_webp _ _ Hwrite).
Defined.

(** On the reference engine the entry of [photo_request] comes back
    with the metadata it was stored with. *)
Example photo_entry_comes_back :
  let c := Cache.makeLocalImageCache cache_root None in
  ∃ Y' w2,
    Cache.read c "photo.e2e83ba6.webp" {| fs := cached_disk; log := [] |}
    = (Ok (Some Y'), w2)
    ∧ same_metadata Y' photo_as_webp.
Proof.
  cbv zeta. eexists _, _. split; [vm_compute; reflexivity |].
  repeat split; vm_compute; reflexivity.
Qed.

(** C8, as stated, fails: the [format] directive records the name it was
    given, and the decoder reports the name of the format it finds. The
    image the handlers compute for [format=jpg] is recorded as [jpg]; the
    image read back from its cache entry is a [jpeg]. *)
Lemma format_alias_is_lost_in_the_cache :
  let c := Cache.makeLocalImageCache cache_root None in
  let source := {| Reference.input := photo_png; Reference.toFormat := None;
                   Reference.attached := None |} in
  let X := photo_as_jpg in
  applyTransforms (generateTransforms [("format", "jpg")] builtinTransforms)
    source (Some false) = Ok X
  ∧ ∃ w1 Y' w2,
      Cache.write c "photo.00c64161.jpg" X {| fs := empty_disk; log := [] |}
      = (Ok tt, w1)
      ∧ Cache.read c "photo.00c64161.jpg" w1 = (Ok (Some Y'), w2)
      ∧ getMetadata X "format" = Some "jpg"
      ∧ getMetadata Y' "format" = Some "jpeg"
      ∧ ¬ same_metadata Y' X.
Proof.
  cbv zeta. split; [vm_compute; reflexivity |].
  eexists _, _, _. split; [vm_compute; reflexivity |].
  split; [vm_compute; reflexivity |].
  split; [vm_compute; reflexivity |].
  split; [vm_compute; reflexivity |].
  intros [Hformat _]. vm_compute in Hformat. discriminate.
Qed.

(** With [format] listed, the same request is served. *)
Example listed_format_is_served :
  ∃ r,
    outcome_of
      (Runtime.serveImages
         (Runtime.with_allow (serve_options None None)
            (Some (Runtime.AllowedParams
                     (<["format" := [Some "png"]]> width_only))))
         (request "/photo.png" [("w", "100")] ∅)) empty_disk
    = Ok (Runtime.Responded r).
Proof.
  match goal with |- ∃ r, ?run = _ => set (o := run) end.
  vm_compute in o. subst o. eexists. reflexivity.
Qed.

(** A hook that promises [false] lets the request through; the same
    answer given plainly does not. *)
Example promised_refusal_is_served :
  (∃ r,
     outcome_of
       (Runtime.serveImages
          (Runtime.with_allow (serve_options None None)
             (Some (Runtime.AllowRequestHook
                      (λ _, Ok (Runtime.PromiseLike (Ok false))))))
          photo_request) empty_disk
     = Ok (Runtime.Responded r))
  ∧ outcome_of
      (Runtime.serveImages
         (Runtime.with_allow (serve_options None None)
            (Some (Runtime.AllowRequestHook (λ _, Ok (Runtime.Plain false)))))
         photo_request) empty_disk
    = Ok (Runtime.PassThrough Runtime.Disallowed).
Proof.
  split; [| vm_compute; reflexivity].
  match goal with |- ∃ r, ?run = _ => set (o := run) end.
  vm_compute in o. subst o. eexists. reflexivity.
Qed.
End Runs.

(** * Further properties of the code *)

(** Membership in a log that is a literal list. *)
Ltac in_log H :=
  repeat (apply elem_of_cons in H as [H | H]; [simplify_eq |]);
  try (by apply elem_of_nil in H).

Ltac unfold_log :=
  repeat first [rewrite elem_of_app | rewrite elem_of_cons
               | rewrite elem_of_nil].

Ltac unfold_log_in H :=
  repeat first [rewrite elem_of_app in H | rewrite elem_of_cons in H
               | rewrite elem_of_nil in H].

Ltac split_or :=
  repeat match goal with
         | H : _ ∨ _ |- _ => destruct H as [H | H]
         | H : ∃ _, _ |- _ => destruct H as [? H]
         | H : _ ∧ _ |- _ => destruct H as [? H]
         end.

(** The disjunct that holds by reflexivity. *)
Ltac pick :=
  solve [ repeat first [left; reflexivity | right];
          first [reflexivity | eexists; reflexivity
                | eexists; split; reflexivity] ].

Ltac at_log :=
  repeat first [apply list_elem_of_here | apply list_elem_of_further].


(** ** Splitting the URL *)

Section SplitQuery.
Import JsString.

Lemma has_line_terminator_cons c s :
  has_line_terminator (String c s) = false → has_line_terminator s = false.
Proof.
  cbn [has_line_terminator]. intros H.
  apply orb_false_iff in H as [_ H]. exact H.
Qed.

(** X1. The two parts [split] yields put the URL back together. With a
    query, the URL is the first part, a question mark and the query, and
    the query is not empty and holds no line terminator; without one the
    first part is the whole URL. In a URL without line terminators the
    split is at the first question mark. *)
Theorem split_query_parts url :
  match split_query url with
  | (uri, Some query) =>
      url = uri +:+ "?" +:+ query
      ∧ query ≠ ""
      ∧ has_line_terminator query = false
      ∧ (has_line_terminator url = false →
         ∀ before after, uri ≠ before +:+ "?" +:+ after)
  | (uri, None) =>
      uri = url
      ∧ ∀ before after,
          url = before +:+ "?" +:+ after →
          after = "" ∨ has_line_terminator after = true
  end.
Proof.
  induction url as [| c rest IH]; cbn [split_query].
  - split; [done |]. intros [| ? ?] ?; discriminate.
  - destruct (Ascii.eqb c "?" && negb (String.eqb rest "")
              && negb (has_line_terminator rest)) eqn:Hhere.
    + apply andb_true_iff in Hhere as [Hhere Hterm].
      apply andb_true_iff in Hhere as [Hc Hrest].
      apply Ascii.eqb_eq in Hc as ->.
      apply negb_true_iff in Hrest, Hterm. apply String.eqb_neq in Hrest.
      split_and!; try done. intros _ [| ? ?] ?; discriminate.
    + destruct (split_query rest) as [uri [query |]].
      * destruct IH as (-> & Hne & Hterm & Hfirst).
        split_and!; try done.
        intros Hurl [| c' before] after; cbn.
        -- intros [= -> Huri].
           cbn [Ascii.eqb Bool.eqb andb] in Hhere.
           apply has_line_terminator_cons in Hurl. rewrite Hurl in Hhere.
           cbn [negb andb] in Hhere.
           apply andb_false_iff in Hhere as [H | H]; [| done].
           apply negb_false_iff, String.eqb_eq in H.
           destruct uri; discriminate.
        -- intros [= -> Huri]. apply has_line_terminator_cons in Hurl.
           by eapply Hfirst.
      * destruct IH as [-> Hnone]. split; [done |].
        intros [| c' before] after; cbn.
        -- intros [= -> ->].
           cbn [Ascii.eqb Bool.eqb andb] in Hhere.
           apply andb_false_iff in Hhere as [H | H].
           ++ left. by apply negb_false_iff, String.eqb_eq in H.
           ++ right. by apply negb_false_iff in H.
        -- intros [= -> ->]. by eapply Hnone.
Qed.

Lemma split_query_without_question_mark url :
  (∀ before after, url ≠ before +:+ "?" +:+ after) →
  split_query url = (url, None).
Proof.
  induction url as [| c rest IH]; [done |]. intros Hnone. cbn [split_query].
  destruct (Ascii.eqb c "?") eqn:Hc.
  - apply Ascii.eqb_eq in Hc as ->. by destruct (Hnone "" rest).
  - cbn [andb]. rewrite IH; [done |].
    intros before after ->. by destruct (Hnone (String c before) after).
Qed.

(** A check that computes. *)
Lemma no_question_mark_check url :
  forallb (λ c, negb (Ascii.eqb c "?")) (String.list_ascii_of_string url)
  = true →
  ∀ before after, url ≠ before +:+ "?" +:+ after.
Proof.
  intros Hall before after ->. revert Hall.
  induction before as [| c before IH]; cbn.
  - discriminate.
  - intros H. apply andb_true_iff in H as [_ H]. by apply IH.
Qed.
End SplitQuery.

(** ** The normalised parameters *)

Section Normalisation.
Context `{PF : Platform} `{IE : ImageEngine}.
Import URLSearchParams Spec.


Lemma sort_sorted_id p : StronglySorted in_order p → sort p = p.
Proof.
  intros Hsorted. symmetry. by apply sort_is_the_stable_sort.
Qed.

Lemma has_sort k p : has k (sort p) = has k p.
Proof.
  destruct (has k p) eqn:Hhas.
  - apply not_false_iff_true. rewrite has_filter, filter_sort, <- has_filter.
    congruence.
  - apply has_filter. rewrite filter_sort. by apply has_filter.
Qed.

Lemma has_app k p q : has k (p ++ q) = has k p || has k q.
Proof. unfold has. apply existsb_app. Qed.

Lemma canonical_params_has_format path p :
  has "format" (canonical_params path p) = true.
Proof.
  unfold canonical_params. rewrite has_sort.
  destruct (has "format" p) eqn:Hhas; [done |].
  rewrite has_app, Hhas. reflexivity.
Qed.

Lemma canonical_params_get_format path p :
  get "format" (canonical_params path p) = Some (resolved_format path p).
Proof.
  unfold canonical_params, resolved_format. rewrite get_sort.
  destruct (has "format" p) eqn:Hhas.
  - by destruct (get_present _ _ Hhas) as [v ->].
  - by rewrite get_app_absent, get_absent.
Qed.

Lemma canonical_params_idempotent path p :
  canonical_params path (canonical_params path p) = canonical_params path p.
Proof.
  unfold canonical_params at 1. rewrite canonical_params_has_format.
  apply sort_sorted_id. apply sort_in_order.
Qed.

Lemma canonical_params_spec path p :
  let defaulted :=
    if has "format" p then p
    else p ++ [("format", JsString.slice_from 1 (extname path))] in
  StronglySorted by_name (canonical_params path p)
  ∧ same_values_per_name (canonical_params path p) defaulted
  ∧ canonical_params path p ≡ₚ defaulted
  ∧ get "format" (canonical_params path p) = Some (resolved_format path p).
Proof.
  cbv zeta. split_and!.
  - apply sort_sorted.
  - intros k. apply filter_sort.
  - apply sort_perm.
  - apply canonical_params_get_format.
Qed.

(** X2. What both handlers make of the parameters before anything is
    derived from them. The path and the headers stay; the parameters are
    those of the request, with [format] set to the extension when the
    request has none, in the order of their names; under each name the
    values keep the order of the request; and [get('format')] is the
    request's first [format] or else the extension. *)
Theorem normalised_parameters :
  (∀ req,
     let req' := Runtime.sort_params (Runtime.default_format req) in
     let p := Endpoint.searchParams req in
     let defaulted :=
       if has "format" p then p
       else p ++ [("format", JsString.slice_from 1 (extname (Endpoint.path req)))] in
     Endpoint.path req' = Endpoint.path req
     ∧ Endpoint.headers req' = Endpoint.headers req
     ∧ StronglySorted by_name (Endpoint.searchParams req')
     ∧ same_values_per_name (Endpoint.searchParams req') defaulted
     ∧ Endpoint.searchParams req' ≡ₚ defaulted
     ∧ get "format" (Endpoint.searchParams req')
       = Some (default (JsString.slice_from 1 (extname (Endpoint.path req)))
                 (get "format" p)))
  ∧ (∀ uri query,
       let p := parse_query query in
       let defaulted :=
         if has "format" p then p
         else p ++ [("format", JsString.slice_from 1 (extname uri))] in
       StronglySorted by_name (Plugin.normalize uri query)
       ∧ same_values_per_name (Plugin.normalize uri query) defaulted
       ∧ Plugin.normalize uri query ≡ₚ defaulted
       ∧ get "format" (Plugin.normalize uri query)
         = Some (default (JsString.slice_from 1 (extname uri))
                   (get "format" p))).
Proof.
  assert (∀ path p, resolved_format path p
                    = default (JsString.slice_from 1 (extname path))
                        (get "format" p)) as Hformat.
  { intros path p. unfold resolved_format. by destruct (get "format" p). }
  split.
  - intros req. cbv zeta.
    rewrite runtime_normalized_params, runtime_normalized_path.
    rewrite <- Hformat.
    split; [done |]. split.
    { unfold Runtime.sort_params, Runtime.default_format.
      by destruct (has "format" (Endpoint.searchParams req)). }
    apply canonical_params_spec.
  - intros uri query. cbv zeta. rewrite <- Hformat.
    unfold Plugin.normalize. rewrite normalized_params.
    apply canonical_params_spec.
Qed.

(** X3. Normalising is idempotent. A request the endpoint has normalised
    (the object is changed in place) is left as it is when it is
    normalised again, and so is a query that parses to parameters the
    middleware has normalised; the identifier derived from the normalised
    parameters is the one derived from the request's. *)
Theorem normalisation_is_idempotent :
  (∀ req,
     let req' := Runtime.sort_params (Runtime.default_format req) in
     Runtime.sort_params (Runtime.default_format req') = req'
     ∧ cache_entry_identifier (Endpoint.path req') (Endpoint.searchParams req')
       = cache_entry_identifier (Endpoint.path req) (Endpoint.searchParams req))
  ∧ (∀ uri query query',
       parse_query query' = Plugin.normalize uri query →
       Plugin.normalize uri query' = Plugin.normalize uri query
       ∧ Plugin.imageId uri (Plugin.normalize uri query')
         = Plugin.imageId uri (Plugin.normalize uri query)).
Proof.
  assert (∀ path p, cache_entry_identifier path (canonical_params path p)
                    = cache_entry_identifier path p) as Hid.
  { intros path p. unfold cache_entry_identifier, canonical_query.
    rewrite canonical_params_idempotent. do 4 f_equal.
    unfold resolved_format at 1. by rewrite canonical_params_get_format. }
  split.
  - intros req. cbv zeta. split.
    + destruct req as [path p headers].
      unfold Runtime.sort_params, Runtime.default_format.
      cbn [Endpoint.path Endpoint.searchParams Endpoint.headers
           Endpoint.with_searchParams].
      destruct (has "format" p) eqn:Hhas;
        cbn [Endpoint.path Endpoint.searchParams Endpoint.headers
             Endpoint.with_searchParams].
      * rewrite has_sort, Hhas.
        cbn [Endpoint.path Endpoint.searchParams Endpoint.headers
             Endpoint.with_searchParams].
        unfold Endpoint.with_searchParams; cbn. f_equal.
        apply sort_sorted_id, sort_in_order.
      * rewrite has_sort. rewrite set_absent by done.
        rewrite has_app, Hhas. cbn [has existsb name_is fst String.eqb orb].
        replace (String.eqb "format" "format") with true by done.
        cbn [orb]. unfold Endpoint.with_searchParams; cbn. f_equal.
        apply sort_sorted_id, sort_in_order.
    + rewrite runtime_normalized_params, runtime_normalized_path. apply Hid.
  - intros uri query query' Hparsed.
    assert (Plugin.normalize uri query' = Plugin.normalize uri query) as Heq.
    { unfold Plugin.normalize at 1. rewrite Hparsed.
      unfold Plugin.normalize. rewrite !normalized_params.
      apply canonical_params_idempotent. }
    split; [exact Heq | by rewrite Heq].
Qed.
End Normalisation.

(** ** More on the image cache *)

Section MoreCacheFacts.
Context `{PF : Platform} `{IE : ImageEngine}.
Import Spec Cache.

(** X4. [read] of the local cache never rejects and never changes the
    files; it returns [undefined] exactly when the file cannot be read or
    [sharp] refuses its bytes. *)
Theorem local_read_absent_exactly_when cacheDir imageId w :
  let file := path_join cacheDir imageId in
  (∃ image, fst (local_read cacheDir imageId w) = Ok image)
  ∧ fs (snd (local_read cacheDir imageId w)) = fs w
  ∧ (fst (local_read cacheDir imageId w) = Ok None
     ↔ fs_read file (fs w) = Throw
       ∨ ∃ data, fs_read file (fs w) = Ok data ∧ sharp data = Throw).
Proof.
  intros file. subst file.
  unfold local_read, bind, catch, ret, lift, await, readFileSync.
  cbn [fst snd fs].
  destruct (fs_read (path_join cacheDir imageId) (fs w)) as [data |] eqn:Hfile;
    cbn [fst snd fs].
  2: { split; [eauto |]. split; [done |]. split; [by left | done]. }
  destruct (sharp data) as [image |] eqn:Hsharp; cbn [fst snd fs].
  2: { split; [eauto |]. split; [done |]. split; [| done].
       intros _. right. eauto. }
  destruct (applyTransforms [] image None); cbn [fst snd fs];
    (split; [eauto |]); (split; [done |]);
    (split; [done |]); intros [? | (data' & ? & ?)]; congruence.
Qed.

(** [read] by what is on disk. *)
Lemma local_read_cases cacheDir imageId w :
  fs (snd (local_read cacheDir imageId w)) = fs w
  ∧ match fs_read (path_join cacheDir imageId) (fs w) with
    | Ok data =>
        match sharp data with
        | Ok image =>
            ∃ image', fst (local_read cacheDir imageId w) = Ok (Some image')
        | Throw => fst (local_read cacheDir imageId w) = Ok None
        end
    | Throw => fst (local_read cacheDir imageId w) = Ok None
    end.
Proof.
  unfold local_read, bind, catch, ret, lift, await, readFileSync.
  cbn [fst snd fs].
  destruct (fs_read (path_join cacheDir imageId) (fs w)) as [data |];
    cbn [fst snd fs]; [| done].
  destruct (sharp data) as [image |]; cbn [fst snd fs]; [| done].
  destruct (applyTransforms [] image None); cbn [fst snd fs]; eauto.
Qed.

Lemma local_write_run cacheDir imageId image w :
  local_write cacheDir imageId image w
  = match toBuffer image with
    | Ok imageData =>
        if writable (fs w)
        then (Ok tt,
              {| fs := {| files := <[path_join cacheDir imageId := imageData]>
                                     (files (fs w));
                          writable := true; torn := torn (fs w) |};
                 log := log w ++ [Await OpToBuffer]
                          ++ [FsWrite (path_join cacheDir imageId)] |})
        else (Throw,
              {| fs := match torn (fs w) with
                       | None => fs w
                       | Some n =>
                           {| files := <[path_join cacheDir imageId
                                           := take n imageData]> (files (fs w));
                              writable := false; torn := torn (fs w) |}
                       end;
                 log := log w ++ [Await OpToBuffer]
                          ++ [FsWrite (path_join cacheDir imageId)] |})
    | Throw => (Throw, {| fs := fs w; log := log w ++ [Await OpToBuffer] |})
    end.
Proof.
  unfold local_write, bind, lift, await, writeFileSync, fs_write.
  cbn [fst snd fs log]. destruct (toBuffer image); cbn [fst snd fs log]; [| done].
  destruct (writable (fs w)); [by rewrite <- app_assoc |].
  destruct (torn (fs w)); by rewrite <- app_assoc.
Qed.

(** X5. [write] of the local cache changes no file but its own entry. It
    changes nothing when the encoding fails. When the write to the file
    fails, the disk is as it was, or else the file was opened, and so
    truncated, and the entry holds the bytes of the encoding that were
    written before the failure. *)
Theorem local_write_touches_its_entry_only cacheDir imageId image w p :
  p ≠ path_join cacheDir imageId →
  files (fs (snd (local_write cacheDir imageId image w))) !! p
  = files (fs w) !! p
  ∧ (toBuffer image = Throw →
     fs (snd (local_write cacheDir imageId image w)) = fs w)
  ∧ (fst (local_write cacheDir imageId image w) = Throw →
     fs (snd (local_write cacheDir imageId image w)) = fs w
     ∨ ∃ imageData n,
         toBuffer image = Ok imageData
         ∧ torn (fs w) = Some n
         ∧ files (fs (snd (local_write cacheDir imageId image w)))
             !! path_join cacheDir imageId
           = Some (take n imageData)).
Proof.
  intros Hother. rewrite local_write_run.
  destruct (toBuffer image) as [imageData |];
    [| split; [done | split; [done | by left]]].
  destruct (writable (fs w)); cbn [fst snd fs files].
  { split; [by rewrite lookup_insert_ne | done]. }
  destruct (torn (fs w)) as [n |]; cbn [files].
  - split; [by rewrite lookup_insert_ne |]. split; [done |].
    intros _. right. exists imageData, n.
    split; [done |]. split; [done |]. apply lookup_insert_eq.
  - split; [done |]. split; [done |]. by left.
Qed.

(** X6. The last writer wins. After two writes under one identifier that
    both went through, the entry holds the encoding of the second image;
    writing images with the same encoding twice leaves the disk as
    writing once. *)
Theorem local_write_last_writer_wins cacheDir imageId X Y w w1 w2 :
  local_write cacheDir imageId X w = (Ok tt, w1) →
  local_write cacheDir imageId Y w1 = (Ok tt, w2) →
  (∃ imageData,
     toBuffer Y = Ok imageData
     ∧ files (fs w2) !! path_join cacheDir imageId = Some imageData)
  ∧ (toBuffer X = toBuffer Y → fs w2 = fs w1).
Proof.
  rewrite !local_write_run. intros H1 H2.
  destruct (toBuffer X) as [bx |] eqn:HX; [| done].
  destruct (writable (fs w)); [| done]. injection H1 as <-.
  cbn [fs writable files] in H2.
  destruct (toBuffer Y) as [by' |] eqn:HY; [| done].
  injection H2 as <-. cbn [fs files]. split.
  - exists by'. split; [done |]. apply lookup_insert_eq.
  - intros [= ->]. by rewrite insert_insert_eq.
Qed.

End MoreCacheFacts.


(** ** The allow-list *)

Section AllowList.
Context `{PF : Platform} `{IE : ImageEngine}.
Import URLSearchParams Endpoint Runtime.

Lemma includes_true x l : includes x l = true ↔ x ∈ l.
Proof. unfold includes. apply bool_decide_eq_true. Qed.

Lemma property_own allowedParams name values :
  property allowedParams name = Own values ↔ allowedParams !! name = Some values.
Proof.
  unfold property. destruct (allowedParams !! name); [| case_bool_decide];
    split; congruence.
Qed.

Lemma property_inherited allowedParams name :
  property allowedParams name = Inherited
  ↔ allowedParams !! name = None ∧ name ∈ object_prototype_names.
Proof.
  unfold property. destruct (allowedParams !! name).
  - split; [done | by intros [? _]].
  - case_bool_decide; (split; [done | by intros [_ ?]]).
Qed.

Lemma entries_allowed_true allowedParams entries :
  entries_allowed allowedParams entries = Ok true
  ↔ ∀ name value, (name, value) ∈ entries →
      ∃ values, allowedParams !! name = Some values ∧ Some value ∈ values.
Proof.
  induction entries as [| [n v] entries IH]; cbn [entries_allowed].
  - split; [| done]. intros _ name value Hin. by apply elem_of_nil in Hin.
  - destruct (property allowedParams n) as [values | |] eqn:Hproperty.
    + apply property_own in Hproperty.
      destruct (includes (Some v) values) eqn:Hinc; cbn [negb].
      * rewrite IH. apply includes_true in Hinc. split.
        -- intros Hrest name value [[= -> ->] | Hin]%elem_of_cons; eauto.
        -- intros Hall name value Hin. apply Hall. by right.
      * split; [done |]. intros Hall.
        destruct (Hall n v) as (values' & Hv & Hin); [by left |].
        assert (values' = values) as -> by congruence.
        apply includes_true in Hin. congruence.
    + split; [done |]. intros Hall.
      destruct (Hall n v) as (values' & Hv & _); [by left |].
      apply property_own in Hv. congruence.
    + split; [done |]. intros Hall.
      destruct (Hall n v) as (values' & Hv & _); [by left |].
      apply property_own in Hv. congruence.
Qed.

(** The loop throws exactly when it comes to a name that is inherited
    and not listed before it has refused a pair. *)
Lemma entries_allowed_throws allowedParams entries :
  entries_allowed allowedParams entries = Throw
  ↔ ∃ before name value after,
      entries = before ++ (name, value) :: after
      ∧ (∀ n v, (n, v) ∈ before →
           ∃ values, allowedParams !! n = Some values ∧ Some v ∈ values)
      ∧ allowedParams !! name = None
      ∧ name ∈ object_prototype_names.
Proof.
  induction entries as [| [n v] entries IH]; cbn [entries_allowed].
  - split; [done |]. intros (before & name & value & after & H & _).
    by destruct before.
  - destruct (property allowedParams n) as [values | |] eqn:Hproperty.
    + apply property_own in Hproperty.
      destruct (includes (Some v) values) eqn:Hinc; cbn [negb].
      * rewrite IH. apply includes_true in Hinc. split.
        -- intros (before & name & value & after & -> & Hbefore & Hname).
           exists ((n, v) :: before), name, value, after.
           split; [done |]. split; [| done].
           intros n' v' [[= -> ->] | Hin]%elem_of_cons; eauto.
        -- intros (before & name & value & after & Heq & Hbefore & Hnone & Hname).
           destruct before as [| e before]; simplify_eq/=.
           exists before, name, value, after. split; [done |].
           split; [| done]. intros n' v' Hin. apply Hbefore. by right.
      * split; [done |].
        intros (before & name & value & after & Heq & Hbefore & Hnone & Hname).
        destruct before as [| e before]; simplify_eq/=.
        destruct (Hbefore n v) as (values' & Hv & Hin); [by left |].
        assert (values' = values) as -> by congruence.
        apply includes_true in Hin. congruence.
    + apply property_inherited in Hproperty as [Hnone Hname].
      split; [| done]. intros _. exists [], n, v, entries.
      split; [done |]. split; [| done].
      intros n' v' Hin. by apply elem_of_nil in Hin.
    + split; [done |].
      intros (before & name & value & after & Heq & Hbefore & Hnone & Hname).
      destruct before as [| e before]; simplify_eq/=.
      * assert (property allowedParams name = Inherited) as Hinherited
          by by apply property_inherited.
        congruence.
      * destruct (Hbefore n v) as (values' & Hv & _); [by left |].
        apply property_own in Hv. congruence.
Qed.

Lemma entries_allowed_app allowedParams p q :
  entries_allowed allowedParams (p ++ q)
  = match entries_allowed allowedParams p with
    | Ok true => entries_allowed allowedParams q
    | refused => refused
    end.
Proof.
  induction p as [| [name value] p IH]; [done |].
  cbn [app entries_allowed]. destruct (property allowedParams name); try done.
  by destruct (negb (includes (Some value) values)).
Qed.

Lemma names_present_true allowedParams p :
  names_present allowedParams p = true
  ↔ ∀ name values, allowedParams !! name = Some values →
      None ∈ values ∨ has name p = true.
Proof.
  unfold names_present. rewrite forallb_forall. split.
  - intros Hall name values Hlookup.
    apply elem_of_map_to_list, list_elem_of_In in Hlookup.
    specialize (Hall _ Hlookup). cbn in Hall.
    destruct (includes None values) eqn:Hinc; cbn in Hall.
    + left. by apply includes_true.
    + right. by destruct (has name p).
  - intros Hall [name values] Hin.
    apply list_elem_of_In, elem_of_map_to_list in Hin.
    destruct (Hall _ _ Hin) as [Hnull | Hhas].
    + apply includes_true in Hnull. by rewrite Hnull.
    + rewrite Hhas. cbn. by rewrite andb_false_r.
Qed.

(** X7. What an allow-list object lets through. The check accepts a request
    exactly when every pair of its search parameters has a listed name
    with its value among the values listed for it, and every listed name
    is either present in the request or lists [null]. *)
Theorem allow_list_accepts_exactly allowedParams req :
  allow_list allowedParams req = Ok true
  ↔ (∀ name value, (name, value) ∈ searchParams req →
       ∃ values, allowedParams !! name = Some values ∧ Some value ∈ values)
    ∧ (∀ name values, allowedParams !! name = Some values →
         None ∈ values ∨ has name (searchParams req) = true).
Proof.
  unfold allow_list, entries.
  rewrite <- entries_allowed_true, <- names_present_true.
  destruct (entries_allowed allowedParams (searchParams req)) as [[|] |].
  - split; [intros [= ->]; by split | intros [_ ->]; done].
  - split; [done | by intros [? _]].
  - split; [done | by intros [? _]].
Qed.

(** C10. What the code does where the claim fails. The [format]
    parameter is put in place before the allow check. For an image
    request that brings none, an allow-list without a [format] key, or
    whose [format] values do not include the extension, never lets the
    request through: the handler leaves it to the next one, except when
    the first loop comes to a parameter whose name is not listed and is
    the name of a property every object inherits. Then the check throws
    and the handler rejects. In both cases nothing has been done. *)
Theorem defaulted_format_is_checked options allowedParams req w :
  allow options = Some (AllowedParams allowedParams) →
  isImage (path req) = true →
  has "format" (searchParams req) = false →
  (allowedParams !! "format" = None
   ∨ ∃ values, allowedParams !! "format" = Some values
               ∧ Some (JsString.slice_from 1 (extname (path req))) ∉ values) →
  (serveImages options req w = (Ok (PassThrough Disallowed), w)
   ∨ serveImages options req w = (Throw, w))
  ∧ (serveImages options req w = (Throw, w)
     ↔ ∃ before name value after,
         searchParams req = before ++ (name, value) :: after
         ∧ (∀ n v, (n, v) ∈ before →
              ∃ values, allowedParams !! n = Some values ∧ Some v ∈ values)
         ∧ allowedParams !! name = None
         ∧ name ∈ object_prototype_names).
Proof.
  intros Hallow Himage Hformat Hlist.
  rewrite <- entries_allowed_throws.
  unfold serveImages. rewrite Himage, Hallow. cbn [negb].
  unfold bind, lift, ret, call_allow, allow_list, default_format.
  rewrite Hformat. cbn [searchParams with_searchParams].
  rewrite set_absent by done. unfold entries. rewrite entries_allowed_app.
  assert (entries_allowed allowedParams
            [("format", JsString.slice_from 1 (extname (path req)))]
          = Ok false) as Hdefault.
  { cbn [entries_allowed]. unfold property.
    destruct Hlist as [-> | (values & -> & Hnotin)].
    - rewrite bool_decide_eq_false_2; [done |].
      unfold object_prototype_names. set_solver.
    - unfold includes. by rewrite bool_decide_eq_false_2. }
  rewrite Hdefault.
  destruct (entries_allowed allowedParams (searchParams req)) as [[|] |];
    cbn [negb].
  - split; [by left |]. split; intros; discriminate.
  - split; [by left |]. split; intros; discriminate.
  - split; [by right | done].
Qed.

End AllowList.

(** ** More on the endpoint *)

Section MoreServeImages.
Context `{PF : Platform} `{IE : ImageEngine}.
Import URLSearchParams Spec Endpoint Runtime.

(** The handler, phase by phase. *)
Lemma serveImages_cases options req w :
  let req' := sort_params (default_format req) in
  let imageId := cache_entry_identifier (path req) (searchParams req) in
  serveImages options req w
  = if isImage (path req) then
      match match allow options with
            | Some a => call_allow a (default_format req)
            | None => Ok true
            end with
      | Throw => (Throw, w)
      | Ok false => (Ok (PassThrough Disallowed), w)
      | Ok true =>
          let '(cached, w1) :=
            match cache options with
            | Some c => await (OpCacheRead imageId) (Cache.read c imageId) w
            | None => (Ok None, w)
            end in
          match cached with
          | Throw => (Throw, w1)
          | Ok (Some image) => respond options req' image w1
          | Ok None =>
              let '(fresh, w2) :=
                fresh_image options req' (resolveConfigs (searchParams req'))
                  imageId w1 in
              match fresh with
              | Throw => (Throw, w2)
              | Ok (inl outcome) => (Ok outcome, w2)
              | Ok (inr image) => respond options req' image w2
              end
          end
      end
    else (Ok (PassThrough NotAnImage), w).
Proof.
  intros req' imageId. subst req' imageId.
  unfold serveImages. rewrite runtime_imageId.
  destruct (isImage (path req)); cbn [negb]; [| done].
  unfold bind, lift, ret, await.
  destruct (allow options) as [a |].
  - destruct (call_allow a (default_format req)) as [[|] |]; cbn [negb]; try done.
    destruct (cache options). all: repeat case_match; simplify_eq/=. all: done.
  - cbn [negb]. destruct (cache options).
    all: repeat case_match; simplify_eq/=. all: done.
Qed.

(** What [respond] does: it awaits the buffer, perhaps the headers hook,
    and responds; it passes nothing on and leaves the files alone. *)
Lemma respond_run options req image w :
  ∃ evs,
    snd (respond options req image w)
    = {| fs := fs w; log := log w ++ Await OpToBuffer :: evs |}
    ∧ match fst (respond options req image w) with
      | Ok (Responded r) =>
          (∃ imageBuffer,
             toBuffer image = Ok imageBuffer
             ∧ (status r = 200 ∧ body r = Some imageBuffer
                ∨ status r = 304 ∧ body r = None))
          ∧ (evs = [RespondWith (status r)]
             ∨ evs = [Await OpHook; RespondWith (status r)])
      | Ok (PassThrough _) => False
      | Throw => evs = [] ∨ evs = [Await OpHook]
      end.
Proof.
  unfold respond, bind, ret, lift, await, emit. cbn [fst snd fs log].
  repeat (case_match; cbn [fst snd fs log] in *; simplify_eq);
    rewrite <- ?app_assoc; cbn [app fst snd status body];
    eexists; (split; [reflexivity |]); eauto 10.
Qed.

(** The only way out of [fresh_image] without an image is a loader that
    returns nothing; nothing has been written by then. *)
Lemma fresh_image_without_image options req imageConfig imageId w outcome w' :
  fresh_image options req imageConfig imageId w = (Ok (inl outcome), w') →
  outcome = PassThrough NoSource
  ∧ load options req = Ok None
  ∧ w' = {| fs := fs w; log := log w ++ [Await OpLoad] |}.
Proof.
  unfold fresh_image, bind, ret, lift, await, detach.
  cbn [fst snd fs log].
  repeat (case_match; cbn [fst snd fs log] in *; simplify_eq); by intros [= <- <-].
Qed.

Lemma fresh_image_no_source options req imageConfig imageId w :
  load options req = Ok None →
  fresh_image options req imageConfig imageId w
  = (Ok (inl (PassThrough NoSource)),
     {| fs := fs w; log := log w ++ [Await OpLoad] |}).
Proof.
  intros Hload. unfold fresh_image, bind, ret, lift, await.
  by rewrite Hload.
Qed.

(** What [fresh_image] logs: the load, perhaps the [removeExifData] hook,
    one run of the transformations, and the cache write it starts once
    it has the image. *)
Lemma fresh_image_log options req imageConfig imageId w :
  let transforms :=
    match imageConfig with
    | Some imageConfig => generateTransforms imageConfig (factories options)
    | None => []
    end in
  ∃ evs,
    log (snd (fresh_image options req imageConfig imageId w))
    = log w ++ Await OpLoad :: evs
    ∧ (∀ e, e ∈ evs →
            e = Await OpHook
            ∨ e = Await (OpApplyTransforms transforms)
            ∨ e = Detached (OpCacheWrite imageId))
    ∧ (Detached (OpCacheWrite imageId) ∈ evs
       ↔ cache options ≠ None
         ∧ ∃ image,
             fst (fresh_image options req imageConfig imageId w)
             = Ok (inr image)).
Proof.
  intros transforms. subst transforms.
  unfold fresh_image, bind, ret, lift, await, detach. cbn [fst snd fs log].
  repeat (case_match; cbn [fst snd fs log] in *; simplify_eq);
    rewrite <- ?app_assoc; cbn [app fst snd];
    eexists; (split; [reflexivity |]);
    (split; [intros e He; in_log He; eauto |]);
    (split; [intros He; in_log He; try done; eauto
            | intros [? [? ?]]; try done; at_log]).
Qed.


(** The files after [fresh_image] are those the cache write leaves, if
    one was started, and otherwise those before. *)
Lemma fresh_image_fs options req imageConfig imageId w :
  ∃ w',
    fs w' = fs w
    ∧ fs (snd (fresh_image options req imageConfig imageId w))
      = match cache options,
              fst (fresh_image options req imageConfig imageId w) with
        | Some c, Ok (inr image) => fs (snd (Cache.write c imageId image w'))
        | _, _ => fs w
        end.
Proof.
  unfold fresh_image, bind, ret, lift, await, detach. cbn [fst snd fs log].
  repeat (case_match; cbn [fst snd fs log] in *; simplify_eq);
    try (by exists w);
    eexists {| fs := fs w; log := _ |}; (split; [reflexivity |]);
    match goal with H : Cache.write _ _ _ _ = _ |- _ => by rewrite H end.
Qed.

Ltac serve_start :=
  let a := fresh "a" in
  rewrite serveImages_cases; cbv zeta;
  destruct (isImage (path _)) eqn:Himage;
  [ destruct (allow _) as [a |] eqn:Hallow;
    [ destruct (call_allow a _) as [[|] |] eqn:Hcall |];
    [ | cbn [fst snd fs log] | cbn [fst snd fs log] | ]
  | cbn [fst snd fs log] ].

Ltac cache_phase :=
  lazymatch goal with
  | |- context [match cache ?o with Some _ => _ | None => _ end] =>
      let c := fresh "c" in
      let cached := fresh "cached" in
      let w1 := fresh "w1" in
      destruct (cache o) as [c |] eqn:Hcache; unfold await;
      [ destruct (Cache.read c _ _) as [[[cached |] |] w1] eqn:Hread |];
      cbn [fst snd fs log]
  end.

Ltac fresh_phase :=
  lazymatch goal with
  | |- context [fresh_image ?o ?r ?c ?i ?w] =>
      let evs := fresh "evs1" in
      let w2 := fresh "w2" in
      let image := fresh "image" in
      let w' := fresh "w'" in
      destruct (fresh_image_log o r c i w) as (evs & Hlog1 & Hevs1 & Hwrite1);
      destruct (fresh_image_fs o r c i w) as (w' & Hfs' & Hfs1);
      try match goal with H : cache _ = _ |- _ => rewrite H in Hfs1 end;
      destruct (fresh_image o r c i w) as [[[? | image] |] w2] eqn:Hfresh;
      cbn [fst snd fs log] in Hlog1, Hwrite1, Hfs', Hfs1 |- *;
      [ apply fresh_image_without_image in Hfresh as (-> & Hload & ->)
      | assert (load o r ≠ Ok None) as Hload
          by (intros Hload; by rewrite fresh_image_no_source in Hfresh)
      | assert (load o r ≠ Ok None) as Hload
          by (intros Hload; by rewrite fresh_image_no_source in Hfresh) ];
      cbn [fst snd fs log] in Hlog1, Hwrite1 |- *
  end.

Ltac respond_phase :=
  lazymatch goal with
  | |- context [respond ?o ?r ?i ?w] =>
      let evs := fresh "evs" in
      let Hsnd := fresh "Hsnd" in
      let r' := fresh "r" in
      let w3 := fresh "w3" in
      destruct (respond_run o r i w) as (evs & Hsnd & Hfst);
      destruct (respond o r i w) as [[[? | r'] |] w3];
      cbn [fst snd fs log] in Hsnd, Hfst |- *; [done | |]; subst w3;
      cbn [fst snd fs log]
  end.

Ltac respond_events :=
  try match goal with
      | Hfst : _ ∧ (_ = [_] ∨ _ = [_; _]) |- _ =>
          destruct Hfst as [Hbuf [-> | ->]]
      | Hfst : _ = [] ∨ _ = [_] |- _ => destruct Hfst as [-> | ->]
      end.

(** Every way through the handler, with what each phase established. *)
Ltac serve_run :=
  serve_start; try cache_phase; try fresh_phase; try respond_phase.

(** X8. When the endpoint declines at once. It leaves a request to the
    next handler as not an image exactly when [isImage] rejects the path,
    and as not allowed exactly when the path is an image and [allow]
    returns [false] for the request with its [format] defaulted; in both
    cases nothing has been read, written or logged. *)
Theorem serveImages_early_refusal options req w :
  (fst (serveImages options req w) = Ok (PassThrough NotAnImage)
   ↔ isImage (path req) = false)
  ∧ (fst (serveImages options req w) = Ok (PassThrough Disallowed)
     ↔ isImage (path req) = true
       ∧ ∃ a, allow options = Some a
              ∧ call_allow a (default_format req) = Ok false)
  ∧ (∀ why, fst (serveImages options req w) = Ok (PassThrough why) →
            why ≠ NoSource → snd (serveImages options req w) = w).
Proof.
  serve_run; split_and!; try done; try (split; [done |]).
  all: try (intros (_ & ? & [= <-] & ?); congruence).
  all: try (intros ? [= <-]; congruence).
  all: try (intros (? & _); done).
  all: split; [intros _; split; [done |]; eauto | done].
Qed.

(** X9. The endpoint finds no source exactly when the path is an image,
    [allow] does not refuse, the cache (if any) has no entry and [load]
    returns nothing for the normalised request. By then it has awaited
    the cache read and the load, and nothing else. *)
Theorem serveImages_no_source options req w :
  let req' := sort_params (default_format req) in
  let imageId := cache_entry_identifier (path req) (searchParams req) in
  (fst (serveImages options req w) = Ok (PassThrough NoSource)
   ↔ isImage (path req) = true
     ∧ passes_allow options req
     ∧ (∀ c, cache options = Some c → fst (Cache.read c imageId w) = Ok None)
     ∧ load options req' = Ok None)
  ∧ (fst (serveImages options req w) = Ok (PassThrough NoSource) →
     log (snd (serveImages options req w))
     = log w
       ++ match cache options with
          | Some _ => [Await (OpCacheRead imageId)]
          | None => []
          end
       ++ [Await OpLoad]).
Proof.
  unfold passes_allow. cbv zeta.
  serve_run; rewrite ?Hallow; split; try done.
  all: try (by rewrite <- app_assoc).
  all: split; try done.
  all: try (intros (_ & ? & Hnone & ?); try done;
            specialize (Hnone _ eq_refl); rewrite Hread in Hnone; done).
  all: try (intros (_ & ? & _); congruence).
  all: try (intros (? & _); done).
  all: intros _; split_and!; try done.
  all: by intros ? [= <-]; rewrite Hread.
Qed.


(** X10. A response is sent exactly when the handler resolves with one,
    and its status is 200 or 304. A handler that rejects or passes the
    request on has not responded. *)
Theorem serveImages_responds_iff options req f :
  (∀ s, RespondWith s ∈ trace_of (serveImages options req) f
        ↔ ∃ r, outcome_of (serveImages options req) f = Ok (Responded r)
               ∧ status r = s)
  ∧ (∀ r, outcome_of (serveImages options req) f = Ok (Responded r) →
          status r = 200 ∨ status r = 304).
Proof.
  unfold trace_of, outcome_of.
  serve_run; respond_events; rewrite ?Hlog1; cbn [log app].
  all: split;
    [ intros s; unfold_log; split;
      [ intros He;
        repeat match goal with
               | H : _ ∨ _ |- _ => destruct H as [H | H]
               end;
        simplify_eq; try done; eauto;
        pose proof (Hevs1 _ He) as [? | [? | ?]]; done
      | intros (r0 & Hr & <-); simplify_eq; pick ]
    | intros r0 Hr; simplify_eq;
      destruct Hbuf as (? & _ & [[? _] | [? _]]); eauto ].
Qed.


(** X11. A cache hit. When the cache returns an image, the handler goes
    straight to the response: it loads no source, runs no transformation
    and starts no cache write, and a response it gives is built from the
    buffer of the cached image. *)
Theorem serveImages_cache_hit options req w c image w1 :
  let imageId := cache_entry_identifier (path req) (searchParams req) in
  isImage (path req) = true →
  passes_allow options req →
  cache options = Some c →
  Cache.read c imageId w = (Ok (Some image), w1) →
  (∃ evs,
     log (snd (serveImages options req w))
     = log w ++ Await (OpCacheRead imageId) :: Await OpToBuffer :: evs
     ∧ ∀ e, e ∈ evs → e = Await OpHook ∨ ∃ s, e = RespondWith s)
  ∧ fs (snd (serveImages options req w)) = fs w1
  ∧ ∀ r, fst (serveImages options req w) = Ok (Responded r) →
         ∃ imageBuffer,
           toBuffer image = Ok imageBuffer
           ∧ (status r = 200 ∧ body r = Some imageBuffer
              ∨ status r = 304 ∧ body r = None).
Proof.
  unfold passes_allow. cbv zeta.
  serve_run; respond_events; intros ? ? ? Hread'; simplify_eq;
    rewrite Hread in Hread'; simplify_eq.
  all: rewrite <- ?app_assoc; cbn [app].
  all: split; [eexists; split; [reflexivity |]; intros e He; in_log He; eauto |].
  all: split; [done |]; intros r0 Hr; simplify_eq; done.
Qed.

(** X12. Without a cache the endpoint never touches the disk, and all it
    does is await the load, the hooks, the transformations and the
    encoding, and respond. *)
Theorem serveImages_without_cache options req w :
  let run := serveImages (with_cache options None) req w in
  fs (snd run) = fs w
  ∧ ∃ evs,
      log (snd run) = log w ++ evs
      ∧ ∀ e, e ∈ evs →
             e = Await OpLoad ∨ e = Await OpHook
             ∨ (∃ transforms, e = Await (OpApplyTransforms transforms))
             ∨ e = Await OpToBuffer ∨ ∃ s, e = RespondWith s.
Proof.
  cbv zeta. serve_run; respond_events; try discriminate Hcache.
  all: rewrite ?Hlog1, <- ?app_assoc; cbn [app].
  all: split; [done |].
  all: first [ exists []; split; [by rewrite app_nil_r
                                 | by intros e He%elem_of_nil]
             | eexists; split; [reflexivity |] ].
  all: intros e He; unfold_log_in He.
  all: cbn [cache with_cache] in *.
  all: repeat match goal with
              | H : _ ∨ _ |- _ => destruct H as [H | H]
              end; subst; try done; eauto 8.
  all: pose proof (Hevs1 _ He) as [-> | [-> | ->]]; eauto 8.
  all: apply Hwrite1 in He as [? _]; done.
Qed.


(** With the local cache on a writable disk, a request that was answered
    leaves its entry on disk: the one that was there on a hit, the
    encoding of the image just computed on a miss, and no other file is
    changed. *)
Lemma serveImages_local_cache_entry options req root dir f r :
  let imageId := cache_entry_identifier (path req) (searchParams req) in
  let file :=
    path_join (path_resolve root (default "node_modules/.images" dir))
      imageId in
  let run := serveImages options req in
  cache options = Some (Cache.makeLocalImageCache root dir) →
  writable f = true →
  outcome_of run f = Ok (Responded r) →
  (∃ imageBuffer, files_after run f !! file = Some imageBuffer)
  ∧ (Detached (OpCacheWrite imageId) ∈ trace_of run f →
     ∃ imageBuffer,
       files_after run f !! file = Some imageBuffer
       ∧ (status r = 200 ∧ body r = Some imageBuffer
          ∨ status r = 304 ∧ body r = None))
  ∧ ∀ p, p ≠ file → files_after run f !! p = files f !! p.
Proof.
  cbv zeta. unfold outcome_of, trace_of, files_after, disk_after.
  serve_run; intros Hlocal Hwritable Hout; simplify_eq.
  all: cbn [Cache.read Cache.write Cache.makeLocalImageCache] in *.
  all: match goal with
       | H : Cache.local_read ?d ?i ?w = _ |- _ =>
           destruct (local_read_cases d i w) as [Hrfs Hrcases];
           rewrite H in Hrfs, Hrcases; cbn [fst snd fs] in Hrfs, Hrcases
       end.
  (* a hit: the entry was there; a miss: the entry is written *)
  all: first
    [ rewrite Hrfs;
      destruct (fs_read _ f) as [data |] eqn:Hfile; [| discriminate Hrcases];
      unfold fs_read in Hfile;
      destruct (files f !! _) eqn:Hlookup; [| done];
      (split; [eauto |]); (split; [| done]);
      respond_events; cbn [log app]; intros He; by in_log He
    | destruct Hfst as [(imageBuffer & Hbuffer & Hstatus) _];
      rewrite local_write_run, Hbuffer, Hfs', Hrfs, Hwritable in Hfs1;
      cbn [snd fs] in Hfs1; rewrite Hfs1; cbn [files];
      (split; [exists imageBuffer; apply lookup_insert_eq |]);
      split;
      [ intros _; exists imageBuffer; split; [apply lookup_insert_eq | done]
      | intros p Hp; by rewrite lookup_insert_ne ] ].
Qed.

(** X13. A miss fills the local cache. When the endpoint, with the local
    cache on a writable disk, has computed an image and answered, the
    entry of the request's identifier holds the encoded image, the bytes
    of the body of a 200 response, and no other file has changed. *)
Theorem serveImages_miss_fills_local_cache options req root dir f r :
  let imageId := cache_entry_identifier (path req) (searchParams req) in
  let file :=
    path_join (path_resolve root (default "node_modules/.images" dir))
      imageId in
  let run := serveImages options req in
  cache options = Some (Cache.makeLocalImageCache root dir) →
  writable f = true →
  outcome_of run f = Ok (Responded r) →
  Detached (OpCacheWrite imageId) ∈ trace_of run f →
  (∃ imageBuffer,
     files_after run f !! file = Some imageBuffer
     ∧ (status r = 200 ∧ body r = Some imageBuffer
        ∨ status r = 304 ∧ body r = None))
  ∧ ∀ p, p ≠ file → files_after run f !! p = files f !! p.
Proof.
  intros imageId file run Hlocal Hwritable Hout Hmiss.
  destruct (serveImages_local_cache_entry options req root dir f r
              Hlocal Hwritable Hout) as (_ & Hentry & Hframe).
  split; [by apply Hentry | exact Hframe].
Qed.




(** X15. Which transformations run. The transformations the endpoint
    awaits are those generated from the configuration the normalised
    parameters resolve to, with the built-in factories followed by
    [options.transforms], or none when there is no configuration; and
    they only run on a source that was loaded. *)
Theorem serveImages_transforms options req f transforms :
  Await (OpApplyTransforms transforms) ∈ trace_of (serveImages options req) f →
  transforms
  = match resolveConfigs (canonical_params (path req) (searchParams req)) with
    | Some imageConfig =>
        generateTransforms imageConfig
          (builtinTransforms ++ default [] (Runtime.transforms options))
    | None => []
    end
  ∧ Await OpLoad ∈ trace_of (serveImages options req) f.
Proof.
  unfold trace_of. rewrite <- runtime_normalized_params.
  serve_run; respond_events; rewrite ?Hlog1; cbn [log app]; intros He.
  all: unfold_log_in He.
  all: repeat match goal with
              | H : _ ∨ _ |- _ => destruct H as [H | H]
              end; simplify_eq; try done.
  all: pose proof (Hevs1 _ He) as [? | [[= ->] | ?]]; try done.
  all: split; [done | unfold_log; eauto].
Qed.


Lemma default_format_keeps_entries req e :
  e ∈ searchParams req → e ∈ searchParams (default_format req).
Proof.
  unfold default_format. destruct (has "format" (searchParams req)) eqn:Hhas;
    [done |].
  cbn [searchParams with_searchParams]. rewrite set_absent by done.
  intros He. apply elem_of_app. by left.
Qed.

Lemma format_is_not_inherited : "format" ∉ object_prototype_names.
Proof. unfold object_prototype_names. set_solver. Qed.

Lemma default_format_entries req name value :
  (name, value) ∈ searchParams (default_format req) →
  (name, value) ∈ searchParams req ∨ name = "format".
Proof.
  unfold default_format. destruct (has "format" (searchParams req)) eqn:Hhas;
    [by left |].
  cbn [searchParams with_searchParams]. rewrite set_absent by done.
  intros [Hin | Hin]%elem_of_app; [by left |].
  apply list_elem_of_singleton in Hin. right. congruence.
Qed.

(** X16. An allow-list lets nothing through that it does not list. An
    image request that carries a parameter whose name the allow-list
    does not have, or whose value is not among the values listed for
    the name, is never served and nothing is read, loaded or logged for
    it: it is left to the next handler, or the check throws. It is left
    to the next handler whenever no parameter of the request has a name
    that is not listed and that every object inherits. *)
Theorem serveImages_refuses_unlisted_parameter
    options allowedParams req w name value :
  allow options = Some (AllowedParams allowedParams) →
  isImage (path req) = true →
  (name, value) ∈ searchParams req →
  (∀ values, allowedParams !! name = Some values → Some value ∉ values) →
  (serveImages options req w = (Ok (PassThrough Disallowed), w)
   ∨ serveImages options req w = (Throw, w))
  ∧ ((∀ n v, (n, v) ∈ searchParams req → allowedParams !! n = None →
             n ∉ object_prototype_names) →
     serveImages options req w = (Ok (PassThrough Disallowed), w)).
Proof.
  intros Hallow Himage Hin Hunlisted.
  rewrite serveImages_cases. cbv zeta. rewrite Himage, Hallow.
  cbn [call_allow]. unfold allow_list.
  destruct (entries_allowed allowedParams
              (entries (searchParams (default_format req))))
    as [[|] |] eqn:Hentries.
  - rewrite entries_allowed_true in Hentries.
    destruct (Hentries name value) as (values & Hvalues & Hvalue).
    { by apply default_format_keeps_entries. }
    by destruct (Hunlisted values Hvalues).
  - split; [by left | done].
  - split; [by right |]. intros Hclean.
    apply entries_allowed_throws in Hentries
      as (before & n & v & after & Heq & _ & Hnone & Hinherited).
    assert ((n, v) ∈ searchParams (default_format req)) as Hnv.
    { unfold entries in Heq. rewrite Heq. apply elem_of_app. right. by left. }
    apply default_format_entries in Hnv as [Hnv | ->].
    + by destruct (Hclean n v Hnv Hnone).
    + by destruct format_is_not_inherited.
Qed.

(** Where the image of [fresh_image] comes from. *)
Lemma fresh_image_image options req imageId w image w' :
  fresh_image options req (resolveConfigs (searchParams req)) imageId w
  = (Ok (inr image), w') →
  transformed_source options req image.
Proof.
  unfold transformed_source, remove_exif, fresh_image, factories, bind, ret,
    lift, await, detach.
  cbn [fst snd fs log].
  repeat (case_match; cbn [fst snd fs log] in *; simplify_eq);
    intros [= <- <-]; eexists _, _; (split; [reflexivity |]);
    (split; [eassumption |]); eauto.
Qed.

(** The response [respond] builds. *)
Lemma respond_response options req image w r w' :
  respond options req image w = (Ok (Responded r), w') →
  ∃ imageBuffer,
    toBuffer image = Ok imageBuffer
    ∧ if bool_decide (headers req !! "if-none-match" = Some (etag imageBuffer))
      then r = {| status := 304; response_headers := ∅; body := None |}
      else ∃ assigned,
          match hook_headers options with
          | Some hook => hook req
          | None => Ok ∅
          end = Ok assigned
          ∧ r = {| status := 200;
                   response_headers :=
                     assigned ∪ computed_headers image imageBuffer;
                   body := Some imageBuffer |}.
Proof.
  unfold respond, computed_headers, bind, ret, lift, await, emit.
  cbn [fst snd fs log].
  repeat (case_match; cbn [fst snd fs log] in *; simplify_eq);
    intros [= <- <-]; eexists; (split; [reflexivity |]);
    match goal with H : bool_decide _ = _ |- _ => rewrite H end;
    eauto.
Qed.

(** C3, amended. In [serveImages], whether the image came from the cache
    or was just computed, the response is decided on the encoded bytes
    of the image the request obtained: the image the cache returned
    under the request's identifier or, without one, the loaded source
    after the transformations of the request's configuration. If the
    request's [If-None-Match] equals the weak validator of those bytes
    the answer is 304 without a body; otherwise it is 200 with those
    bytes and with the computed headers, over which the headers that
    [options.headers] returns are assigned. *)
Theorem serveImages_conditional_response options req w r w' :
  serveImages options req w = (Ok (Responded r), w') →
  ∃ image imageBuffer,
    served_image options req w image
    ∧ toBuffer image = Ok imageBuffer
    ∧ if bool_decide (headers req !! "if-none-match" = Some (etag imageBuffer))
      then r = {| status := 304; response_headers := ∅; body := None |}
      else ∃ assigned,
          assigned_headers options req = Ok assigned
          ∧ r = {| status := 200;
                   response_headers :=
                     assigned ∪ computed_headers image imageBuffer;
                   body := Some imageBuffer |}.
Proof.
  assert (headers (sort_params (default_format req)) = headers req) as Hh.
  { unfold sort_params, default_format. by case_match. }
  assert (∀ image w1,
            served_image options req w image →
            respond options (sort_params (default_format req)) image w1
            = (Ok (Responded r), w') →
            ∃ image imageBuffer,
              served_image options req w image
              ∧ toBuffer image = Ok imageBuffer
              ∧ if bool_decide
                     (headers req !! "if-none-match" = Some (etag imageBuffer))
                then r = {| status := 304; response_headers := ∅;
                            body := None |}
                else ∃ assigned,
                    assigned_headers options req = Ok assigned
                    ∧ r = {| status := 200;
                             response_headers :=
                               assigned ∪ computed_headers image imageBuffer;
                             body := Some imageBuffer |}) as Hrespond.
  { intros image w1 Hserved Hrun.
    apply respond_response in Hrun as (imageBuffer & Hbuffer & Hr).
    rewrite Hh in Hr. exists image, imageBuffer. by split_and!. }
  rewrite serveImages_cases. cbv zeta.
  destruct (isImage (path req)); [| done].
  destruct (match allow options with
            | Some a => call_allow a (default_format req)
            | None => Ok true
            end) as [[|] |]; try done.
  unfold served_image in *.
  destruct (cache options) as [c |] eqn:Hcache; unfold await.
  - destruct (Cache.read c _ w) as [[[cached |] |] w1] eqn:Hread;
      cbn [fst snd fs log]; try done.
    + apply Hrespond. by left.
    + destruct (fresh_image _ _ _ _ _) as [[[outcome | image] |] w2] eqn:Hfresh;
        try done.
      * apply fresh_image_without_image in Hfresh as (-> & _). done.
      * apply fresh_image_image in Hfresh. apply Hrespond. by right.
  - destruct (fresh_image _ _ _ _ _) as [[[outcome | image] |] w2] eqn:Hfresh;
      try done.
    + apply fresh_image_without_image in Hfresh as (-> & _). done.
    + apply fresh_image_image in Hfresh. by apply Hrespond.
Qed.


End MoreServeImages.

(** ** More on the middleware *)

Section MoreMiddleware.
Context `{PF : Platform} `{IE : ImageEngine}.
Import URLSearchParams Spec Plugin.

(** The middleware, phase by phase. *)
Lemma middleware_cases options config req w :
  middleware options config req w
  = let '(uri, query) := JsString.split_query (url req) in
    if isImage uri then
      match query with
      | None => (Ok Next, w)
      | Some query =>
          let params := normalize uri query in
          let imageId := cache_entry_identifier uri (parse_query query) in
          match resolveConfigs params with
          | None => (Ok Next, w)
          | Some imageConfig =>
              let '(cached, w1) :=
                match resolved_cacheDir options config with
                | Some cacheDir => Cache.local_read cacheDir imageId w
                | None => (Ok None, w)
                end in
              match cached with
              | Throw => (Throw, w1)
              | Ok (Some image) => respond options uri params image w1
              | Ok None =>
                  let '(fresh, w2) :=
                    fresh_image options config
                      (resolved_cacheDir options config) uri params
                      imageConfig imageId w1 in
                  match fresh with
                  | Throw => (Throw, w2)
                  | Ok (inl outcome) => (Ok outcome, w2)
                  | Ok (inr image) => respond options uri params image w2
                  end
              end
          end
      end
    else (Ok Next, w).
Proof.
  unfold middleware. destruct (JsString.split_query (url req)) as [uri query].
  destruct (isImage uri); cbn [negb]; [| done].
  destruct query as [query |]; [| done]. cbv zeta.
  rewrite plugin_imageId.
  destruct (resolveConfigs (normalize uri query)); [| done].
  unfold bind, ret.
  destruct (resolved_cacheDir options config).
  - change (cached_image s) with (Cache.local_read s).
    by repeat case_match; simplify_eq/=.
  - by repeat case_match; simplify_eq/=.
Qed.

(** What the cache read logs. *)
Lemma local_read_log cacheDir imageId w :
  ∃ evs,
    log (snd (Cache.local_read cacheDir imageId w))
    = log w ++ FsRead (path_join cacheDir imageId) :: evs
    ∧ (evs = [] ∨ evs = [Await (OpApplyTransforms [])]).
Proof.
  unfold Cache.local_read, bind, catch, ret, lift, await, readFileSync.
  cbn [fst snd fs log].
  repeat (case_match; cbn [fst snd fs log] in *; simplify_eq);
    rewrite <- ?app_assoc; cbn [app]; eauto.
Qed.

(** [readImage] by what is on disk. *)
Lemma readImage_run config uri w :
  let publicFile :=
    path_join (path_resolve (root config) (publicDir config)) uri in
  let srcFile := path_join (root config) uri in
  readImage config uri w
  = if negb (String.eqb (publicDir config) "") then
      match files (fs w) !! publicFile with
      | Some data =>
          (Ok (Some data),
           {| fs := fs w; log := log w ++ [FsRead publicFile] |})
      | None =>
          (Ok (files (fs w) !! srcFile),
           {| fs := fs w;
              log := log w ++ [FsRead publicFile; FsRead srcFile] |})
      end
    else (Ok (files (fs w) !! srcFile),
          {| fs := fs w; log := log w ++ [FsRead srcFile] |}).
Proof.
  cbv zeta. unfold readImage, bind, catch, ret, readFileSync, fs_read.
  cbn [fst snd fs log].
  destruct (negb (String.eqb (publicDir config) "")); cbn [fst snd fs log].
  - destruct (files (fs w) !! _); cbn [fst snd fs log]; [done |].
    rewrite <- app_assoc. by destruct (files (fs w) !! _).
  - by destruct (files (fs w) !! _).
Qed.

(** What [respond] does: perhaps the headers hook, then the head and the
    pipe. *)
Lemma plugin_respond_run options uri params image w :
  ∃ evs,
    snd (respond options uri params image w)
    = {| fs := fs w; log := log w ++ evs |}
    ∧ match fst (respond options uri params image w) with
      | Ok (Responded r) =>
          piped r = image ∧ status r = 200
          ∧ (evs = [WriteHead 200; Pipe]
             ∨ evs = [Await OpHook; WriteHead 200; Pipe])
      | Ok Next => False
      | Throw => evs = [Await OpHook]
      end.
Proof.
  unfold respond, bind, ret, lift, await, emit. cbn [fst snd fs log].
  repeat (case_match; cbn [fst snd fs log] in *; simplify_eq);
    rewrite <- ?app_assoc; cbn [app fst snd status piped];
    eexists; (split; [reflexivity |]); eauto 10.
Qed.


(** What [fresh_image] does: it awaits the loader, reads the source from
    disk when the loader gave nothing, awaits the hook, the
    transformations and, with a cache directory, the encoding, and writes
    the entry. *)
Lemma plugin_fresh_image_run
    options config cacheDir uri params imageConfig imageId w :
  let publicFile :=
    path_join (path_resolve (root config) (publicDir config)) uri in
  let srcFile := path_join (root config) uri in
  let transforms := generateTransforms imageConfig builtinTransforms in
  let run :=
    fresh_image options config cacheDir uri params imageConfig imageId w in
  ∃ evs,
    log (snd run) = log w ++ Await OpLoad :: evs
    ∧ (∀ e, e ∈ evs →
            e = FsRead publicFile ∨ e = FsRead srcFile ∨ e = Await OpHook
            ∨ e = Await (OpApplyTransforms transforms)
            ∨ e = Await OpToBuffer
            ∨ ∃ d, cacheDir = Some d ∧ e = FsWrite (path_join d imageId))
    ∧ (fs (snd run) = fs w
       ∨ (∃ d image imageData,
            cacheDir = Some d ∧ fst run = Ok (inr image)
            ∧ toBuffer image = Ok imageData
            ∧ fs (snd run)
              = {| files := <[path_join d imageId := imageData]> (files (fs w));
                   writable := true; torn := torn (fs w) |})
       ∨ (∃ d imageData n,
            cacheDir = Some d ∧ fst run = Throw
            ∧ fs (snd run)
              = {| files := <[path_join d imageId := take n imageData]>
                              (files (fs w));
                   writable := false; torn := torn (fs w) |}))
    ∧ (∀ image d,
         fst run = Ok (inr image) → cacheDir = Some d →
         ∃ imageData,
           toBuffer image = Ok imageData
           ∧ files (fs (snd run)) !! path_join d imageId = Some imageData)
    ∧ (∀ outcome, fst run = Ok (inl outcome) → outcome = Next)
    ∧ (∀ loadImage data,
         load options = Some loadImage →
         loadImage uri params = Ok (Some data) →
         ∀ p, FsRead p ∉ evs).
Proof.
  cbv zeta.
  unfold fresh_image, readImage, bind, catch, ret, lift, await, emit,
    readFileSync, writeFileSync, fs_read, fs_write.
  cbn [fst snd fs log].
  repeat (case_match; cbn [fst snd fs log] in *; simplify_eq);
    cbn [fst snd fs log files]; rewrite <- ?app_assoc; cbn [app];
    eexists; (split; [reflexivity |]).
  all: split; [intros e He; in_log He; pick |].
  all: split; [first [ by left
                     | right; left; eexists _, _, _; by split_and!
                     | right; right; eexists _, _, _; by split_and! ] |].
  all: split; [intros ? ? ? ?; simplify_eq;
               try (eexists; (split; [done |]); by rewrite lookup_insert_eq) |].
  all: split; [intros ? ?; by simplify_eq |].
  all: intros ? ? ? ? p Hp; first [congruence | by in_log Hp].
Qed.


(** [fresh_image] hands the request on exactly when neither the loader
    nor the disk has the source. *)
Lemma plugin_fresh_image_next
    options config cacheDir uri params imageConfig imageId w :
  let publicFile :=
    path_join (path_resolve (root config) (publicDir config)) uri in
  let srcFile := path_join (root config) uri in
  let loaded :=
    match load options with
    | Some loadImage => loadImage uri params
    | None => Ok None
    end in
  fst (fresh_image options config cacheDir uri params imageConfig imageId w)
  = Ok (inl Next)
  ↔ loaded = Ok None
    ∧ (String.eqb (publicDir config) "" = false →
       files (fs w) !! publicFile = None)
    ∧ files (fs w) !! srcFile = None.
Proof.
  cbv zeta. unfold fresh_image. unfold bind at 1. unfold await at 1.
  unfold lift at 1. cbn [fst snd fs log].
  destruct (match load options with
            | Some loadImage => loadImage uri params
            | None => Ok None
            end) as [[data |] |]; cbn [fst snd fs log].
  2: { unfold bind at 1. rewrite readImage_run. cbv zeta. cbn [fs log].
       destruct (String.eqb (publicDir config) ""); cbn [negb].
       - destruct (files (fs w) !! path_join (root config) uri) eqn:Hsrc.
         + split; [| by intros (_ & _ & ?)].
           unfold bind, ret, lift, await.
           repeat (case_match; cbn [fst snd] in *; simplify_eq); done.
         + done.
       - destruct (files (fs w) !! path_join (path_resolve _ _) uri) eqn:Hpub.
         + split; [| intros (_ & Hno & _); by specialize (Hno eq_refl)].
           unfold bind, ret, lift, await.
           repeat (case_match; cbn [fst snd] in *; simplify_eq); done.
         + destruct (files (fs w) !! path_join (root config) uri) eqn:Hsrc.
           * split; [| by intros (_ & _ & ?)].
             unfold bind, ret, lift, await.
             repeat (case_match; cbn [fst snd] in *; simplify_eq); done.
           * done. }
  - split; [| by intros (? & _)].
    unfold bind, ret, lift, await.
    repeat (case_match; cbn [fst snd] in *; simplify_eq); done.
  - split; [done | by intros (? & _)].
Qed.


Ltac dev_start :=
  let uri := fresh "uri" in
  let query := fresh "query" in
  let imageConfig := fresh "imageConfig" in
  rewrite middleware_cases;
  destruct (JsString.split_query (url _)) as [uri query] eqn:Hsplit;
  destruct (isImage uri) eqn:Himage;
  [ destruct query as [query |];
    [ cbv zeta;
      destruct (resolveConfigs (normalize uri query))
        as [imageConfig |] eqn:Hconfig;
      [ | cbn [fst snd fs log] ]
    | cbn [fst snd fs log] ]
  | cbn [fst snd fs log] ].

Ltac dev_cache_phase :=
  lazymatch goal with
  | |- context [match resolved_cacheDir ?o ?c with
                | Some _ => _ | None => _ end] =>
      let cacheDir := fresh "cacheDir" in
      let cached := fresh "cached" in
      let w1 := fresh "w1" in
      let evs := fresh "evs0" in
      destruct (resolved_cacheDir o c) as [cacheDir |] eqn:HcacheDir;
      [ lazymatch goal with
        | |- context [Cache.local_read ?d ?i ?w] =>
            destruct (local_read_cases d i w) as [Hrfs Hrcases];
            destruct (local_read_log d i w) as (evs & Hrlog & Hrevs);
            destruct (local_read_never_throws d i w) as [? Hrok];
            destruct (Cache.local_read d i w) as [[[cached |] |] w1] eqn:Hread;
            cbn [fst snd fs log] in Hrfs, Hrcases, Hrlog, Hrok |- *;
            [ | | discriminate Hrok ]
        end
      | ];
      cbn [fst snd fs log]
  end.

Ltac dev_fresh_phase :=
  lazymatch goal with
  | |- context [fresh_image ?o ?c ?d ?u ?p ?i ?id ?w] =>
      let evs := fresh "evs1" in
      let w2 := fresh "w2" in
      let image := fresh "image" in
      destruct (plugin_fresh_image_run o c d u p i id w)
        as (evs & Hlog1 & Hevs1 & Hfs1 & Hwrite1 & Hnext1 & Hloader1);
      pose proof (plugin_fresh_image_next o c d u p i id w) as Hnosource;
      cbv zeta in Hnosource;
      destruct (fresh_image o c d u p i id w) as [[[? | image] |] w2] eqn:Hfresh;
      cbn [fst snd fs log] in Hlog1, Hfs1, Hwrite1, Hnext1, Hnosource |- *;
      [ rewrite (Hnext1 _ eq_refl) in * | | ]
  end.

Ltac dev_respond_phase :=
  lazymatch goal with
  | |- context [respond ?o ?u ?p ?i ?w] =>
      let evs := fresh "evs" in
      let Hsnd := fresh "Hsnd" in
      let r' := fresh "r" in
      let w3 := fresh "w3" in
      destruct (plugin_respond_run o u p i w) as (evs & Hsnd & Hfst);
      destruct (respond o u p i w) as [[[| r'] |] w3];
      cbn [fst snd fs log] in Hsnd, Hfst |- *; [done | |]; subst w3;
      cbn [fst snd fs log]
  end.

Ltac dev_run :=
  dev_start; try dev_cache_phase; try dev_fresh_phase; try dev_respond_phase.

Ltac dev_respond_events :=
  try match goal with
      | Hfst : _ ∧ _ ∧ (_ = [_; _] ∨ _ = [_; _; _]) |- _ =>
          destruct Hfst as (Hpiped & Hstatus & [-> | ->])
      | Hfst : ?evs = [_] |- _ => subst evs
      end;
  try match goal with
      | Hrevs : _ = [] ∨ _ = [_] |- _ => destruct Hrevs as [-> | ->]
      end.

(** What comes before the suffix [suf] of the list [l]. *)
Ltac prefix_of l suf :=
  lazymatch l with
  | suf => constr:(@nil Event)
  | ?pre ++ suf => constr:(pre)
  | ?a :: ?rest => let p := prefix_of rest suf in constr:(a :: p)
  end.

(** The events of [fresh_image] hold no head and no pipe. *)
Ltac no_response He :=
  match goal with
  | Hevs1 : ∀ e, e ∈ ?evs → _ |- _ =>
      let Hshape := fresh in
      pose proof (Hevs1 _ He) as Hshape; split_or; done
  end.

(** X17. No query string, no transformation. A request whose URL has no
    question mark is handed on at once, whatever its extension: nothing
    is read, written or logged. *)
Theorem middleware_needs_a_query options config req w :
  (∀ before after, url req ≠ before +:+ "?" +:+ after) →
  middleware options config req w = (Ok Next, w).
Proof.
  intros Hnone. unfold middleware.
  rewrite split_query_without_question_mark by done.
  by destruct (negb (isImage (url req))).
Qed.

(** X18. The middleware writes the head exactly when it resolves with a
    response, always with status 200, and then the head and the pipe
    are the last two things it does. *)
Theorem middleware_responds_iff options config req f :
  (∀ s, WriteHead s ∈ trace_of (middleware options config req) f
        ↔ s = 200
          ∧ ∃ r, outcome_of (middleware options config req) f
                 = Ok (Responded r))
  ∧ (∀ r, outcome_of (middleware options config req) f = Ok (Responded r) →
          status r = 200
          ∧ ∃ before,
              trace_of (middleware options config req) f
              = before ++ [WriteHead 200; Pipe]
              ∧ (Pipe ∉ before)
              ∧ ∀ s, WriteHead s ∉ before).
Proof.
  unfold trace_of, outcome_of.
  dev_run; dev_respond_events; rewrite ?Hlog1, ?Hrlog; cbn [log app].
  all: split;
    [ intros s; split;
      [ intros He; unfold_log_in He; split_or; simplify_eq; try done;
        first [by eauto | no_response He]
      | intros (-> & r0 & Hr); simplify_eq; unfold_log; pick ]
    | intros r0 Hr; simplify_eq; try (split; [done |]) ].
  all: try change [Await OpHook; WriteHead 200; Pipe]
         with ([Await OpHook] ++ [WriteHead 200; Pipe]).
  all: rewrite ?app_assoc.
  all: match goal with
       | |- ∃ before, ?l = _ ++ ?suf ∧ _ =>
           let before := prefix_of l suf in exists before
       end.
  all: split; [reflexivity |].
  all: split; [| intros s]; intros He; unfold_log_in He; split_or;
    simplify_eq; try done; no_response He.
Qed.


(** X19. The only file the middleware ever changes is the one
    [path.join] makes of the resolved cache directory and the request's
    identifier. With [cacheDir: false], and whenever it hands the
    request on, the disk is as it was. The identifier ends with the
    [format] parameter as the request gives it, so nothing keeps that
    file inside the cache directory. *)
Theorem middleware_disk_frame options config req f :
  (resolved_cacheDir options config = None →
   disk_after (middleware options config req) f = f)
  ∧ (outcome_of (middleware options config req) f = Ok Next →
     disk_after (middleware options config req) f = f)
  ∧ (∀ p, files_after (middleware options config req) f !! p ≠ files f !! p →
          ∃ cacheDir uri query,
            resolved_cacheDir options config = Some cacheDir
            ∧ JsString.split_query (url req) = (uri, Some query)
            ∧ p = path_join cacheDir
                    (cache_entry_identifier uri (parse_query query))).
Proof.
  unfold outcome_of, files_after, disk_after.
  dev_run; rewrite ?Hrfs in *.
  all: split_and!; try done.
  all: try (intros; destruct Hfs1 as [Hfs1 | Hfs1]; split_or; by simplify_eq).
  all: try (by intros p Hp).
  all: intros p Hp; destruct Hfs1 as [Hfs1 | Hfs1];
    [by rewrite Hfs1 in Hp |]; split_or; simplify_eq.
  all: rewrite Hfs1 in Hp; cbn [files] in Hp.
  all: match type of Hp with
       | <[?file := _]> _ !! _ ≠ _ =>
           destruct (decide (p = file)) as [-> | Hother];
           [ eexists _, _, _; by split_and!
           | by rewrite lookup_insert_ne in Hp ]
       end.
Qed.

(** X20. A cache hit in the middleware. When the entry of the request is
    on disk and [sharp] accepts it, the middleware reads that file and
    nothing else, calls no loader, transforms nothing, writes nothing,
    and pipes the decoded entry. *)
Theorem middleware_cache_hit
    options config req f cacheDir uri query imageConfig data image :
  let entry :=
    path_join cacheDir (cache_entry_identifier uri (parse_query query)) in
  JsString.split_query (url req) = (uri, Some query) →
  isImage uri = true →
  resolveConfigs (normalize uri query) = Some imageConfig →
  resolved_cacheDir options config = Some cacheDir →
  files f !! entry = Some data →
  sharp data = Ok image →
  (∀ e, e ∈ trace_of (middleware options config req) f →
        e = FsRead entry ∨ e = Await (OpApplyTransforms [])
        ∨ e = Await OpHook ∨ e = WriteHead 200 ∨ e = Pipe)
  ∧ disk_after (middleware options config req) f = f
  ∧ ∀ r, outcome_of (middleware options config req) f = Ok (Responded r) →
         piped r = image ∨ applyTransforms [] image None = Ok (piped r).
Proof.
  cbv zeta. unfold trace_of, outcome_of, disk_after.
  dev_run; intros Hsplit' Himage' Hconfig' Hdir' Hfile Hsharp; simplify_eq;
    try congruence.
  all: unfold fs_read in Hrcases; cbn [fs] in Hrcases;
    rewrite Hfile, Hsharp in Hrcases; try (by destruct Hrcases).
  all: dev_respond_events; rewrite ?Hrlog; cbn [log app].
  all: split; [intros e He; in_log He; pick |].
  all: split; [done |].
  all: intros r0 Hr; simplify_eq.
  all: unfold Cache.local_read, bind, catch, ret, lift, await, readFileSync,
         fs_read in Hread; cbn [fst snd fs log] in Hread;
       rewrite Hfile in Hread; cbn [fst snd fs log] in Hread;
       rewrite Hsharp in Hread; cbn [fst snd fs log] in Hread.
  all: destruct (applyTransforms [] image None); cbn [fst snd] in Hread;
    simplify_eq; eauto.
Qed.

(** X21. What the middleware writes is what it pipes. When it answers
    after writing a file, that file holds the encoding of the image it
    pipes into the response. *)
Theorem middleware_stores_the_piped_image options config req f r p :
  outcome_of (middleware options config req) f = Ok (Responded r) →
  FsWrite p ∈ trace_of (middleware options config req) f →
  ∃ imageData,
    toBuffer (piped r) = Ok imageData
    ∧ files_after (middleware options config req) f !! p = Some imageData.
Proof.
  unfold trace_of, outcome_of, files_after, disk_after.
  dev_run; intros Hout He; simplify_eq.
  all: try (by in_log He).
  all: dev_respond_events; rewrite ?Hlog1, ?Hrlog in He; cbn [log app] in He.
  all: unfold_log_in He; split_or; simplify_eq; try done.
  all: pose proof (Hevs1 _ He) as Hshape; split_or; simplify_eq.
  all: destruct (Hwrite1 _ _ eq_refl eq_refl) as (imageData & Hbuffer & Hfile).
  all: eauto.
Qed.

(** X22. [options.load] comes first. When the loader returns the source,
    the middleware reads no source file: the only file it reads is the
    cache entry. *)
Theorem middleware_loader_overrides
    options config req f uri query loadImage data :
  JsString.split_query (url req) = (uri, Some query) →
  load options = Some loadImage →
  loadImage uri (normalize uri query) = Ok (Some data) →
  ∀ p, FsRead p ∈ trace_of (middleware options config req) f →
       ∃ cacheDir,
         resolved_cacheDir options config = Some cacheDir
         ∧ p = path_join cacheDir
                 (cache_entry_identifier uri (parse_query query)).
Proof.
  unfold trace_of.
  dev_run; intros Hsplit' Hload Hdata p He; simplify_eq.
  all: try (by in_log He).
  all: dev_respond_events; rewrite ?Hlog1, ?Hrlog in He; cbn [log app] in He.
  all: unfold_log_in He; split_or; simplify_eq; try done; eauto.
  all: by destruct (Hloader1 _ _ Hload Hdata p).
Qed.


(** X23. When the middleware finds no source. For an image URL with a
    query that resolves to a configuration, the request is handed on
    exactly when the cache has no entry that [sharp] accepts, the loader
    (if any) returns nothing, and the file is neither in the public
    directory nor under the project root. *)
Theorem middleware_no_source options config req f uri query imageConfig :
  let params := normalize uri query in
  let publicFile :=
    path_join (path_resolve (root config) (publicDir config)) uri in
  let srcFile := path_join (root config) uri in
  JsString.split_query (url req) = (uri, Some query) →
  isImage uri = true →
  resolveConfigs params = Some imageConfig →
  outcome_of (middleware options config req) f = Ok Next
  ↔ (∀ cacheDir data,
       resolved_cacheDir options config = Some cacheDir →
       files f !! path_join cacheDir
                    (cache_entry_identifier uri (parse_query query))
       = Some data →
       sharp data = Throw)
    ∧ (∀ loadImage, load options = Some loadImage →
                    loadImage uri params = Ok None)
    ∧ (publicDir config ≠ "" → files f !! publicFile = None)
    ∧ files f !! srcFile = None.
Proof.
  cbv zeta. unfold outcome_of.
  dev_run; rewrite ?Hrfs in *; try clear Hrfs;
    intros Hsplit' Himage' Hconfig'; simplify_eq; try congruence.
  all: try (unfold fs_read in Hrcases; cbn [fs] in Hrcases).
  all: split.
  (* handed on: nothing was found *)
  all: try (intros Hout; discriminate Hout).
  all: try (intros _; destruct Hnosource as [Hnosource _];
            destruct (Hnosource eq_refl) as (Hloaded & Hpublic & Hsrc);
            split_and!;
            [ intros d data Hd Hfile; simplify_eq;
              try (rewrite Hfile in Hrcases; destruct (sharp data);
                   [by destruct Hrcases | done])
            | intros loadImage Hload; by rewrite Hload in Hloaded
            | intros Hne; by apply Hpublic, String.eqb_neq
            | done ]).
  (* something was found: not handed on *)
  all: intros (Hcache & Hloader & Hpublic & Hsrc).


  all: try (match type of Hrcases with
            | context [files ?f !! ?p] =>
                destruct (files f !! p) as [data |] eqn:Hfile
            end;
            [ specialize (Hcache _ _ eq_refl Hfile); rewrite Hcache in Hrcases;
              discriminate Hrcases
            | discriminate Hrcases ]).
  all: destruct Hnosource as [_ Hnosource].
  all: try reflexivity.
  all: exfalso; cut (∀ A (x y : A), x = y → x ≠ y → False); [| by eauto].
  all: intros Hcut; eapply Hcut; [apply Hnosource | done].
  all: split_and!; try done.
  all: try (destruct (load options); [by rewrite Hloader | done]).
  all: intros Hne%String.eqb_neq; by apply Hpublic.
Qed.


(** The headers [respond] writes. *)
Lemma plugin_respond_headers options uri params image w r w' :
  respond options uri params image w = (Ok (Responded r), w') →
  piped r = image
  ∧ ∃ headers,
      match devHeaders options with
      | Some (HeadersHook hook) => hook uri params = Ok headers
      | Some (StaticHeaders h) => headers = h
      | None => headers = ∅
      end
      ∧ response_headers r
        = headers ∪ {[ "Content-Type" :=
                         "image/" +:+ JsString.or_undefined
                                        (getMetadata image "format");
                       "Cache-Control" := "max-age=360000" ]}.
Proof.
  unfold respond, bind, ret, lift, await, emit. cbn [fst snd fs log].
  repeat (case_match; cbn [fst snd fs log] in *; simplify_eq);
    intros [= <- <-]; cbn [piped response_headers]; eauto.
Qed.

(** X24. [devHeaders] win. In a response of the middleware, every header
    that [options.devHeaders] gives (the object, or what the function
    returns for the URI and the normalised parameters) has the given
    value, also [Content-Type] and [Cache-Control]; every other header
    is the computed one. *)
Theorem middleware_dev_headers_win options config req f r uri query :
  JsString.split_query (url req) = (uri, Some query) →
  outcome_of (middleware options config req) f = Ok (Responded r) →
  ∃ headers,
    match devHeaders options with
    | Some (HeadersHook hook) => hook uri (normalize uri query) = Ok headers
    | Some (StaticHeaders h) => headers = h
    | None => headers = ∅
    end
    ∧ (∀ name value, headers !! name = Some value →
                     response_headers r !! name = Some value)
    ∧ (∀ name,
         headers !! name = None →
         response_headers r !! name
         = ({[ "Content-Type" :=
                 "image/" +:+ JsString.or_undefined
                                (getMetadata (piped r) "format");
               "Cache-Control" := "max-age=360000" ]} : gmap string string)
             !! name).
Proof.
  unfold outcome_of.
  dev_start; try dev_cache_phase; try dev_fresh_phase;
    intros Hsplit' Hout; simplify_eq.
  all: match goal with
       | H : fst (respond ?o ?u ?p ?i ?w) = _ |- _ =>
           destruct (respond o u p i w) as [out w3] eqn:Hrespond;
           cbn [fst] in H; subst out;
           apply plugin_respond_headers in Hrespond
             as (Hpiped & headers & Hgiven & Hheaders)
       end.
  all: exists headers; rewrite Hheaders, Hpiped; split; [exact Hgiven |].
  all: split; [intros name value Hname; by apply lookup_union_Some_l
              | intros name Hname; by apply lookup_union_r].
Qed.




End MoreMiddleware.

(** ** Reading the source from disk *)

Section ReadImage.
Context `{PF : Platform} `{IE : ImageEngine}.
Import Spec.

(** [readImage] of [src/utils/readImage.ts] by what is on disk. *)
Lemma utils_readImage_run uri rootDir publicDir w :
  let publicFile :=
    path_resolve (path_resolve rootDir (default "" publicDir)) uri in
  let srcFile := path_join rootDir uri in
  Utils.readImage uri rootDir publicDir w
  = if negb (String.eqb (default "" publicDir) "") then
      match files (fs w) !! publicFile with
      | Some data =>
          (Ok (Some data),
           {| fs := fs w; log := log w ++ [FsRead publicFile] |})
      | None =>
          (Ok (files (fs w) !! srcFile),
           {| fs := fs w;
              log := log w ++ [FsRead publicFile; FsRead srcFile] |})
      end
    else (Ok (files (fs w) !! srcFile),
          {| fs := fs w; log := log w ++ [FsRead srcFile] |}).
Proof.
  cbv zeta. unfold Utils.readImage, bind, catch, ret, readFileSync, fs_read.
  cbn [fst snd fs log].
  destruct publicDir as [publicDir |]; unfold default; cbn [from_option id].
  - destruct (negb (String.eqb publicDir "")); cbn [fst snd fs log].
    + destruct (files (fs w) !! path_resolve _ uri); cbn [fst snd fs log];
        [done |].
      rewrite <- app_assoc. by destruct (files (fs w) !! _).
    + by destruct (files (fs w) !! _).
  - change (negb (String.eqb "" "")) with false. cbn [fst snd fs log].
    by destruct (files (fs w) !! _).
Qed.

(** X25. The default loading strategy of the middleware. [readImage]
    never throws and never writes; it returns the file of the public
    directory when there is a public directory and the file is in it,
    otherwise the file under the project root, otherwise nothing; and it
    looks under the root only when the public directory did not have the
    file. *)
Theorem plugin_readImage_result config uri w :
  let publicFile :=
    path_join (path_resolve (Plugin.root config) (Plugin.publicDir config))
      uri in
  let srcFile := path_join (Plugin.root config) uri in
  let inPublic :=
    if String.eqb (Plugin.publicDir config) "" then None
    else files (fs w) !! publicFile in
  fs (snd (Plugin.readImage config uri w)) = fs w
  ∧ (∀ data,
       fst (Plugin.readImage config uri w) = Ok (Some data)
       ↔ inPublic = Some data
         ∨ inPublic = None ∧ files (fs w) !! srcFile = Some data)
  ∧ (fst (Plugin.readImage config uri w) = Ok None
     ↔ inPublic = None ∧ files (fs w) !! srcFile = None)
  ∧ (∃ reads,
       log (snd (Plugin.readImage config uri w)) = log w ++ reads
       ∧ (∀ e, e ∈ reads → e = FsRead publicFile ∨ e = FsRead srcFile)
       ∧ (FsRead srcFile ∈ reads → publicFile = srcFile ∨ inPublic = None)).
Proof.
  cbv zeta. rewrite readImage_run. cbv zeta.
  destruct (String.eqb (Plugin.publicDir config) ""); cbn [negb].
  - cbn [fst snd fs log]. split_and!; try done.
    + intros data. split; [intros [= ->]; by right | by intros [? | [_ ->]]].
    + split; [by intros [= ->] | by intros [_ ->]].
    + eexists. split; [done |]. split; [| by right].
      intros e He. in_log He. by right.
  - destruct (files (fs w) !! path_join (path_resolve _ _) uri) as [data' |];
      cbn [fst snd fs log].
    + split_and!; try done.
      * intros data. split; [intros [= ->]; by left | by intros [[= ->] | [? _]]].
      * split; [done | by intros [? _]].
      * eexists. split; [done |]. split.
        -- intros e He. in_log He. by left.
        -- intros He. in_log He. left. congruence.
    + split_and!; try done.
      * intros data. split; [intros [= ->]; by right | by intros [? | [_ ->]]].
      * split; [by intros [= ->] | by intros [_ ->]].
      * eexists. split; [done |]. split; [| by right].
        intros e He. in_log He; [by left | by right].
Qed.

(** X26. [readImage] of [src/utils/readImage.ts]. It never throws and
    never writes; with a public directory it returns the file that the
    three segments resolve to when that file exists, otherwise the file
    under the root directory, otherwise nothing. *)
Theorem utils_readImage_result uri rootDir publicDir w :
  let publicFile :=
    path_resolve (path_resolve rootDir (default "" publicDir)) uri in
  let srcFile := path_join rootDir uri in
  let inPublic :=
    if String.eqb (default "" publicDir) "" then None
    else files (fs w) !! publicFile in
  fs (snd (Utils.readImage uri rootDir publicDir w)) = fs w
  ∧ (∀ data,
       fst (Utils.readImage uri rootDir publicDir w) = Ok (Some data)
       ↔ inPublic = Some data
         ∨ inPublic = None ∧ files (fs w) !! srcFile = Some data)
  ∧ (fst (Utils.readImage uri rootDir publicDir w) = Ok None
     ↔ inPublic = None ∧ files (fs w) !! srcFile = None).
Proof.
  cbv zeta. rewrite utils_readImage_run. cbv zeta.
  destruct (String.eqb (default "" publicDir) ""); cbn [negb].
  - cbn [fst snd fs log]. split_and!; try done.
    + intros data. split; [intros [= ->]; by right | by intros [? | [_ ->]]].
    + split; [by intros [= ->] | by intros [_ ->]].
  - destruct (files (fs w) !! path_resolve (path_resolve _ _) uri)
      as [data' |]; cbn [fst snd fs log].
    + split_and!; try done.
      * intros data. split; [intros [= ->]; by left | by intros [[= ->] | [? _]]].
      * split; [done | by intros [? _]].
    + split_and!; try done.
      * intros data. split; [intros [= ->]; by right | by intros [? | [_ ->]]].
      * split; [by intros [= ->] | by intros [_ ->]].
Qed.

(** X27. The two [readImage] agree on a URI that [path.resolve] and
    [path.join] append alike to the public directory: the function of
    [src/utils/readImage.ts] then does what the one in [src/plugin.ts]
    does, event for event. *)
Theorem readImage_versions_agree uri rootDir publicDir w :
  path_resolve (path_resolve rootDir publicDir) uri
  = path_join (path_resolve rootDir publicDir) uri →
  Utils.readImage uri rootDir (Some publicDir) w
  = Plugin.readImage
      {| Plugin.root := rootDir; Plugin.publicDir := publicDir |} uri w.
Proof.
  intros Hsame. rewrite utils_readImage_run, readImage_run. cbv zeta.
  unfold default. cbn [from_option id Plugin.root Plugin.publicDir].
  by rewrite Hsame.
Qed.

End ReadImage.

(** ** More concrete runs *)

Section MoreRuns.
Import Spec Scenario Fixtures.
#[local] Existing Instance Reference.platform.
#[local] Existing Instance Reference.engine.

(** A membership in a log that computes to a literal list. *)
Ltac in_computed_log :=
  match goal with
  | |- _ ∈ ?t =>
      let v := eval vm_compute in t in
      replace t with v by (vm_compute; reflexivity); at_log
  end.

Lemma local_write_touches_its_entry_only_witness :
  let cacheDir := "/srv/node_modules/.images" in
  let w := {| fs := failing_disk; log := [] |} in
  "/srv/public/photo.png" ≠ path_join cacheDir "photo.e2e83ba6.webp"
  ∧ (files (fs (snd (Cache.local_write cacheDir "photo.e2e83ba6.webp"
                       photo_as_webp w))) !! "/srv/public/photo.png"
     = files (fs w) !! "/srv/public/photo.png"
     ∧ (toBuffer photo_as_webp = Throw →
        fs (snd (Cache.local_write cacheDir "photo.e2e83ba6.webp"
                   photo_as_webp w)) = fs w)
     ∧ (fst (Cache.local_write cacheDir "photo.e2e83ba6.webp"
               photo_as_webp w) = Throw →
        fs (snd (Cache.local_write cacheDir "photo.e2e83ba6.webp"
                   photo_as_webp w)) = fs w
        ∨ ∃ imageData n,
            toBuffer photo_as_webp = Ok imageData
            ∧ torn (fs w) = Some n
            ∧ files (fs (snd (Cache.local_write cacheDir "photo.e2e83ba6.webp"
                                photo_as_webp w)))
                !! path_join cacheDir "photo.e2e83ba6.webp"
              = Some (take n imageData))).
Proof.
  cbv zeta.
  assert ("/srv/public/photo.png"
          ≠ path_join "/srv/node_modules/.images" "photo.e2e83ba6.webp")
    as Hother by (vm_compute; discriminate).
  split; [exact Hother |].
  exact (local_write_touches_its_entry_only (PF := Reference.platform)
           (IE := Reference.engine) "/srv/node_modules/.images"
           "photo.e2e83ba6.webp" photo_as_webp
           {| fs := failing_disk; log := [] |} "/srv/public/photo.png" Hother).
Defined.

(** On that disk the write rejects and the entry that was there is
    gone: the file was truncated when it was opened. On a disk where the
    file cannot be opened the entry stays. *)
Example failed_write_truncates_the_entry :
  let cacheDir := "/srv/node_modules/.images" in
  let run disk :=
    Cache.local_write cacheDir "photo.e2e83ba6.webp" photo_as_webp
      {| fs := disk; log := [] |} in
  files failing_disk !! photo_entry = Some photo_webp
  ∧ fst (run failing_disk) = Throw
  ∧ files (fs (snd (run failing_disk))) !! photo_entry = Some []
  ∧ fst (run (read_only cached_disk)) = Throw
  ∧ files (fs (snd (run (read_only cached_disk)))) !! photo_entry
    = Some photo_webp.
Proof. cbv zeta. repeat split; vm_compute; reflexivity. Qed.

Lemma local_write_last_writer_wins_witness :
  let cacheDir := "/srv/node_modules/.images" in
  let w := {| fs := empty_disk; log := [] |} in
  let w1 := {| fs := cached_disk;
               log := [Await OpToBuffer; FsWrite photo_entry] |} in
  let w2 := {| fs := {| files := {[ photo_entry := photo_gif ]};
                        writable := true; torn := None |};
               log := [Await OpToBuffer; FsWrite photo_entry;
                       Await OpToBuffer; FsWrite photo_entry] |} in
  Cache.local_write cacheDir "photo.e2e83ba6.webp" photo_as_webp w
  = (Ok tt, w1)
  ∧ Cache.local_write cacheDir "photo.e2e83ba6.webp" anim_with_metadata w1
    = (Ok tt, w2)
  ∧ (∃ imageData,
       toBuffer anim_with_metadata = Ok imageData
       ∧ files (fs w2) !! path_join cacheDir "photo.e2e83ba6.webp"
         = Some imageData)
  ∧ (toBuffer photo_as_webp = toBuffer anim_with_metadata → fs w2 = fs w1).
Proof.
  cbv zeta.
  assert (Cache.local_write "/srv/node_modules/.images" "photo.e2e83ba6.webp"
            photo_as_webp {| fs := empty_disk; log := [] |}
          = (Ok tt, {| fs := cached_disk;
                       log := [Await OpToBuffer; FsWrite photo_entry] |}))
    as Hfirst by (vm_compute; reflexivity).
  assert (Cache.local_write "/srv/node_modules/.images" "photo.e2e83ba6.webp"
            anim_with_metadata
            {| fs := cached_disk;
               log := [Await OpToBuffer; FsWrite photo_entry] |}
          = (Ok tt,
             {| fs := {| files := {[ photo_entry := photo_gif ]};
                         writable := true; torn := None |};
                log := [Await OpToBuffer; FsWrite photo_entry;
                        Await OpToBuffer; FsWrite photo_entry] |}))
    as Hsecond by (vm_compute; reflexivity).
  split; [exact Hfirst |]. split; [exact Hsecond |].
  exact (local_write_last_writer_wins (PF := Reference.platform)
           (IE := Reference.engine) _ _ _ _ _ _ _ Hfirst Hsecond).
Defined.

Lemma serveImages_cache_hit_witness :
  let options := serve_options (Some local_cache) None in
  let imageId :=
    cache_entry_identifier (Endpoint.path photo_request)
      (Endpoint.searchParams photo_request) in
  let w := {| fs := cached_disk; log := [] |} in
  let w1 := {| fs := cached_disk;
               log := [FsRead photo_entry;
                       Await (OpApplyTransforms (IE := Reference.engine) [])] |} in
  isImage (Endpoint.path photo_request) = true
  ∧ passes_allow options photo_request
  ∧ Runtime.cache options = Some local_cache
  ∧ Cache.read local_cache imageId w = (Ok (Some entry_with_metadata), w1)
  ∧ (∃ evs,
       log (snd (Runtime.serveImages options photo_request w))
       = log w ++ Await (OpCacheRead imageId) :: Await OpToBuffer :: evs
       ∧ ∀ e, e ∈ evs → e = Await OpHook ∨ ∃ s, e = RespondWith s)
  ∧ fs (snd (Runtime.serveImages options photo_request w)) = fs w1
  ∧ ∀ r, fst (Runtime.serveImages options photo_request w)
         = Ok (Runtime.Responded r) →
         ∃ imageBuffer,
           toBuffer entry_with_metadata = Ok imageBuffer
           ∧ (Runtime.status r = 200 ∧ Runtime.body r = Some imageBuffer
              ∨ Runtime.status r = 304 ∧ Runtime.body r = None).
Proof.
  cbv zeta.
  assert (isImage (Endpoint.path photo_request) = true)
    as Himage by (vm_compute; reflexivity).
  assert (passes_allow (serve_options (Some local_cache) None) photo_request)
    as Hallow by exact I.
  assert (Cache.read local_cache
            (cache_entry_identifier (Endpoint.path photo_request)
               (Endpoint.searchParams photo_request))
            {| fs := cached_disk; log := [] |}
          = (Ok (Some entry_with_metadata),
             {| fs := cached_disk;
                log := [FsRead photo_entry;
                        Await (OpApplyTransforms (IE := Reference.engine) [])] |}))
    as Hread by (vm_compute; reflexivity).
  split; [exact Himage |]. split; [exact Hallow |].
  split; [reflexivity |]. split; [exact Hread |].
  exact (serveImages_cache_hit (PF := Reference.platform)
           (IE := Reference.engine) (serve_options (Some local_cache) None)
           photo_request {| fs := cached_disk; log := [] |} local_cache
           entry_with_metadata _ Himage Hallow eq_refl Hread).
Defined.


Lemma serveImages_miss_fills_local_cache_witness :
  let options := serve_options (Some local_cache) None in
  let imageId :=
    cache_entry_identifier (Endpoint.path photo_request)
      (Endpoint.searchParams photo_request) in
  let file :=
    path_join (path_resolve cache_root (default "node_modules/.images" None))
      imageId in
  let run := Runtime.serveImages options photo_request in
  let r := response_of (outcome_of run empty_disk) in
  Runtime.cache options = Some (Cache.makeLocalImageCache cache_root None)
  ∧ writable empty_disk = true
  ∧ outcome_of run empty_disk = Ok (Runtime.Responded r)
  ∧ Detached (OpCacheWrite imageId) ∈ trace_of run empty_disk
  ∧ (∃ imageBuffer,
       files_after run empty_disk !! file = Some imageBuffer
       ∧ (Runtime.status r = 200 ∧ Runtime.body r = Some imageBuffer
          ∨ Runtime.status r = 304 ∧ Runtime.body r = None))
  ∧ ∀ p, p ≠ file → files_after run empty_disk !! p = files empty_disk !! p.
Proof.
  cbv zeta.
  assert (outcome_of (Runtime.serveImages (serve_options (Some local_cache) None)
                        photo_request) empty_disk
          = Ok (Runtime.Responded
                  (response_of
                     (outcome_of
                        (Runtime.serveImages
                           (serve_options (Some local_cache) None)
                           photo_request) empty_disk))))
    as Hout by (vm_compute; reflexivity).
  assert (Detached (OpCacheWrite
                      (cache_entry_identifier (Endpoint.path photo_request)
                         (Endpoint.searchParams photo_request)))
          ∈ trace_of (Runtime.serveImages
                        (serve_options (Some local_cache) None) photo_request)
              empty_disk) as Hmiss.
  { replace (cache_entry_identifier (Endpoint.path photo_request)
               (Endpoint.searchParams photo_request))
      with "photo.e2e83ba6.webp" by (vm_compute; reflexivity).
    in_computed_log. }
  split; [reflexivity |]. split; [reflexivity |].
  split; [exact Hout |]. split; [exact Hmiss |].
  exact (serveImages_miss_fills_local_cache (PF := Reference.platform)
           (IE := Reference.engine) (serve_options (Some local_cache) None)
           photo_request cache_root None empty_disk _ eq_refl eq_refl
           Hout Hmiss).
Defined.


Lemma serveImages_transforms_witness :
  let options := serve_options None None in
  Await (OpApplyTransforms (IE := Reference.engine) [Reference.Reencode "webp"])
  ∈ trace_of (Runtime.serveImages options photo_request) empty_disk
  ∧ ([Reference.Reencode "webp"]
     = match resolveConfigs
               (canonical_params (Endpoint.path photo_request)
                  (Endpoint.searchParams photo_request)) with
       | Some imageConfig =>
           generateTransforms imageConfig
             (builtinTransforms ++ default [] (Runtime.transforms options))
       | None => []
       end
     ∧ Await OpLoad
       ∈ trace_of (Runtime.serveImages options photo_request) empty_disk).
Proof.
  cbv zeta.
  assert (Await (OpApplyTransforms (IE := Reference.engine)
                   [Reference.Reencode "webp"])
          ∈ trace_of (Runtime.serveImages (serve_options None None)
                        photo_request) empty_disk)
    as Hran by in_computed_log.
  split; [exact Hran |].
  exact (serveImages_transforms (PF := Reference.platform)
           (IE := Reference.engine) (serve_options None None) photo_request
           empty_disk [Reference.Reencode "webp"] Hran).
Defined.

Lemma serveImages_refuses_unlisted_parameter_witness :
  let options :=
    Runtime.with_allow (serve_options None None)
      (Some (Runtime.AllowedParams width_only)) in
  let req := request "/photo.png" [("w", "100"); ("blur", "3")] ∅ in
  let w := {| fs := empty_disk; log := [] |} in
  Runtime.allow options = Some (Runtime.AllowedParams width_only)
  ∧ isImage (Endpoint.path req) = true
  ∧ ("blur", "3") ∈ Endpoint.searchParams req
  ∧ (∀ values, width_only !! "blur" = Some values → Some "3" ∉ values)
  ∧ (Runtime.serveImages options req w
     = (Ok (Runtime.PassThrough Runtime.Disallowed), w)
     ∨ Runtime.serveImages options req w = (Throw, w))
  ∧ ((∀ n v, (n, v) ∈ Endpoint.searchParams req → width_only !! n = None →
             n ∉ Runtime.object_prototype_names) →
     Runtime.serveImages options req w
     = (Ok (Runtime.PassThrough Runtime.Disallowed), w)).
Proof.
  cbv zeta.
  assert (isImage (Endpoint.path
                     (request "/photo.png" [("w", "100"); ("blur", "3")] ∅))
          = true) as Himage by (vm_compute; reflexivity).
  assert (("blur", "3")
          ∈ Endpoint.searchParams
              (request "/photo.png" [("w", "100"); ("blur", "3")] ∅))
    as Hin by (cbn; at_log).
  assert (∀ values, width_only !! "blur" = Some values → Some "3" ∉ values)
    as Hunlisted.
  { intros values Hvalues. vm_compute in Hvalues. discriminate Hvalues. }
  split; [reflexivity |]. split; [exact Himage |]. split; [exact Hin |].
  split; [exact Hunlisted |].
  exact (serveImages_refuses_unlisted_parameter (PF := Reference.platform)
           (IE := Reference.engine)
           (Runtime.with_allow (serve_options None None)
              (Some (Runtime.AllowedParams width_only)))
           width_only
           (request "/photo.png" [("w", "100"); ("blur", "3")] ∅)
           {| fs := empty_disk; log := [] |} "blur" "3"
           eq_refl Himage Hin Hunlisted).
Defined.

(** The request of the witness above is left to the next handler; with a
    parameter named like a method of every object the check throws. *)
Example unlisted_parameter_runs :
  let options :=
    Runtime.with_allow (serve_options None None)
      (Some (Runtime.AllowedParams width_only)) in
  let w := {| fs := empty_disk; log := [] |} in
  Runtime.serveImages options
    (request "/photo.png" [("w", "100"); ("blur", "3")] ∅) w
  = (Ok (Runtime.PassThrough Runtime.Disallowed), w)
  ∧ Runtime.serveImages options
      (request "/photo.png" [("w", "100"); ("toString", "3")] ∅) w
    = (Throw, w)
  ∧ Runtime.serveImages options
      (request "/photo.png" [("blur", "3"); ("toString", "3")] ∅) w
    = (Ok (Runtime.PassThrough Runtime.Disallowed), w).
Proof. cbv zeta. repeat split; vm_compute; reflexivity. Qed.

Lemma defaulted_format_is_checked_witness :
  let options :=
    Runtime.with_allow (serve_options None None)
      (Some (Runtime.AllowedParams width_only)) in
  let req := request "/photo.png" [("constructor", "x")] ∅ in
  let w := {| fs := empty_disk; log := [] |} in
  Runtime.allow options = Some (Runtime.AllowedParams width_only)
  ∧ isImage (Endpoint.path req) = true
  ∧ URLSearchParams.has "format" (Endpoint.searchParams req) = false
  ∧ (width_only !! "format" = None
     ∨ ∃ values, width_only !! "format" = Some values
                 ∧ Some (JsString.slice_from 1 (extname (Endpoint.path req)))
                   ∉ values)
  ∧ (Runtime.serveImages options req w
     = (Ok (Runtime.PassThrough Runtime.Disallowed), w)
     ∨ Runtime.serveImages options req w = (Throw, w))
  ∧ (Runtime.serveImages options req w = (Throw, w)
     ↔ ∃ before name value after,
         Endpoint.searchParams req = before ++ (name, value) :: after
         ∧ (∀ n v, (n, v) ∈ before →
              ∃ values, width_only !! n = Some values ∧ Some v ∈ values)
         ∧ width_only !! name = None
         ∧ name ∈ Runtime.object_prototype_names).
Proof.
  cbv zeta.
  assert (isImage (Endpoint.path
                     (request "/photo.png" [("constructor", "x")] ∅)) = true)
    as Himage by (vm_compute; reflexivity).
  assert (URLSearchParams.has "format"
            (Endpoint.searchParams
               (request "/photo.png" [("constructor", "x")] ∅)) = false)
    as Hformat by (vm_compute; reflexivity).
  assert (width_only !! "format" = None
          ∨ ∃ values,
              width_only !! "format" = Some values
              ∧ Some (JsString.slice_from 1
                        (extname (Endpoint.path
                                    (request "/photo.png"
                                       [("constructor", "x")] ∅))))
                ∉ values) as Hlist by (left; vm_compute; reflexivity).
  split; [reflexivity |]. split; [exact Himage |]. split; [exact Hformat |].
  split; [exact Hlist |].
  exact (defaulted_format_is_checked (PF := Reference.platform)
           (IE := Reference.engine)
           (Runtime.with_allow (serve_options None None)
              (Some (Runtime.AllowedParams width_only)))
           width_only (request "/photo.png" [("constructor", "x")] ∅)
           {| fs := empty_disk; log := [] |} eq_refl Himage Hformat Hlist).
Defined.

(** The request [/photo.png?constructor=x] against the allow-list
    [{ w: ['100'] }]: the handler rejects. With the width alone it leaves
    the request to the next handler. *)
Example inherited_parameter_name_throws :
  let options :=
    Runtime.with_allow (serve_options None None)
      (Some (Runtime.AllowedParams width_only)) in
  let w := {| fs := empty_disk; log := [] |} in
  Runtime.serveImages options (request "/photo.png" [("constructor", "x")] ∅) w
  = (Throw, w)
  ∧ Runtime.serveImages options (request "/photo.png" [("w", "100")] ∅) w
    = (Ok (Runtime.PassThrough Runtime.Disallowed), w).
Proof. cbv zeta. split; vm_compute; reflexivity. Qed.

Lemma serveImages_conditional_response_witness :
  let options := serve_options None None in
  let req := request "/photo.png" [("format", "webp")]
               {[ "if-none-match" := etag photo_webp ]} in
  let w := {| fs := empty_disk; log := [] |} in
  let r := {| Runtime.status := 304; Runtime.response_headers := ∅;
              Runtime.body := None |} in
  let w' := {| fs := empty_disk;
               log := [Await OpLoad;
                       Await (OpApplyTransforms (IE := Reference.engine)
                                [Reference.Reencode "webp"]);
                       Await OpToBuffer; RespondWith 304] |} in
  Runtime.serveImages options req w = (Ok (Runtime.Responded r), w')
  ∧ ∃ image imageBuffer,
      served_image options req w image
      ∧ toBuffer image = Ok imageBuffer
      ∧ if bool_decide
             (Endpoint.headers req !! "if-none-match"
              = Some (etag imageBuffer))
        then r = {| Runtime.status := 304; Runtime.response_headers := ∅;
                    Runtime.body := None |}
        else ∃ assigned,
            assigned_headers options req = Ok assigned
            ∧ r = {| Runtime.status := 200;
                     Runtime.response_headers :=
                       assigned ∪ computed_headers image imageBuffer;
                     Runtime.body := Some imageBuffer |}.
Proof.
  cbv zeta.
  assert (Runtime.serveImages (serve_options None None)
            (request "/photo.png" [("format", "webp")]
               {[ "if-none-match" := etag photo_webp ]})
            {| fs := empty_disk; log := [] |}
          = (Ok (Runtime.Responded
                   {| Runtime.status := 304; Runtime.response_headers := ∅;
                      Runtime.body := None |}),
             {| fs := empty_disk;
                log := [Await OpLoad;
                        Await (OpApplyTransforms (IE := Reference.engine)
                                 [Reference.Reencode "webp"]);
                        Await OpToBuffer; RespondWith 304] |}))
    as Hrun by (vm_compute; reflexivity).
  split; [exact Hrun |].
  exact (serveImages_conditional_response (PF := Reference.platform)
           (IE := Reference.engine) (serve_options None None)
           (request "/photo.png" [("format", "webp")]
              {[ "if-none-match" := etag photo_webp ]})
           _ _ _ Hrun).
Defined.

Lemma middleware_needs_a_query_witness :
  let req := dev_request "/photo.png" ∅ in
  let w := {| fs := public_disk; log := [] |} in
  (∀ before after, Plugin.url req ≠ before +:+ "?" +:+ after)
  ∧ Plugin.middleware (dev_options None) dev_config req w
    = (Ok Plugin.Next, w).
Proof.
  cbv zeta.
  assert (∀ before after,
            Plugin.url (dev_request "/photo.png" ∅)
            ≠ before +:+ "?" +:+ after) as Hnone.
  { apply no_question_mark_check. vm_compute. reflexivity. }
  split; [exact Hnone |].
  exact (middleware_needs_a_query (PF := Reference.platform)
           (IE := Reference.engine) (dev_options None) dev_config
           (dev_request "/photo.png" ∅) {| fs := public_disk; log := [] |}
           Hnone).
Defined.

Lemma middleware_cache_hit_witness :
  let req := dev_request "/photo.png?w=200&format=webp" ∅ in
  let cacheDir := "/srv/node_modules/.images" in
  let entry :=
    path_join cacheDir
      (cache_entry_identifier "/photo.png" (parse_query "w=200&format=webp")) in
  let run := Plugin.middleware (dev_options None) dev_config req in
  JsString.split_query (Plugin.url req)
  = ("/photo.png", Some "w=200&format=webp")
  ∧ isImage "/photo.png" = true
  ∧ resolveConfigs (Plugin.normalize "/photo.png" "w=200&format=webp")
    = Some [("format", "webp"); ("w", "200")]
  ∧ Plugin.resolved_cacheDir (dev_options None) dev_config = Some cacheDir
  ∧ files cached_disk !! entry = Some photo_webp
  ∧ sharp photo_webp = Ok entry_handle
  ∧ (∀ e, e ∈ trace_of run cached_disk →
          e = FsRead entry
          ∨ e = Await (OpApplyTransforms (IE := Reference.engine) [])
          ∨ e = Await OpHook ∨ e = WriteHead 200 ∨ e = Pipe)
  ∧ disk_after run cached_disk = cached_disk
  ∧ ∀ r, outcome_of run cached_disk = Ok (Plugin.Responded r) →
         Plugin.piped r = entry_handle
         ∨ applyTransforms [] entry_handle None = Ok (Plugin.piped r).
Proof.
  cbv zeta.
  assert (JsString.split_query
            (Plugin.url (dev_request "/photo.png?w=200&format=webp" ∅))
          = ("/photo.png", Some "w=200&format=webp"))
    as Hsplit by (vm_compute; reflexivity).
  assert (isImage "/photo.png" = true) as Himage by (vm_compute; reflexivity).
  assert (resolveConfigs (Plugin.normalize "/photo.png" "w=200&format=webp")
          = Some [("format", "webp"); ("w", "200")])
    as Hconfig by (vm_compute; reflexivity).
  assert (Plugin.resolved_cacheDir (dev_options None) dev_config
          = Some "/srv/node_modules/.images")
    as Hdir by (vm_compute; reflexivity).
  assert (files cached_disk
            !! path_join "/srv/node_modules/.images"
                 (cache_entry_identifier "/photo.png"
                    (parse_query "w=200&format=webp"))
          = Some photo_webp) as Hfile by (vm_compute; reflexivity).
  assert (sharp photo_webp = Ok entry_handle)
    as Hsharp by (vm_compute; reflexivity).
  split; [exact Hsplit |]. split; [exact Himage |]. split; [exact Hconfig |].
  split; [exact Hdir |]. split; [exact Hfile |]. split; [exact Hsharp |].
  exact (middleware_cache_hit (PF := Reference.platform)
           (IE := Reference.engine) (dev_options None) dev_config
           (dev_request "/photo.png?w=200&format=webp" ∅) cached_disk
           "/srv/node_modules/.images" "/photo.png" "w=200&format=webp"
           [("format", "webp"); ("w", "200")] photo_webp entry_handle
           Hsplit Himage Hconfig Hdir Hfile Hsharp).
Defined.

Lemma middleware_stores_the_piped_image_witness :
  let req := dev_request "/photo.png?w=200&format=webp" ∅ in
  let run := Plugin.middleware (dev_options None) dev_config req in
  let r :=
    {| Plugin.status := 200;
       Plugin.response_headers :=
         {[ "Content-Type" := "image/webp";
            "Cache-Control" := "max-age=360000" ]};
       Plugin.piped := photo_as_webp |} in
  outcome_of run empty_disk = Ok (Plugin.Responded r)
  ∧ FsWrite photo_entry ∈ trace_of run empty_disk
  ∧ ∃ imageData,
      toBuffer (Plugin.piped r) = Ok imageData
      ∧ files_after run empty_disk !! photo_entry = Some imageData.
Proof.
  cbv zeta.
  assert (outcome_of (Plugin.middleware (dev_options None) dev_config
                        (dev_request "/photo.png?w=200&format=webp" ∅))
            empty_disk
          = Ok (Plugin.Responded
                  {| Plugin.status := 200;
                     Plugin.response_headers :=
                       {[ "Content-Type" := "image/webp";
                          "Cache-Control" := "max-age=360000" ]};
                     Plugin.piped := photo_as_webp |}))
    as Hout by (vm_compute; reflexivity).
  assert (FsWrite photo_entry
          ∈ trace_of (Plugin.middleware (dev_options None) dev_config
                        (dev_request "/photo.png?w=200&format=webp" ∅))
              empty_disk) as Hwrite.
  { unfold photo_entry. in_computed_log. }
  split; [exact Hout |]. split; [exact Hwrite |].
  exact (middleware_stores_the_piped_image (PF := Reference.platform)
           (IE := Reference.engine) (dev_options None) dev_config
           (dev_request "/photo.png?w=200&format=webp" ∅) empty_disk _
           photo_entry Hout Hwrite).
Defined.

Lemma middleware_loader_overrides_witness :
  let req := dev_request "/photo.png?w=200&format=webp" ∅ in
  let options :=
    {| Plugin.load := Some dev_loader; Plugin.cacheDir := None;
       Plugin.removeExifData := None; Plugin.devHeaders := None |} in
  JsString.split_query (Plugin.url req)
  = ("/photo.png", Some "w=200&format=webp")
  ∧ Plugin.load options = Some dev_loader
  ∧ dev_loader "/photo.png" (Plugin.normalize "/photo.png" "w=200&format=webp")
    = Ok (Some photo_png)
  ∧ ∀ p, FsRead p ∈ trace_of (Plugin.middleware options dev_config req)
                      public_disk →
         ∃ cacheDir,
           Plugin.resolved_cacheDir options dev_config = Some cacheDir
           ∧ p = path_join cacheDir
                   (cache_entry_identifier "/photo.png"
                      (parse_query "w=200&format=webp")).
Proof.
  cbv zeta.
  assert (JsString.split_query
            (Plugin.url (dev_request "/photo.png?w=200&format=webp" ∅))
          = ("/photo.png", Some "w=200&format=webp"))
    as Hsplit by (vm_compute; reflexivity).
  split; [exact Hsplit |]. split; [reflexivity |]. split; [reflexivity |].
  exact (middleware_loader_overrides (PF := Reference.platform)
           (IE := Reference.engine)
           {| Plugin.load := Some dev_loader; Plugin.cacheDir := None;
              Plugin.removeExifData := None; Plugin.devHeaders := None |}
           dev_config (dev_request "/photo.png?w=200&format=webp" ∅)
           public_disk "/photo.png" "w=200&format=webp" dev_loader photo_png
           Hsplit eq_refl eq_refl).
Defined.

Lemma middleware_no_source_witness :
  let req := dev_request "/photo.png?w=200&format=webp" ∅ in
  let params := Plugin.normalize "/photo.png" "w=200&format=webp" in
  let publicFile :=
    path_join (path_resolve (Plugin.root dev_config)
                 (Plugin.publicDir dev_config)) "/photo.png" in
  let srcFile := path_join (Plugin.root dev_config) "/photo.png" in
  JsString.split_query (Plugin.url req)
  = ("/photo.png", Some "w=200&format=webp")
  ∧ isImage "/photo.png" = true
  ∧ resolveConfigs params = Some [("format", "webp"); ("w", "200")]
  ∧ (outcome_of (Plugin.middleware plain_options dev_config req) empty_disk
     = Ok Plugin.Next
     ↔ (∀ cacheDir data,
          Plugin.resolved_cacheDir plain_options dev_config = Some cacheDir →
          files empty_disk
            !! path_join cacheDir
                 (cache_entry_identifier "/photo.png"
                    (parse_query "w=200&format=webp"))
          = Some data →
          sharp data = Throw)
       ∧ (∀ loadImage, Plugin.load plain_options = Some loadImage →
                       loadImage "/photo.png" params = Ok None)
       ∧ (Plugin.publicDir dev_config ≠ "" →
          files empty_disk !! publicFile = None)
       ∧ files empty_disk !! srcFile = None).
Proof.
  cbv zeta.
  assert (JsString.split_query
            (Plugin.url (dev_request "/photo.png?w=200&format=webp" ∅))
          = ("/photo.png", Some "w=200&format=webp"))
    as Hsplit by (vm_compute; reflexivity).
  assert (isImage "/photo.png" = true) as Himage by (vm_compute; reflexivity).
  assert (resolveConfigs (Plugin.normalize "/photo.png" "w=200&format=webp")
          = Some [("format", "webp"); ("w", "200")])
    as Hconfig by (vm_compute; reflexivity).
  split; [exact Hsplit |]. split; [exact Himage |]. split; [exact Hconfig |].
  exact (middleware_no_source (PF := Reference.platform)
           (IE := Reference.engine) plain_options dev_config
           (dev_request "/photo.png?w=200&format=webp" ∅) empty_disk
           "/photo.png" "w=200&format=webp"
           [("format", "webp"); ("w", "200")] Hsplit Himage Hconfig).
Defined.

(** The request of the witness above is in fact handed on: there is no
    loader and the disk is empty. *)
Example middleware_hands_on_without_a_source :
  outcome_of (Plugin.middleware plain_options dev_config
                (dev_request "/photo.png?w=200&format=webp" ∅)) empty_disk
  = Ok Plugin.Next
  ∧ trace_of (Plugin.middleware plain_options dev_config
                (dev_request "/photo.png?w=200&format=webp" ∅)) empty_disk
    = [FsRead photo_entry; Await OpLoad; FsRead "/srv/public/photo.png";
       FsRead "/srv/photo.png"].
Proof. split; vm_compute; reflexivity. Qed.

Lemma readImage_versions_agree_witness :
  let w := {| fs := public_disk; log := [] |} in
  path_resolve (path_resolve "/srv" "public") "photo.png"
  = path_join (path_resolve "/srv" "public") "photo.png"
  ∧ Utils.readImage "photo.png" "/srv" (Some "public") w
    = Plugin.readImage
        {| Plugin.root := "/srv"; Plugin.publicDir := "public" |}
        "photo.png" w.
Proof.
  cbv zeta.
  assert (path_resolve (path_resolve "/srv" "public") "photo.png"
          = path_join (path_resolve "/srv" "public") "photo.png")
    as Hsame by (vm_compute; reflexivity).
  split; [exact Hsame |].
  exact (readImage_versions_agree (PF := Reference.platform)
           (IE := Reference.engine) "photo.png" "/srv" "public"
           {| fs := public_disk; log := [] |} Hsame).
Defined.

(** On the URI of a request, which starts with a slash, the two differ:
    [path.resolve] starts over at an absolute segment, so the function of
    [src/utils/readImage.ts] looks for the file at the root of the file
    system and misses the one in the public directory. *)
Example readImage_versions_differ_on_an_absolute_uri :
  fst (Plugin.readImage dev_config "/photo.png"
         {| fs := public_disk; log := [] |}) = Ok (Some photo_png)
  ∧ fst (Utils.readImage "/photo.png" "/srv" (Some "public")
           {| fs := public_disk; log := [] |}) = Ok None
  ∧ log (snd (Utils.readImage "/photo.png" "/srv" (Some "public")
                {| fs := public_disk; log := [] |}))
    = [FsRead "/photo.png"; FsRead "/srv/photo.png"].
Proof. repeat split; vm_compute; reflexivity. Qed.


Lemma middleware_dev_headers_win_witness :
  let options :=
    {| Plugin.load := Some dev_loader; Plugin.cacheDir := None;
       Plugin.removeExifData := None;
       Plugin.devHeaders :=
         Some (Plugin.StaticHeaders {[ "Cache-Control" := "no-store" ]}) |} in
  let req := dev_request "/photo.png?w=200&format=webp" ∅ in
  let r :=
    {| Plugin.status := 200;
       Plugin.response_headers :=
         {[ "Content-Type" := "image/webp"; "Cache-Control" := "no-store" ]};
       Plugin.piped := photo_as_webp |} in
  JsString.split_query (Plugin.url req)
  = ("/photo.png", Some "w=200&format=webp")
  ∧ outcome_of (Plugin.middleware options dev_config req) empty_disk
    = Ok (Plugin.Responded r)
  ∧ ∃ headers,
      match Plugin.devHeaders options with
      | Some (Plugin.HeadersHook hook) =>
          hook "/photo.png" (Plugin.normalize "/photo.png" "w=200&format=webp")
          = Ok headers
      | Some (Plugin.StaticHeaders h) => headers = h
      | None => headers = ∅
      end
      ∧ (∀ name value, headers !! name = Some value →
                       Plugin.response_headers r !! name = Some value)
      ∧ (∀ name,
           headers !! name = None →
           Plugin.response_headers r !! name
           = ({[ "Content-Type" :=
                   "image/" +:+ JsString.or_undefined
                                  (getMetadata (Plugin.piped r) "format");
                 "Cache-Control" := "max-age=360000" ]} : gmap string string)
               !! name).
Proof.
  cbv zeta.
  assert (JsString.split_query
            (Plugin.url (dev_request "/photo.png?w=200&format=webp" ∅))
          = ("/photo.png", Some "w=200&format=webp"))
    as Hsplit by (vm_compute; reflexivity).
  assert (outcome_of
            (Plugin.middleware
               {| Plugin.load := Some dev_loader; Plugin.cacheDir := None;
                  Plugin.removeExifData := None;
                  Plugin.devHeaders :=
                    Some (Plugin.StaticHeaders
                            {[ "Cache-Control" := "no-store" ]}) |}
               dev_config (dev_request "/photo.png?w=200&format=webp" ∅))
            empty_disk
          = Ok (Plugin.Responded
                  {| Plugin.status := 200;
                     Plugin.response_headers :=
                       {[ "Content-Type" := "image/webp";
                          "Cache-Control" := "no-store" ]};
                     Plugin.piped := photo_as_webp |}))
    as Hout by (vm_compute; reflexivity).
  split; [exact Hsplit |]. split; [exact Hout |].
  exact (middleware_dev_headers_win (PF := Reference.platform)
           (IE := Reference.engine) _ dev_config
           (dev_request "/photo.png?w=200&format=webp" ∅) empty_disk _
           "/photo.png" "w=200&format=webp" Hsplit Hout).
Defined.



(** The request [/anim.gif?w=100], whose format the [format] directive
    does not write: the configuration generates no transformation, and
    the source is served and cached as it is, by both handlers. *)
Example source_served_as_it_is :
  let run := Runtime.serveImages (serve_options (Some local_cache) None)
               (request "/anim.gif" [("w", "100")] ∅) in
  let dev := Plugin.middleware (dev_options None) dev_config
               (dev_request "/anim.gif?w=100" ∅) in
  let entry := "/srv/node_modules/.images/anim.6fc5509c.gif" in
  trace_of run empty_disk
  = [Await (OpCacheRead "anim.6fc5509c.gif"); Await OpLoad;
     Await (OpApplyTransforms []);
     Detached (OpCacheWrite "anim.6fc5509c.gif");
     Await OpToBuffer; RespondWith 200]
  ∧ files_after run empty_disk !! entry = Some photo_gif
  ∧ trace_of dev empty_disk
    = [FsRead entry; Await OpLoad; Await (OpApplyTransforms []);
       Await OpToBuffer; FsWrite entry; WriteHead 200; Pipe]
  ∧ files_after dev empty_disk !! entry = Some photo_gif.
Proof. cbv zeta. repeat split; vm_compute; reflexivity. Qed.

(** The identifier ends with the [format] parameter as the request gives
    it. The file the middleware writes is what [path.join] makes of the
    cache directory and the identifier, and a [format] with [..] in it
    takes that file out of the cache directory. *)
Example identifier_carries_the_format_as_given :
  let dev := Plugin.middleware (dev_options None) dev_config
               (dev_request "/photo.png?format=%2F..%2F..%2F..%2Fevil" ∅) in
  Plugin.imageId "/photo.png"
    (Plugin.normalize "/photo.png" "format=%2F..%2F..%2F..%2Fevil")
  = "photo.eb102b8a./../../../evil"
  ∧ Plugin.resolved_cacheDir (dev_options None) dev_config
    = Some "/srv/node_modules/.images"
  ∧ path_join "/srv/node_modules/.images" "photo.eb102b8a./../../../evil"
    = "/srv/evil"
  ∧ trace_of dev empty_disk
    = [FsRead "/srv/evil"; Await OpLoad; Await (OpApplyTransforms []);
       Await OpToBuffer; FsWrite "/srv/evil"; WriteHead 200; Pipe]
  ∧ files_after dev empty_disk = {[ "/srv/evil" := photo_png ]}.
Proof. cbv zeta. repeat split; vm_compute; reflexivity. Qed.

(** Names are sorted by their UTF-16 code units: a character outside
    the basic plane, which is a pair of surrogates, comes before U+FF5E,
    though its code point and its UTF-8 bytes are the greater ones. *)
Example sort_compares_code_units :
  JsString.code_units "😀" = [55357; 56832]%N
  ∧ JsString.code_units "～" = [65374]%N
  ∧ URLSearchParams.sort [("～", "1"); ("😀", "2"); ("format", "png")]
    = [("format", "png"); ("😀", "2"); ("～", "1")]
  ∧ String.leb "～" "😀" = true.
Proof. repeat split; vm_compute; reflexivity. Qed.

End MoreRuns.
